(** * MBM-Flex layout editor: the graph model and its managers

    A shallow embedding of the JavaScript front end (js/objects, js/managers,
    js/ui, js/interfaces/TransportPathDeductionInterface.js, js/core/state.js,
    js/core/utils.js and the handlers of js/main.js), the properties of its
    specification that can be settled on it, and further properties of the
    code.

    Modelling conventions.
    - Pixel coordinates and times are rationals ([Qc]).  The arithmetic of
      binary64 is [round64], which rounds an exact result to the nearest
      binary64 number, and [binary64], which also gives the infinity beyond
      the range.  ApertureManager adds and halves with it, StringToNumber
      rounds the value of a literal with it, and the colour gradient
      subtracts, divides and multiplies with it.  The pointer handlers and
      the renderer subtract and halve exactly, and coordinates are finite.
      A JS number that can also be [NaN] or infinite (an aperture area, the
      result of [Number(...)]) is a [number]; the sign of a zero is not
      modelled.
    - A JS [Map] is an association list in insertion order ([JsMap]).  A plain
      object used as a dictionary is the same list read through
      [Obj.read]/[Obj.write], which know about [Object.prototype].  Property
      enumeration is taken in insertion order; an engine lists the keys
      that are whole numbers first, and the round trip through save and
      load is stated for labels that are none.
    - [State] is the module-level singleton of js/core/state.js, passed
      explicitly.  A Room held in [linkSelection] is a snapshot of the object:
      only its immutable [id] and its box are read from it.
    - What the browser provides and the repository does not contain
      (crypto.randomUUID, JSON.parse, JSON.stringify, the text of
      default_room_text.js, element layout) is a field of the class
      [Runtime].
    - What a request to the backend answers (the validation of a room's
      text, the deduced paths, the results of a simulation) is not modelled;
      the handlers are followed up to the request they send, and the answer
      with the paths is an event of its own. *)

From Stdlib Require Import Ascii QArith Qcanon Qround Qabs Qpower Lqa.
From stdpp Require Import base option list strings numbers pretty relations.

Local Open Scope Qc_scope.

(** ** JavaScript values *)

(** A JS number: a finite value, NaN or an infinity. *)
Inductive number : Type :=
  | Fin (q : Qc)
  | NaN
  | PosInf
  | NegInf.

Global Instance number_eq_dec : EqDecision number.
Proof. solve_decision. Defined.

Definition number_truthy (n : number) : bool :=
  match n with
  | Fin q => negb (bool_decide (q = 0))
  | NaN => false
  | PosInf | NegInf => true
  end.

(** ** binary64

    A JS number is a binary64 number: the exact result of an operation is
    rounded to the nearest number with 53 significant bits - on the grid of
    2^-1074 below 2^-1022 - and a tie goes to the even one. *)

Definition pow2 (e : Z) : Q := Qpower 2 e.

(** The [e] with [2^e <= x < 2^(e+1)], for [0 < x]. *)
Definition floor_log2 (x : Q) : Z :=
  let e := (Z.log2 (Qnum x) - Z.log2 (Zpos (Qden x)))%Z in
  if Qle_bool (pow2 e) x then e else (e - 1)%Z.

Definition round_half_even (x : Q) : Z :=
  let f := Qfloor x in
  match ((x - inject_Z f) ?= (1 # 2))%Q with
  | Lt => f
  | Gt => (f + 1)%Z
  | Eq => if Z.even f then f else (f + 1)%Z
  end.

(** Rounding to nearest, ties to even, with the exponent unbounded above:
    the magnitude is rounded to a whole number of units in the last
    place. *)
Definition round_magnitude (a : Q) : Q :=
  let ulp := pow2 (Z.max (floor_log2 a) (-1022) - 52) in
  (inject_Z (round_half_even (a / ulp)) * ulp)%Q.

Definition round64 (x : Qc) : Qc :=
  let r := round_magnitude (Qabs (this x)) in
  Q2Qc (if Qle_bool 0 (this x) then r else - r).

(** The number an operation with the exact result [x] returns: a result
    that rounds to 2^1024 or beyond is an infinity. *)
Definition binary64 (x : Qc) : number :=
  let r := round64 x in
  if Qle_bool (pow2 1024) (Qabs (this r))
  then (if Qle_bool 0 (this x) then PosInf else NegInf)
  else Fin r.

(** [a + b] and [a / b] on coordinates.  Coordinates are finite in this
    model: a sum that binary64 turns into an infinity (2^1024 and beyond) is
    kept as the rounded number. *)
Definition f64_add (a b : Qc) : Qc := round64 (a + b).
Definition f64_div (a b : Qc) : Qc := round64 (a / b).
Global Arguments f64_add : simpl never.
Global Arguments f64_div : simpl never.

Definition is_finite (n : number) : bool :=
  match n with
  | Fin _ => true
  | _ => false
  end.

(** [x / y] on numbers.  The sign of a zero is not modelled: a divisor 0
    counts as +0. *)
Definition number_div (x y : number) : number :=
  match x, y with
  | Fin a, Fin b =>
      if bool_decide (b = 0) then
        if bool_decide (a = 0) then NaN
        else if bool_decide (0 < a) then PosInf else NegInf
      else binary64 (a / b)
  | Fin _, (PosInf | NegInf) => Fin 0
  | PosInf, Fin b => if bool_decide (0 ≤ b) then PosInf else NegInf
  | NegInf, Fin b => if bool_decide (0 ≤ b) then NegInf else PosInf
  | _, _ => NaN
  end.


(** ** StringToNumber (ECMA-262): the value of the literal, rounded. *)

Fixpoint skip_space (s : string) : string :=
  match s with
  | String c s' => if Ascii.is_space c then skip_space s' else s
  | EmptyString => s
  end.

(** StrWhiteSpace on both sides removed (the ASCII part of it). *)
Definition trim (s : string) : string :=
  String.rev (skip_space (String.rev (skip_space s))).

Definition digit_value (base : N) (c : ascii) : option N :=
  let n := N_of_ascii c in
  let d :=
    if bool_decide (48 ≤ n ≤ 57)%N then Some (n - 48)%N
    else if bool_decide (97 ≤ n ≤ 102)%N then Some (n - 87)%N
    else if bool_decide (65 ≤ n ≤ 70)%N then Some (n - 55)%N
    else None in
  match d with
  | Some v => if bool_decide (v < base)%N then Some v else None
  | None => None
  end.

(** The longest run of digits at the front: its value, its length, the
    rest. *)
Fixpoint read_digits (base : N) (s : string) (acc : N) (len : nat)
  : N * nat * string :=
  match s with
  | String c s' =>
      match digit_value base c with
      | Some d => read_digits base s' (acc * base + d) (S len)
      | None => (acc, len, s)
      end
  | EmptyString => (acc, len, s)
  end.

Definition pow10 (e : Z) : Qc :=
  if bool_decide (0 ≤ e)%Z then Qc_of_Z (10 ^ e)
  else / Qc_of_Z (10 ^ (- e)).

(** ExponentPart, or nothing; [None] when the text does not end there. *)
Definition read_exponent (s : string) : option Z :=
  match s with
  | EmptyString => Some 0%Z
  | String c s' =>
      if bool_decide (c = "e"%char ∨ c = "E"%char) then
        let '(neg, s'') :=
          match s' with
          | String "-" t => (true, t)
          | String "+" t => (false, t)
          | _ => (false, s')
          end in
        match read_digits 10 s'' 0 0 with
        | (_, O, _) => None
        | (e, _, EmptyString) =>
            Some (if neg : bool then - Z.of_N e else Z.of_N e)%Z
        | _ => None
        end
      else None
  end.

(** StrUnsignedDecimalLiteral *)
Definition unsigned_decimal (s : string) : option number :=
  if bool_decide (s = "Infinity") then Some PosInf
  else
    let '(int, ilen, rest) := read_digits 10 s 0 0 in
    let '(frac, flen, rest') :=
      match rest with
      | String "." t => 
          let '(f, fl, r) := read_digits 10 t 0 0 in (f, fl, Some r)
      | _ => (0%N, O, None)
      end in
    let tail := match rest' with Some r => r | None => rest end in
    if bool_decide (ilen = O ∧ flen = O) then None
    else
      match read_exponent tail with
      | Some e =>
          Some (binary64 ((Qc_of_Z (Z.of_N int)
                           + Qc_of_Z (Z.of_N frac) * pow10 (- Z.of_nat flen))
                          * pow10 e))
      | None => None
      end.

Definition non_decimal (s : string) : option number :=
  let radix (c : ascii) : option N :=
    if bool_decide (c = "x"%char ∨ c = "X"%char) then Some 16%N
    else if bool_decide (c = "o"%char ∨ c = "O"%char) then Some 8%N
    else if bool_decide (c = "b"%char ∨ c = "B"%char) then Some 2%N
    else None in
  match s with
  | String "0" (String c t) =>
      match radix c with
      | Some base =>
          match read_digits base t 0 0 with
          | (_, O, _) => None
          | (n, _, EmptyString) => Some (binary64 (Qc_of_Z (Z.of_N n)))
          | _ => None
          end
      | None => None
      end
  | _ => None
  end.

Definition negate (n : number) : number :=
  match n with
  | Fin q => Fin (- q)
  | PosInf => NegInf
  | NegInf => PosInf
  | NaN => NaN
  end.

Definition StringToNumber (s : string) : number :=
  let t := trim s in
  match t with
  | EmptyString => Fin 0
  | String "-" u => from_option negate NaN (unsigned_decimal u)
  | String "+" u => default NaN (unsigned_decimal u)
  | _ =>
      match non_decimal t with
      | Some n => n
      | None => default NaN (unsigned_decimal t)
      end
  end.

(** Plain data as JSON.parse builds it and JSON.stringify reads it. *)
#[warnings="-register-all"]
Inductive jsval : Type :=
  | VUndef
  | VNull
  | VBool (b : bool)
  | VNum (n : number)
  | VStr (s : string)
  | VArr (items : list jsval)
  | VObj (props : list (string * jsval)).

(** ToBoolean. *)
Definition truthy (v : jsval) : bool :=
  match v with
  | VUndef | VNull => false
  | VBool b => b
  | VNum n => number_truthy n
  | VStr s => negb (bool_decide (s = ""))
  | VArr _ | VObj _ => true
  end.

(** ** Insertion-ordered maps (JS [Map]) *)
Module JsMap.
Abbreviation t V := (list (string * V)) (only parsing).

Definition empty {V} : t V := [].

Fixpoint get {V} (k : string) (m : t V) : option V :=
  match m with
  | [] => None
  | (k', v) :: m' => if bool_decide (k' = k) then Some v else get k m'
  end.

Definition has {V} (k : string) (m : t V) : bool :=
  match get k m with Some _ => true | None => false end.

(** [set] keeps the position of an existing key and appends a new one. *)
Fixpoint set {V} (k : string) (v : V) (m : t V) : t V :=
  match m with
  | [] => [(k, v)]
  | (k', v') :: m' =>
      if bool_decide (k' = k) then (k, v) :: m' else (k', v') :: set k v m'
  end.

Definition delete {V} (k : string) (m : t V) : t V :=
  filter (λ kv, kv.1 ≠ k) m.

Definition size {V} (m : t V) : nat := length m.
Definition keys {V} (m : t V) : list string := m.*1.
Definition values {V} (m : t V) : list V := m.*2.
End JsMap.

(** ** Plain objects used as dictionaries *)
Module Obj.
(** The property names every plain object inherits. *)
Definition Object_prototype_names : list string :=
  [ "constructor"; "hasOwnProperty"; "isPrototypeOf"; "propertyIsEnumerable";
    "toLocaleString"; "toString"; "valueOf"; "__proto__";
    "__defineGetter__"; "__defineSetter__"; "__lookupGetter__";
    "__lookupSetter__" ].

(** The result of [o[k]]: an own property, a built-in found on the
    prototype (a function or the prototype itself: truthy, not data), or
    undefined. *)
Inductive lookup (V : Type) : Type :=
  | Own (v : V)
  | Inherited
  | Missing.
Global Arguments Own {V} v.
Global Arguments Inherited {V}.
Global Arguments Missing {V}.

Definition read {V} (o : list (string * V)) (k : string) : lookup V :=
  match JsMap.get k o with
  | Some v => Own v
  | None =>
      if bool_decide (k ∈ Object_prototype_names) then Inherited else Missing
  end.

(** [o[k] = v].  Assigning to "__proto__" runs the inherited setter and
    creates no own property. *)
Definition write {V} (k : string) (v : V) (o : list (string * V))
  : list (string * V) :=
  if bool_decide (k = "__proto__") then o else JsMap.set k v o.
End Obj.

(** [v?.k] for the fixed data keys the program reads (area, rooms, apertures,
    ui, origin, destination, position, size, left, top, width, height): none
    of them is an index, "length" or a member of a built-in prototype, so
    only an own property of an object can answer. *)
Definition field (k : string) (v : jsval) : jsval :=
  match v with
  | VObj o => default VUndef (JsMap.get k o)
  | _ => VUndef
  end.

(** ** Entity model *)

Module Position.
Record t : Type := mk { left : Qc; top : Qc }.
End Position.

Module BoxSize.
Record t : Type := mk { width : Qc; height : Qc }.
End BoxSize.

(** The [ui] of a room: [{ position: {left, top}, size: {width, height} }]. *)
Module RoomUI.
Record t : Type := mk { position : Position.t; size : BoxSize.t }.
End RoomUI.

(** The [ui] of an aperture: [{ position: {left, top} }]. *)
Module ApertureUI.
Record t : Type := mk { position : Position.t }.
End ApertureUI.

Module Room.
Record t : Type := mk {
  id : string;
  label : string;
  data : string;
  ui : RoomUI.t
}.
End Room.

Module Aperture.
Record t : Type := mk {
  id : string;
  area : number;
  grounded : bool;
  rooms : list string;
  ui : ApertureUI.t
}.
End Aperture.

Global Instance Position_eq_dec : EqDecision Position.t.
Proof. solve_decision. Defined.
Global Instance BoxSize_eq_dec : EqDecision BoxSize.t.
Proof. solve_decision. Defined.
Global Instance RoomUI_eq_dec : EqDecision RoomUI.t.
Proof. solve_decision. Defined.
Global Instance ApertureUI_eq_dec : EqDecision ApertureUI.t.
Proof. solve_decision. Defined.
Global Instance Room_eq_dec : EqDecision Room.t.
Proof. solve_decision. Defined.
Global Instance Aperture_eq_dec : EqDecision Aperture.t.
Proof. solve_decision. Defined.

(** ** The document, as far as the managers touch it *)

Inductive ElementClass : Type := RoomElement | ApertureElement.

(** A [div.square] on the canvas.  [style_size] is set for rooms only. *)
Record DomElement : Type := mkElement {
  className : ElementClass;
  dataset_id : string;
  style_left : Qc;
  style_top : Qc;
  style_size : option BoxSize.t;
  textContent : string
}.

(** An SVG [line.connection-line]. *)
Record Line : Type := mkLine {
  x1 : Qc; y1 : Qc; x2 : Qc; y2 : Qc;
  apertureId : string;
  roomId : string
}.

Global Instance ElementClass_eq_dec : EqDecision ElementClass.
Proof. solve_decision. Defined.
Global Instance DomElement_eq_dec : EqDecision DomElement.
Proof. solve_decision. Defined.
Global Instance Line_eq_dec : EqDecision Line.
Proof. solve_decision. Defined.

(** ** The host environment *)
Class Runtime : Type := {
  (** the k-th identifier crypto.randomUUID() hands out in this run *)
  randomUUID : nat → string;
  (** the text defaultRoomText() returns (js/core/default_room_text.js) *)
  defaultRoomText : string;
  (** JSON.parse; [None] is a SyntaxError *)
  JSON_parse : string → option jsval;
  (** [v => JSON.stringify(v, null, 2)] *)
  JSON_stringify : jsval → string;
  (** getBoundingClientRect() of an element of the canvas: its corner in
      the viewport and its extent *)
  clientRect : DomElement → Position.t * BoxSize.t;
  (** the corner of the canvas's own rectangle *)
  canvasRect : Position.t
}.

(** ** js/core/state.js *)
Module State.
Record ui_t : Type := mk_ui {
  canvas : list DomElement;
  connectionLayer : list Line;
  highlightedConnectionLayer : list Line;
  jsonEditor : string;               (* value of the textarea *)
  jsonEditorContainer : bool;        (* display: block? *)
  jsonError : option string          (* shown message, None when hidden *)
}.

Record t : Type := mk {
  rooms : JsMap.t Room.t;
  apertures : JsMap.t Aperture.t;
  selected : option string;          (* data-id of the selected element *)
  linkMode : bool;
  linkSelection : list Room.t;
  linkingDOMElements : list string;  (* data-ids of the marked elements *)
  resultsViewMode : bool;
  transportPathMode : bool;
  ui : ui_t;
  dispatched : list string;          (* CustomEvents sent to document *)
  uuid_calls : nat                   (* calls of crypto.randomUUID so far *)
}.

Definition initial : t :=
  mk [] [] None false [] [] false false
     (mk_ui [] [] [] "" false None) [] 0.

Definition with_rooms (f : JsMap.t Room.t → JsMap.t Room.t) (s : t) : t :=
  mk (f (rooms s)) (apertures s) (selected s) (linkMode s) (linkSelection s)
     (linkingDOMElements s) (resultsViewMode s) (transportPathMode s) (ui s)
     (dispatched s) (uuid_calls s).

Definition with_apertures
    (f : JsMap.t Aperture.t → JsMap.t Aperture.t) (s : t) : t :=
  mk (rooms s) (f (apertures s)) (selected s) (linkMode s) (linkSelection s)
     (linkingDOMElements s) (resultsViewMode s) (transportPathMode s) (ui s)
     (dispatched s) (uuid_calls s).

Definition with_link (mode : bool) (sel : list Room.t) (els : list string)
    (s : t) : t :=
  mk (rooms s) (apertures s) (selected s) mode sel els
     (resultsViewMode s) (transportPathMode s) (ui s)
     (dispatched s) (uuid_calls s).

Definition with_ui (f : ui_t → ui_t) (s : t) : t :=
  mk (rooms s) (apertures s) (selected s) (linkMode s) (linkSelection s)
     (linkingDOMElements s) (resultsViewMode s) (transportPathMode s)
     (f (ui s)) (dispatched s) (uuid_calls s).

Definition dispatch (event : string) (s : t) : t :=
  mk (rooms s) (apertures s) (selected s) (linkMode s) (linkSelection s)
     (linkingDOMElements s) (resultsViewMode s) (transportPathMode s) (ui s)
     (dispatched s ++ [event]) (uuid_calls s).

Definition with_canvas (f : list DomElement → list DomElement) : t → t :=
  with_ui (λ u, mk_ui (f (canvas u)) (connectionLayer u)
                      (highlightedConnectionLayer u) (jsonEditor u)
                      (jsonEditorContainer u) (jsonError u)).

Definition with_layers (normal highlighted : list Line) : t → t :=
  with_ui (λ u, mk_ui (canvas u) normal highlighted (jsonEditor u)
                      (jsonEditorContainer u) (jsonError u)).

Definition with_jsonError (e : option string) : t → t :=
  with_ui (λ u, mk_ui (canvas u) (connectionLayer u)
                      (highlightedConnectionLayer u) (jsonEditor u)
                      (jsonEditorContainer u) e).

Definition with_jsonEditor (value : string) : t → t :=
  with_ui (λ u, mk_ui (canvas u) (connectionLayer u)
                      (highlightedConnectionLayer u) value
                      (jsonEditorContainer u) (jsonError u)).

Definition with_jsonEditorContainer (shown : bool) : t → t :=
  with_ui (λ u, mk_ui (canvas u) (connectionLayer u)
                      (highlightedConnectionLayer u) (jsonEditor u)
                      shown (jsonError u)).

Definition with_selected (el : option string) (s : t) : t :=
  mk (rooms s) (apertures s) el (linkMode s) (linkSelection s)
     (linkingDOMElements s) (resultsViewMode s) (transportPathMode s) (ui s)
     (dispatched s) (uuid_calls s).
End State.

(** ** js/core/utils.js *)

Definition generateId `{rt : Runtime} (s : State.t) : string * State.t :=
  (randomUUID (State.uuid_calls s),
   State.mk (State.rooms s) (State.apertures s) (State.selected s)
     (State.linkMode s) (State.linkSelection s) (State.linkingDOMElements s)
     (State.resultsViewMode s) (State.transportPathMode s) (State.ui s)
     (State.dispatched s) (S (State.uuid_calls s))).

Definition safeParseJSON `{rt : Runtime} (text : string) (fallback : jsval) : jsval :=
  match JSON_parse text with
  | Some v => v
  | None => fallback
  end.

(** The closure variable of [throttle(fn, delay)]. *)
Record Throttle : Type := mkThrottle { last : Qc }.

Definition throttle : Throttle := mkThrottle 0.

(** One call of the throttled function at time [now] (performance.now());
    the boolean tells whether [fn] ran. *)
Definition throttled (delay now : Qc) (t : Throttle) : Throttle * bool :=
  if bool_decide (delay ≤ now - last t) then (mkThrottle now, true)
  else (t, false).

(** [getCenter(el, container)] with the canvas as container. *)
Definition getCenter `{rt : Runtime} (el : DomElement) : Qc * Qc :=
  let rect := clientRect el in
  let crect := canvasRect in
  (Position.left rect.1 + BoxSize.width rect.2 / 2 - Position.left crect,
   Position.top rect.1 + BoxSize.height rect.2 / 2 - Position.top crect).

(** [document.querySelector(`[data-id="${id}"]`)] *)
Definition querySelector (id : string) (doc : list DomElement)
  : option DomElement :=
  List.find (λ el, bool_decide (dataset_id el = id)) doc.

(** ** js/objects *)

(** [new Room({id, label, data, ui})] *)
Definition new_Room `{rt : Runtime} (id label data : string) (ui : RoomUI.t)
  : Room.t :=
  Room.mk id
    (if bool_decide (label = "") then "Room" else label)
    (if bool_decide (data = "") then defaultRoomText else data)
    ui.

Definition setPosition (left top : Qc) (r : Room.t) : Room.t :=
  Room.mk (Room.id r) (Room.label r) (Room.data r)
    (RoomUI.mk (Position.mk left top) (RoomUI.size (Room.ui r))).

Definition setSize (width height : Qc) (r : Room.t) : Room.t :=
  Room.mk (Room.id r) (Room.label r) (Room.data r)
    (RoomUI.mk (RoomUI.position (Room.ui r)) (BoxSize.mk width height)).

(** [new Aperture({id, area, rooms, ui, grounded})]; an omitted field is
    [None]. *)
Definition new_Aperture (id : string) (area : option number)
    (rooms : option (list string)) (ui : option ApertureUI.t)
    (grounded : option bool) : Aperture.t :=
  Aperture.mk id
    (default (Fin 1) area)
    (default false grounded)
    (default [] rooms)
    (default (ApertureUI.mk (Position.mk 0 0)) ui).

(** ** js/managers/RoomManager.js *)

(** The argument of [createRoom]; a missing or falsy override is [None],
    except that an empty string is passed as it is. *)
Record RoomInit : Type := mkRoomInit {
  init_label : option string;
  init_data : option string;
  init_ui : option RoomUI.t
}.

(** [s || d] on an optional string. *)
Definition string_or (s : option string) (d : string) : string :=
  match s with
  | Some x => if bool_decide (x = "") then d else x
  | None => d
  end.

Definition default_room_ui : RoomUI.t :=
  RoomUI.mk (Position.mk (Qc_of_Z 50) (Qc_of_Z 50))
            (BoxSize.mk (Qc_of_Z 120) (Qc_of_Z 90)).

Definition createRoom `{rt : Runtime} (initialData : RoomInit) (s : State.t)
  : Room.t * State.t :=
  let '(id, s1) := generateId s in
  let room :=
    new_Room id
      (string_or (init_label initialData)
                 ("Room " +:+ pretty (JsMap.size (State.rooms s1))))
      (string_or (init_data initialData) defaultRoomText)
      (default default_room_ui (init_ui initialData)) in
  (room, State.with_rooms (JsMap.set id room) s1).

Definition strip_room (id : string) (ap : Aperture.t) : Aperture.t :=
  Aperture.mk (Aperture.id ap) (Aperture.area ap) (Aperture.grounded ap)
    (filter (λ rid, rid ≠ id) (Aperture.rooms ap)) (Aperture.ui ap).

Definition removeRoom (id : string) (s : State.t) : State.t :=
  let s1 := State.with_apertures (map (λ kv, (kv.1, strip_room id kv.2))) s in
  State.with_rooms (JsMap.delete id) s1.

(** ** js/managers/ApertureManager.js *)

(** The fields [new Aperture(data)] reads of the argument of
    [createAperture]; the [id] is a text, as the constructor documents
    it. *)
Record ApertureInit : Type := mkApertureInit {
  data_id : string;
  data_area : option number;
  data_rooms : option (list string);
  data_ui : option ApertureUI.t;
  data_grounded : option bool
}.

(** [createAperture(data)]: the aperture is registered under the identifier
    drawn for it and keeps the [id] that [data] carries. *)
Definition createAperture `{rt : Runtime} (data : ApertureInit) (s : State.t)
  : Aperture.t * State.t :=
  let '(id, s1) := generateId s in
  let ap :=
    new_Aperture (data_id data) (data_area data) (data_rooms data)
      (data_ui data) (data_grounded data) in
  (ap, State.with_apertures (JsMap.set id ap) s1).

Definition aperture_graphic_radius : Qc := Qc_of_Z 12.

Definition createApertureBetween `{rt : Runtime} (roomA roomB : Room.t)
    (area : option number) (s : State.t) : Aperture.t * State.t :=
  let '(id, s1) := generateId s in
  let pA := RoomUI.position (Room.ui roomA) in
  let sA := RoomUI.size (Room.ui roomA) in
  let pB := RoomUI.position (Room.ui roomB) in
  let sB := RoomUI.size (Room.ui roomB) in
  let l :=
    f64_div
      (f64_add
         (f64_add (f64_add (Position.left pA) (f64_div (BoxSize.width sA) 2))
                  (Position.left pB))
         (f64_div (BoxSize.width sB) 2))
      2 in
  let t :=
    f64_div
      (f64_add
         (f64_add (f64_add (Position.top pA) (f64_div (BoxSize.height sA) 2))
                  (Position.top pB))
         (f64_div (BoxSize.height sB) 2))
      2 in
  let area := default (Fin 1) area in      (* area = 1.0 *)
  let ap :=
    new_Aperture id (Some area)
      (Some [Room.id roomA; Room.id roomB])
      (Some (ApertureUI.mk (Position.mk l t)))
      (Some false) in
  (ap, State.with_apertures (JsMap.set id ap) s1).

Definition createGroundedAperture `{rt : Runtime} (roomA : Room.t) (side : string)
    (area : option number) (s : State.t) : Aperture.t * State.t :=
  let '(id, s1) := generateId s in
  let p := RoomUI.position (Room.ui roomA) in
  let sz := RoomUI.size (Room.ui roomA) in
  let top_delta :=
    if bool_decide (side = "Front")
    then f64_add (BoxSize.height sz) aperture_graphic_radius
    else if bool_decide (side = "Back") then - aperture_graphic_radius
    else f64_div (BoxSize.height sz) 2 in
  let left_delta :=
    if bool_decide (side = "Left") then - aperture_graphic_radius
    else if bool_decide (side = "Right")
    then f64_add (BoxSize.width sz) aperture_graphic_radius
    else f64_div (BoxSize.width sz) 2 in
  let l := f64_add (Position.left p) left_delta in
  let t := f64_add (Position.top p) top_delta in
  let area := default (Fin 1) area in      (* area = 1.0 *)
  let ap :=
    new_Aperture id (Some area)
      (Some [Room.id roomA; side])
      (Some (ApertureUI.mk (Position.mk l t)))
      (Some true) in
  (ap, State.with_apertures (JsMap.set id ap) s1).

Definition removeAperture (id : string) (s : State.t) : State.t :=
  State.with_apertures (JsMap.delete id) s.

(** ** js/managers/ConnectionRenderer.js *)

(** The lines [update()] draws: one per aperture with an element and per
    entry of its [rooms] that is a registered room with an element. *)
Definition connection_lines `{rt : Runtime} (s : State.t) : list Line :=
  let doc := State.canvas (State.ui s) in
  flat_map
    (λ ap : Aperture.t,
       match querySelector (Aperture.id ap) doc with
       | None => []
       | Some apEl =>
           let apCenter := getCenter apEl in
           flat_map
             (λ rid,
                match JsMap.get rid (State.rooms s) with
                | None => []
                | Some _ =>
                    match querySelector rid doc with
                    | None => []
                    | Some roomEl =>
                        let rCenter := getCenter roomEl in
                        [mkLine apCenter.1 apCenter.2 rCenter.1 rCenter.2
                                (Aperture.id ap) rid]
                    end
                end)
             (Aperture.rooms ap)
       end)
    (JsMap.values (State.apertures s)).

Definition ConnectionRenderer_update `{rt : Runtime} (s : State.t) : State.t :=
  State.with_layers (connection_lines s) [] s.

(** ** js/main.js: the DOM helpers handed to the managers *)

Definition first_char (s : string) : string :=
  match s with
  | String c _ => String c ""
  | EmptyString => ""
  end.

Definition createDomAperture `{rt : Runtime} (aperture : Aperture.t) (s : State.t)
  : State.t :=
  let el :=
    mkElement ApertureElement (Aperture.id aperture)
      (Position.left (ApertureUI.position (Aperture.ui aperture)))
      (Position.top (ApertureUI.position (Aperture.ui aperture)))
      None
      (if Aperture.grounded aperture
       then first_char (default "" (Aperture.rooms aperture !! 1%nat))
       else "") in
  ConnectionRenderer_update (State.with_canvas (λ c, c ++ [el]) s).

Definition createDomRoom (room : Room.t) (s : State.t) : State.t :=
  let el :=
    mkElement RoomElement (Room.id room)
      (Position.left (RoomUI.position (Room.ui room)))
      (Position.top (RoomUI.position (Room.ui room)))
      (Some (RoomUI.size (Room.ui room)))
      (Room.label room) in
  State.with_canvas (λ c, c ++ [el]) s.

(** ** js/managers/LinkModeManager.js *)

(** The [in] operator on an array.  Its left operand becomes a property key:
    a Room object turns into the text below (the class defines no toString).
    The array answers for its indices, for "length" and for what it
    inherits. *)
Definition Room_toPropertyKey (room : Room.t) : string := "[object Object]".

Definition Array_prototype_names : list string :=
  [ "at"; "concat"; "copyWithin"; "entries"; "every"; "fill"; "filter";
    "find"; "findIndex"; "findLast"; "findLastIndex"; "flat"; "flatMap";
    "forEach"; "includes"; "indexOf"; "join"; "keys"; "lastIndexOf"; "map";
    "pop"; "push"; "reduce"; "reduceRight"; "reverse"; "shift"; "slice";
    "some"; "sort"; "splice"; "toLocaleString"; "toReversed"; "toSorted";
    "toSpliced"; "toString"; "unshift"; "values"; "with" ].

Fixpoint digits_value (s : string) (acc : N) : option N :=
  match s with
  | EmptyString => Some acc
  | String c s' =>
      match Ascii.is_nat c with
      | Some d => digits_value s' (acc * 10 + N.of_nat d)
      | None => None
      end
  end.

(** The index a property key denotes: decimal digits without a leading
    zero. *)
Definition array_index (key : string) : option N :=
  match key with
  | EmptyString => None
  | String "0" EmptyString => Some 0%N
  | String "0" _ => None
  | _ => digits_value key 0
  end.

Definition array_has_property {A} (key : string) (arr : list A) : bool :=
  match array_index key with
  | Some i => bool_decide (i < N.of_nat (length arr))%N
  | None =>
      bool_decide (key = "length")
      || bool_decide (key ∈ Array_prototype_names)
      || bool_decide (key ∈ Obj.Object_prototype_names)
  end.

Definition enableLinkMode (s : State.t) : State.t :=
  State.dispatch "ui:linkModeOn"
    (State.with_link true [] (State.linkingDOMElements s) s).

Definition disableLinkMode (s : State.t) : State.t :=
  State.with_link false [] [] (State.dispatch "ui:linkModeOff" s).

(** [linkRoom(room, el)]; the element is known by its data-id. *)
Definition linkRoom `{rt : Runtime} (room : Room.t) (el : string) (s : State.t)
  : State.t :=
  if negb (State.linkMode s) then s
  else if array_has_property (Room_toPropertyKey room) (State.linkSelection s)
  then s
  else
    let s1 :=
      State.with_link (State.linkMode s) (State.linkSelection s ++ [room])
        (State.linkingDOMElements s ++ [el]) s in
    match State.linkSelection s1 with
    | [room0; room1] =>
        let '(aperture, s2) := createApertureBetween room0 room1 None s1 in
        disableLinkMode (createDomAperture aperture s2)
    | _ => s1
    end.

Definition linkClickBanner `{rt : Runtime} (side : string) (s : State.t)
  : State.t :=
  if negb (State.linkMode s) then s
  else
    match State.linkSelection s with
    | [room0] =>
        let '(aperture, s1) := createGroundedAperture room0 side None s in
        disableLinkMode (createDomAperture aperture s1)
    | _ => s
    end.

(** ** js/ui/JsonEditor.js *)

(** Whether turning parsed JSON into text throws a TypeError.  An object
    is turned into text by the [toString] it has: an own property of that
    name, which parsed JSON never makes a function, hides the inherited
    one, [valueOf] gives no primitive either, and ToPrimitive throws.  An
    array joins the texts of its elements. *)
Fixpoint text_throws (v : jsval) : bool :=
  match v with
  | VObj props => JsMap.has "toString" props
  | VArr items => existsb text_throws items
  | _ => false
  end.

(** [Number(v)] on parsed JSON; [None] is the TypeError.  An object gives
    the text [object Object], which is no number.  An array goes through
    its text: no element gives the empty text, one element gives that
    element's text, and two or more give a text with a comma, which is no
    number.  A number survives the way through its own text. *)
Fixpoint Number_ `{rt : Runtime} (v : jsval) : option number :=
  match v with
  | VUndef => Some NaN
  | VNull => Some (Fin 0)
  | VBool b => Some (if b then Fin 1 else Fin 0)
  | VNum n => Some n
  | VStr s => Some (StringToNumber s)
  | VObj _ => if text_throws v then None else Some NaN
  | VArr items =>
      if text_throws v then None
      else
        match items with
        | [] => Some (Fin 0)
        | [x] =>
            match x with
            | VUndef | VNull => Some (Fin 0)
            | VBool _ | VObj _ => Some NaN
            | VNum n => Some n
            | VStr s => Some (StringToNumber s)
            | VArr _ => Number_ x
            end
        | _ :: _ :: _ => Some NaN
        end
  end.

Definition with_area (area : number) (ap : Aperture.t) : Aperture.t :=
  Aperture.mk (Aperture.id ap) area (Aperture.grounded ap)
    (Aperture.rooms ap) (Aperture.ui ap).

Definition with_data (data : string) (r : Room.t) : Room.t :=
  Room.mk (Room.id r) (Room.label r) data (Room.ui r).

Definition with_label (label : string) (r : Room.t) : Room.t :=
  Room.mk (Room.id r) label (Room.data r) (Room.ui r).

(** The blur handler [makeLabelEditable(label, room)] installs on the label
    of a room: [room.label = label.textContent], whatever the text is.  The
    room is the one registered under [id]. *)
Definition label_blur (id textContent : string) (s : State.t) : State.t :=
  match JsMap.get id (State.rooms s) with
  | Some r => State.with_rooms (JsMap.set id (with_label textContent r)) s
  | None => s
  end.

(** [check_aperture()]: its body has no await, so it runs to its end inside
    the call. *)
Definition check_aperture `{rt : Runtime} (s : State.t) : State.t :=
  let obj := safeParseJSON (State.jsonEditor (State.ui s)) VNull in
  if truthy (field "area" obj)
  then State.with_jsonError None s
  else State.with_jsonError (Some "Area of aperture not defined") s.

(** [onChange()].  For a room, [check_room()] only starts a request to the
    validation service; its answer arrives later and is not modelled.  For
    an aperture, [State.apertures.get(id)] is read before [Number(obj.area)]
    is called; when that throws the assignment does not happen, and the
    function being async, the error rejects its promise and nothing is
    thrown at the caller. *)
Definition onChange `{rt : Runtime} (s : State.t) : State.t :=
  match State.selected s with
  | None => s
  | Some id =>
      let txt := State.jsonEditor (State.ui s) in
      match JsMap.get id (State.rooms s) with
      | Some room =>
          State.with_rooms (JsMap.set id (with_data txt room)) s
      | None =>
          match JsMap.get id (State.apertures s) with
          | Some ap =>
              let s1 := check_aperture s in
              let obj := safeParseJSON txt VNull in
              if truthy (field "area" obj)
              then
                match Number_ (field "area" obj) with
                | Some area =>
                    State.with_apertures (JsMap.set id (with_area area ap)) s1
                | None => s1
                end
              else s1
          | None => s
          end
      end
  end.

(** The user types: the textarea takes the text, then the input event runs
    [onChange]. *)
Definition type_text `{rt : Runtime} (txt : string) (s : State.t) : State.t :=
  onChange (State.with_jsonEditor txt s).

Definition showForAperture `{rt : Runtime} (ap : Aperture.t) (s : State.t)
  : State.t :=
  check_aperture
    (State.with_jsonEditor
       (JSON_stringify (VObj [("area", VNum (Aperture.area ap))]))
       (State.with_jsonEditorContainer true s)).

(** ** js/managers/SelectionManager.js *)

Definition clearSelection (s : State.t) : State.t :=
  State.with_jsonEditorContainer false (State.with_selected None s).

Definition selectElement (el : string) (s : State.t) : State.t :=
  State.with_selected (Some el) (clearSelection s).

(** The click handler [createDomAperture] gives an aperture's element. *)
Definition click_aperture `{rt : Runtime} (id : string) (s : State.t)
  : State.t :=
  let s1 := selectElement id s in
  match JsMap.get id (State.apertures s1) with
  | Some aperture => showForAperture aperture s1
  | None => s1
  end.

(** ** js/managers/DragResizeManager.js *)

(** What the handlers read from a mouse event. *)
Record MouseEvent : Type := mkMouseEvent { clientX : Qc; clientY : Qc }.

(** The fields of the manager; an element is known by its data-id. *)
Record DragResizeManager : Type := mkDragResize {
  dragging : option string;
  resizing : option string;
  offsetX : Qc;
  offsetY : Qc;
  throttledRender : Throttle
}.

Definition new_DragResizeManager : DragResizeManager :=
  mkDragResize None None 0 0 throttle.

(** *** Number::toString and parseInt (ECMA-262), for [parseInt(n + "px")] *)

(** The [e] with [10^e <= x < 10^(e+1)], for [0 < x]. *)
Fixpoint adjust_log10 (fuel : nat) (x : Qc) (g : Z) : Z :=
  match fuel with
  | O => g
  | S fuel' =>
      if bool_decide (pow10 (g + 1) ≤ x) then adjust_log10 fuel' x (g + 1)
      else if bool_decide (pow10 g ≤ x) then g
      else adjust_log10 fuel' x (g - 1)
  end.

Definition floor_log10 (x : Qc) : Z :=
  adjust_log10 4 x (floor_log2 (this x) * 1233 / 4096).

(** The digits [s] and the exponent [n] of [Number::toString(x)] for a
    binary64 number [0 < x]: the fewest digits [k] for which
    [s * 10^(n - k)] rounds to [x] and, of two such [s], the closer one. *)
Definition digits_with (x : Qc) (n : Z) (k : Z) : option Z :=
  let scale := pow10 (n - k) in
  let lo := Qfloor (this (x / scale)) in
  let fits (s : Z) : bool :=
    bool_decide (10 ^ (k - 1) ≤ s < 10 ^ k)%Z
    && bool_decide (round64 (Qc_of_Z s * scale) = x) in
  let below := x - Qc_of_Z lo * scale in
  let above := Qc_of_Z (lo + 1) * scale - x in
  match fits lo, fits (lo + 1)%Z with
  | true, true =>
      if bool_decide (below < above) then Some lo
      else if bool_decide (above < below) then Some (lo + 1)%Z
      else if Z.even lo then Some lo else Some (lo + 1)%Z
  | true, false => Some lo
  | false, true => Some (lo + 1)%Z
  | false, false => None
  end.

Fixpoint shortest_digits (fuel : nat) (x : Qc) (n : Z) (k : Z) : Z * Z * Z :=
  match fuel with
  | O => (Qfloor (this (x / pow10 (n - k))), n, k)
  | S fuel' =>
      match digits_with x n k with
      | Some s => (s, n, k)
      | None => shortest_digits fuel' x n (k + 1)
      end
  end.

Definition Number_digits (x : Qc) : Z * Z * Z :=
  let e := floor_log10 x in
  if bool_decide (round64 (pow10 (e + 1)) = x) then (1, e + 2, 1)%Z
  else shortest_digits 17 x (e + 1) 1.

(** From 10^-6 up to 10^21, and for 0, the text of a number is a decimal
    numeral without an exponent. *)
Definition decimal_notation (q : Qc) : bool :=
  bool_decide (q = 0)
  || (bool_decide (pow10 (-6) ≤ q) && bool_decide (q < pow10 21))
  || (bool_decide (- pow10 21 < q) && bool_decide (q ≤ - pow10 (-6))).

(** [parseInt(left + "px", 10)] for the inline position [left] of an
    element, which reads back as it was written: the text of the number,
    then "px".  [parseInt] reads the sign and the digits in front.  In a
    decimal numeral these are the integer part of the number; in a text with
    an exponent, below 10^-6 and from 10^21 on, they are its first digit
    (1 for 1e-7px and for 1e+21px); the text 0.000001px of the binary64
    number next below 10^-6 gives 0. *)
Definition parseInt_px (q : Qc) : Qc :=
  if decimal_notation q then
    Qc_of_Z (Z.quot (Qnum (this q)) (Zpos (Qden (this q))))
  else
    let x := round64 (if bool_decide (0 ≤ q) then q else - q) in
    let '(s, n, k) := Number_digits x in
    let magnitude :=
      if bool_decide (k ≤ n ≤ 21)%Z then (s * 10 ^ (n - k))%Z
      else if bool_decide (0 < n ≤ 21)%Z then (s / 10 ^ (k - n))%Z
      else if bool_decide (-6 < n ≤ 0)%Z then 0%Z
      else (s / 10 ^ (k - 1))%Z in
    round64 (Qc_of_Z (if bool_decide (0 ≤ q) then magnitude else - magnitude)).

Definition update_element (id : string) (f : DomElement → DomElement)
    (doc : list DomElement) : list DomElement :=
  map (λ el, if bool_decide (dataset_id el = id) then f el else el) doc.

Definition set_style_position (left top : Qc) (el : DomElement) : DomElement :=
  mkElement (className el) (dataset_id el) left top (style_size el)
            (textContent el).

Definition set_style_size (width height : Qc) (el : DomElement) : DomElement :=
  mkElement (className el) (dataset_id el) (style_left el) (style_top el)
            (Some (BoxSize.mk width height)) (textContent el).

Definition with_ui_position (left top : Qc) (ap : Aperture.t) : Aperture.t :=
  Aperture.mk (Aperture.id ap) (Aperture.area ap) (Aperture.grounded ap)
    (Aperture.rooms ap) (ApertureUI.mk (Position.mk left top)).

Definition updateUIData (id : string) (left top : Qc) (s : State.t)
  : State.t :=
  let s1 :=
    match JsMap.get id (State.rooms s) with
    | Some room => State.with_rooms (JsMap.set id (setPosition left top room)) s
    | None => s
    end in
  match JsMap.get id (State.apertures s1) with
  | Some ap =>
      State.with_apertures (JsMap.set id (with_ui_position left top ap)) s1
  | None => s1
  end.

(** [Math.max(a, b)] *)
Definition Math_max (a b : Qc) : Qc := if bool_decide (a ≤ b) then b else a.

(** [this.throttledRender()] at time [now]; the boolean tells whether
    [renderer.update()] ran. *)
Definition call_throttledRender `{rt : Runtime} (now : Qc)
    (m : DragResizeManager) (s : State.t)
  : DragResizeManager * State.t * bool :=
  let '(t, ran) := throttled (Qc_of_Z 16) now (throttledRender m) in
  (mkDragResize (dragging m) (resizing m) (offsetX m) (offsetY m) t,
   if ran then ConnectionRenderer_update s else s,
   ran).

(** An element that is no longer on the canvas has no inline position and
    an empty rectangle. *)
Definition startDrag (el : string) (e : MouseEvent)
    (m : DragResizeManager) (s : State.t) : DragResizeManager :=
  if State.linkMode s then m
  else
    let node := querySelector el (State.canvas (State.ui s)) in
    let left := from_option (λ n, parseInt_px (style_left n)) 0 node in
    let top := from_option (λ n, parseInt_px (style_top n)) 0 node in
    mkDragResize (Some el) (resizing m)
      (clientX e - left) (clientY e - top) (throttledRender m).

Definition onDrag `{rt : Runtime} (e : MouseEvent) (now : Qc)
    (m : DragResizeManager) (s : State.t)
  : DragResizeManager * State.t * bool :=
  match dragging m with
  | None => (m, s, false)
  | Some el =>
      let left := clientX e - offsetX m in
      let top := clientY e - offsetY m in
      let s1 :=
        State.with_canvas (update_element el (set_style_position left top)) s in
      let s2 := updateUIData el left top s1 in
      call_throttledRender now m s2
  end.

Definition stopDrag (m : DragResizeManager) : DragResizeManager :=
  mkDragResize None (resizing m) (offsetX m) (offsetY m) (throttledRender m).

Definition startResize (el : string) (m : DragResizeManager)
  : DragResizeManager :=
  mkDragResize (dragging m) (Some el) (offsetX m) (offsetY m)
               (throttledRender m).

Definition onResize `{rt : Runtime} (e : MouseEvent) (now : Qc)
    (m : DragResizeManager) (s : State.t)
  : DragResizeManager * State.t * bool :=
  match resizing m with
  | None => (m, s, false)
  | Some el =>
      let node := querySelector el (State.canvas (State.ui s)) in
      let rect := from_option (λ n, (clientRect n).1) (Position.mk 0 0) node in
      let width := Math_max (Qc_of_Z 40) (clientX e - Position.left rect) in
      let height := Math_max (Qc_of_Z 40) (clientY e - Position.top rect) in
      let s1 :=
        State.with_canvas (update_element el (set_style_size width height)) s in
      let s2 :=
        match JsMap.get el (State.rooms s1) with
        | Some room =>
            State.with_rooms (JsMap.set el (setSize width height room)) s1
        | None => s1
        end in
      call_throttledRender now m s2
  end.

Definition stopResize (m : DragResizeManager) : DragResizeManager :=
  mkDragResize (dragging m) None (offsetX m) (offsetY m) (throttledRender m).

(** The handler calls a gesture consists of, each with the reading of
    performance.now() its throttled call takes. *)
Inductive HandlerCall : Type :=
  | OnDrag (e : MouseEvent) (now : Qc)
  | OnResize (e : MouseEvent) (now : Qc)
  | StopDrag
  | StopResize.

(** One handler call; the last component is the time of the renderer run it
    caused, if any. *)
Definition handle `{rt : Runtime} (c : HandlerCall)
    (m : DragResizeManager) (s : State.t)
  : DragResizeManager * State.t * option Qc :=
  match c with
  | OnDrag e now =>
      let '(m', s', ran) := onDrag e now m s in
      (m', s', if ran then Some now else None)
  | OnResize e now =>
      let '(m', s', ran) := onResize e now m s in
      (m', s', if ran then Some now else None)
  | StopDrag => (stopDrag m, s, None)
  | StopResize => (stopResize m, s, None)
  end.

(** A sequence of handler calls; the list collects the times of the renderer
    runs in order. *)
Fixpoint gesture `{rt : Runtime} (calls : list HandlerCall)
    (m : DragResizeManager) (s : State.t)
  : DragResizeManager * State.t * list Qc :=
  match calls with
  | [] => (m, s, [])
  | c :: rest =>
      let '(m1, s1, run) := handle c m s in
      let '(m2, s2, runs) := gesture rest m1 s1 in
      (m2, s2, option_list run ++ runs)
  end.

(** ** js/managers/LoadSaveManager.js *)

(** A downloaded or uploaded file. *)
Record File : Type := mkFile { name : string; text : string }.


Definition num (q : Qc) : jsval := VNum (Fin q).

Definition position_json (p : Position.t) : jsval :=
  VObj [("left", num (Position.left p)); ("top", num (Position.top p))].

Definition room_ui_json (ui : RoomUI.t) : jsval :=
  VObj [("position", position_json (RoomUI.position ui));
        ("size", VObj [("width", num (BoxSize.width (RoomUI.size ui)));
                       ("height", num (BoxSize.height (RoomUI.size ui)))])].

Definition aperture_ui_json (ui : ApertureUI.t) : jsval :=
  VObj [("position", position_json (ApertureUI.position ui))].

(** [getRoomLabel(roomId)]; [None] is the TypeError of reading [label] of
    undefined. *)
Definition getRoomLabel (roomId : option string) (s : State.t)
  : option string :=
  match roomId with
  | None => None
  | Some rid =>
      match JsMap.get rid (State.rooms s) with
      | Some room => Some (Room.label room)
      | None => None
      end
  end.

Definition room_filename (label : string) : string :=
  "room_" +:+ label +:+ ".json".

(** The body of [State.rooms.forEach] in [save]: downloads, [roomFiles] and
    [ui_data] so far. *)
Definition save_room
    (acc : list File * list (string * jsval) * list (string * jsval))
    (room : Room.t)
  : list File * list (string * jsval) * list (string * jsval) :=
  let '(downloads, roomFiles, ui_data) := acc in
  let label := Room.label room in
  let filename := room_filename label in
  (downloads ++ [mkFile filename (Room.data room)],
   Obj.write label (VStr filename) roomFiles,
   Obj.write label (room_ui_json (Room.ui room)) ui_data).

Definition descriptor (origin : string) (destination : jsval) (area : number)
  : jsval :=
  VObj [("origin", VStr origin); ("destination", destination);
        ("area", VNum area)].

(** The body of [State.apertures.forEach] in [save], over the apertures in
    iteration order; [None] is a TypeError thrown by [getRoomLabel]. *)
Fixpoint save_apertures (s : State.t) (aps : list Aperture.t)
    (aperturesList ui_aperture_data : list jsval)
  : option (list jsval * list jsval) :=
  match aps with
  | [] => Some (aperturesList, ui_aperture_data)
  | ap :: rest =>
      let rooms := Aperture.rooms ap in
      let ui_aperture_data := ui_aperture_data ++ [aperture_ui_json (Aperture.ui ap)] in
      if Aperture.grounded ap then
        match getRoomLabel (rooms !! 0%nat) s with
        | None => None
        | Some originRoom =>
            let destination :=
              match rooms !! 1%nat with
              | Some d => VStr d
              | None => VUndef
              end in
            save_apertures s rest
              (aperturesList ++ [descriptor originRoom destination (Aperture.area ap)])
              ui_aperture_data
        end
      else if bool_decide (length rooms = 2%nat) then
        match getRoomLabel (rooms !! 0%nat) s with
        | None => None
        | Some originRoom =>
            match getRoomLabel (rooms !! 1%nat) s with
            | None => None
            | Some destRoom =>
                save_apertures s rest
                  (aperturesList ++ [descriptor originRoom (VStr destRoom) (Aperture.area ap)])
                  ui_aperture_data
            end
        end
      else save_apertures s rest aperturesList ui_aperture_data
  end.

Definition master_document (roomFiles aperturesList ui_data : jsval) : jsval :=
  VObj [("rooms", roomFiles); ("apertures", aperturesList); ("ui", ui_data)].

(** What [save()] leaves behind: the files downloaded, and whether it
    returned or threw on the way. *)
Inductive SaveResult : Type :=
  | Saved (downloads : list File)
  | SaveThrew (downloads : list File).

(** The master document [save()] builds, when it gets that far. *)
Definition save_master (s : State.t) : option jsval :=
  let '(_, roomFiles, ui_data) :=
    fold_left save_room (JsMap.values (State.rooms s)) ([], [], []) in
  match save_apertures s (JsMap.values (State.apertures s)) [] [] with
  | None => None
  | Some (aperturesList, ui_aperture_data) =>
      let ui_data := Obj.write "apertures" (VArr ui_aperture_data) ui_data in
      Some (master_document (VObj roomFiles) (VArr aperturesList) (VObj ui_data))
  end.

Definition save `{rt : Runtime} (s : State.t) : SaveResult :=
  let '(downloads, _, _) :=
    fold_left save_room (JsMap.values (State.rooms s)) ([], [], []) in
  match save_master s with
  | None => SaveThrew downloads
  | Some master =>
      Saved (downloads ++ [mkFile "layout_master.json" (JSON_stringify master)])
  end.

(** [json?.rooms && json?.apertures] *)
Definition is_master (json : jsval) : bool :=
  truthy (field "rooms" json) && truthy (field "apertures" json).

(** [findMaster(files)]; [None] after the alert. *)
Fixpoint findMaster `{rt : Runtime} (files : list File) : option jsval :=
  match files with
  | [] => None
  | f :: rest =>
      let json := safeParseJSON (text f) VNull in
      if is_master json then Some json else findMaster rest
  end.

Definition reset (s : State.t) : State.t :=
  State.with_apertures (λ _, [])
    (State.with_rooms (λ _, []) (State.with_canvas (λ _, []) s)).

(** The text after the last "/", if there is one. *)
Fixpoint after_last_slash (s : string) : option string :=
  match s with
  | EmptyString => None
  | String c s' =>
      match after_last_slash s' with
      | Some t => Some t
      | None => if bool_decide (c = "/"%char) then Some s' else None
      end
  end.

(** [filename.substring(filename.lastIndexOf('/') + 1)] *)
Definition file_name_only (filename : string) : string :=
  default filename (after_last_slash filename).

(** How a run of a loop of [load] ends: normally, with a TypeError thrown in
    the given state, or outside what is modelled.  The last happens where
    JavaScript would go on with a value that is not of the shape [save]
    writes - a box without numbers, an area that is no number, a key that
    needs a number or an array turned into text - or with a prototype that
    was assigned to. *)
Inductive Run (A : Type) : Type :=
  | Ok (a : A)
  | Throws (s : State.t)
  | Unmodelled.
Global Arguments Ok {A} a.
Global Arguments Throws {A} s.
Global Arguments Unmodelled {A}.

Definition decode_num (v : jsval) : option Qc :=
  match v with
  | VNum (Fin q) => Some q
  | _ => None
  end.

Definition decode_position (v : jsval) : option Position.t :=
  match decode_num (field "left" v), decode_num (field "top" v) with
  | Some l, Some t => Some (Position.mk l t)
  | _, _ => None
  end.

Definition decode_size (v : jsval) : option BoxSize.t :=
  match decode_num (field "width" v), decode_num (field "height" v) with
  | Some w, Some h => Some (BoxSize.mk w h)
  | _, _ => None
  end.

Definition decode_room_ui (v : jsval) : option RoomUI.t :=
  match decode_position (field "position" v), decode_size (field "size" v) with
  | Some p, Some sz => Some (RoomUI.mk p sz)
  | _, _ => None
  end.

Definition decode_aperture_ui (v : jsval) : option ApertureUI.t :=
  match decode_position (field "position" v) with
  | Some p => Some (ApertureUI.mk p)
  | None => None
  end.

(** [hasUIData ? uiData[label] : null], as the override [createRoom] gets:
    [None] for a falsy value. *)
Definition roomUIData (uiData : jsval) (label : string)
  : Run (option RoomUI.t) :=
  match uiData with
  | VUndef | VNull => Ok None
  | VObj o =>
      match Obj.read o label with
      | Obj.Own v =>
          if truthy v then
            match decode_room_ui v with
            | Some ui => Ok (Some ui)
            | None => Unmodelled
            end
          else Ok None
      | Obj.Inherited => Unmodelled
      | Obj.Missing => Ok None
      end
  | _ => Unmodelled
  end.

(** Loop 1 of [load], over [Object.entries(roomData)]. *)
Fixpoint load_rooms `{rt : Runtime} (fileList : list File) (uiData : jsval)
    (entries : list (string * jsval)) (temp_rooms : list (string * Room.t))
    (s : State.t) : Run (list (string * Room.t) * State.t) :=
  match entries with
  | [] => Ok (temp_rooms, s)
  | (label, filename) :: rest =>
      match filename with
      | VStr filename =>
          let file_name_only := file_name_only filename in
          let matchingFile :=
            List.find (λ f, bool_decide (name f = file_name_only)) fileList in
          let text :=
            match matchingFile with
            | Some f => text f
            | None => "{}"
            end in
          match roomUIData uiData label with
          | Ok ui =>
              if bool_decide (label = "__proto__") then Unmodelled
              else
                let '(room, s1) :=
                  createRoom (mkRoomInit (Some label) (Some text) ui) s in
                let temp_rooms := JsMap.set label room temp_rooms in
                load_rooms fileList uiData rest temp_rooms (createDomRoom room s1)
          | Throws s' => Throws s'
          | Unmodelled => Unmodelled
          end
      | _ => Throws s
      end
  end.

(** The property key a descriptor field becomes in [temp_rooms[...]]. *)
Definition property_key (v : jsval) : option string :=
  match v with
  | VStr s => Some s
  | VUndef => Some "undefined"
  | VNull => Some "null"
  | VBool b => Some (if b then "true" else "false")
  | _ => None
  end.

(** The [area] argument a descriptor supplies; undefined and null both end
    as the default. *)
Definition decode_area (v : jsval) : option (option number) :=
  match v with
  | VUndef | VNull => Some None
  | VNum n => Some (Some n)
  | _ => None
  end.

(** [if (hasUIData) aperture.ui = uiData.apertures[i]], on the aperture just
    registered under [id]. *)
Definition assign_aperture_ui (uiData : jsval) (i : nat) (id : string)
    (aperture : Aperture.t) (s : State.t) : Run (Aperture.t * State.t) :=
  match uiData with
  | VUndef | VNull => Ok (aperture, s)
  | _ =>
      match field "apertures" uiData with
      | VArr uis =>
          match uis !! i with
          | Some v =>
              match decode_aperture_ui v with
              | Some ui =>
                  let aperture' :=
                    Aperture.mk (Aperture.id aperture) (Aperture.area aperture)
                      (Aperture.grounded aperture) (Aperture.rooms aperture) ui in
                  Ok (aperture', State.with_apertures (JsMap.set id aperture') s)
              | None => Unmodelled
              end
          | None => Unmodelled
          end
      | VUndef | VNull => Throws s
      | _ => Unmodelled
      end
  end.

(** Loop 2 of [load], over [apertureData.entries()] from index [i] on. *)
Fixpoint load_apertures `{rt : Runtime} (uiData : jsval) (i : nat)
    (apertureData : list jsval) (temp_rooms : list (string * Room.t))
    (s : State.t) : Run State.t :=
  match apertureData with
  | [] => Ok s
  | ap :: rest =>
      match ap with
      | VUndef | VNull => Throws s
      | _ =>
          match property_key (field "origin" ap),
                property_key (field "destination" ap) with
          | Some origin, Some destination =>
              match Obj.read temp_rooms origin, Obj.read temp_rooms destination with
              | Obj.Own roomA, Obj.Own roomB =>
                  match decode_area (field "area" ap) with
                  | Some area =>
                      let '(aperture, s1) :=
                        createApertureBetween roomA roomB area s in
                      match assign_aperture_ui uiData i (Aperture.id aperture)
                                               aperture s1 with
                      | Ok (aperture, s2) =>
                          load_apertures uiData (S i) rest temp_rooms
                            (createDomAperture aperture s2)
                      | Throws s' => Throws s'
                      | Unmodelled => Unmodelled
                      end
                  | None => Unmodelled
                  end
              | Obj.Own roomA, Obj.Missing =>
                  match field "destination" ap, decode_area (field "area" ap) with
                  | VStr side, Some area =>
                      let '(aperture, s1) :=
                        createGroundedAperture roomA side area s in
                      match assign_aperture_ui uiData i (Aperture.id aperture)
                                               aperture s1 with
                      | Ok (aperture, s2) =>
                          load_apertures uiData (S i) rest temp_rooms
                            (createDomAperture aperture s2)
                      | Throws s' => Throws s'
                      | Unmodelled => Unmodelled
                      end
                  | _, _ => Unmodelled
                  end
              | Obj.Missing, _ =>
                  load_apertures uiData (S i) rest temp_rooms s
              | _, _ =>
                  (* a built-in taken for a room: its [ui] is undefined *)
                  Throws (generateId s).2
              end
          | _, _ => Unmodelled
          end
      end
  end.

(** [Object.entries(roomData)] for the truthy value [findMaster] accepted. *)
Definition Object_entries (roomData : jsval) : option (list (string * jsval)) :=
  match roomData with
  | VObj o => Some o
  | VNum _ | VBool _ => Some []
  | VArr [] => Some []
  | _ => None
  end.

Inductive LoadResult : Type :=
  | Loaded (s : State.t)
  | MasterNotFound (notice : string) (s : State.t)
  | LoadThrew (s : State.t)
  | LoadUnmodelled.

Definition load `{rt : Runtime} (fileList : list File) (s : State.t) : LoadResult :=
  match findMaster fileList with
  | None => MasterNotFound "Master file not found." s
  | Some master =>
      let s0 := reset s in
      let roomData := field "rooms" master in
      let apertureData := field "apertures" master in
      let uiData := field "ui" master in
      match Object_entries roomData with
      | None => LoadUnmodelled
      | Some entries =>
          match load_rooms fileList uiData entries [] s0 with
          | Ok (temp_rooms, s1) =>
              match apertureData with
              | VArr descriptors =>
                  match load_apertures uiData 0 descriptors temp_rooms s1 with
                  | Ok s2 => Loaded s2
                  | Throws s' => LoadThrew s'
                  | Unmodelled => LoadUnmodelled
                  end
              | _ => LoadThrew s1
              end
          | Throws s' => LoadThrew s'
          | Unmodelled => LoadUnmodelled
          end
      end
  end.

(** ** The uploads [load] is followed on

    [load] is followed, to its return or to the TypeError that ends it, on
    every master document of the shape [save] writes, whatever its content:
    - [rooms] is an object without a key "__proto__" (or a number, a boolean
      or the empty array, which have no entries);
    - [ui] is absent, null, or an object that holds for every key of
      [rooms] a box of four finite numbers or a falsy value, or nothing
      where the key names no property every object inherits;
    - where [apertures] is an array, each of its elements is null, or has
      texts for [origin] and [destination], a number, null or nothing for
      [area] and - [ui] given - finds [ui.apertures] absent, null, or an
      array with a position of two finite numbers at the element's index. *)
Definition plain_box (uiData : jsval) (label : string) : bool :=
  match uiData with
  | VObj o =>
      match JsMap.get label o with
      | Some v => negb (truthy v) || bool_decide (is_Some (decode_room_ui v))
      | None => bool_decide (label ∉ Obj.Object_prototype_names)
      end
  | _ => true
  end.

Definition plain_position (uiData : jsval) (i : nat) : bool :=
  match uiData with
  | VObj _ =>
      match field "apertures" uiData with
      | VUndef | VNull => true
      | VArr uis =>
          match uis !! i with
          | Some v => bool_decide (is_Some (decode_aperture_ui v))
          | None => false
          end
      | _ => false
      end
  | _ => true
  end.

Definition plain_descriptor (uiData : jsval) (i : nat) (ap : jsval) : bool :=
  match ap with
  | VUndef | VNull => true
  | _ =>
      match field "origin" ap, field "destination" ap, field "area" ap with
      | VStr _, VStr _, (VUndef | VNull | VNum _) => plain_position uiData i
      | _, _, _ => false
      end
  end.

Fixpoint plain_descriptors (uiData : jsval) (i : nat) (aps : list jsval)
  : bool :=
  match aps with
  | [] => true
  | ap :: rest =>
      plain_descriptor uiData i ap && plain_descriptors uiData (S i) rest
  end.

Definition plain_master (master : jsval) : bool :=
  let uiData := field "ui" master in
  match uiData with
  | VUndef | VNull | VObj _ => true
  | _ => false
  end
  && match field "rooms" master with
     | VObj entries =>
         forallb (λ kv : string * jsval,
                    negb (bool_decide (kv.1 = "__proto__"))
                    && plain_box uiData kv.1)
                 entries
     | VNum _ | VBool _ | VArr [] => true
     | _ => false
     end
  && match field "apertures" master with
     | VArr descriptors => plain_descriptors uiData 0 descriptors
     | _ => true
     end.

(** The files of an upload: the master document [findMaster] takes is
    plain, or there is none. *)
Definition plain_upload `{rt : Runtime} (fileList : list File) : bool :=
  match findMaster fileList with
  | Some master => plain_master master
  | None => true
  end.

(** ** The round trip through save and load *)

(** What [JSON.parse(JSON.stringify(v))] gives for plain data [v]: a property
    whose value is undefined is left out, undefined in an array and a number
    that is not finite become null. *)
Fixpoint json_norm (v : jsval) : jsval :=
  match v with
  | VUndef => VNull
  | VNum (Fin _) => v
  | VNum _ => VNull
  | VArr items => VArr (map json_norm items)
  | VObj props =>
      VObj ((fix members (ps : list (string * jsval)) : list (string * jsval) :=
               match ps with
               | [] => []
               | (k, x) :: ps' =>
                   match x with
                   | VUndef => members ps'
                   | _ => (k, json_norm x) :: members ps'
                   end
               end) props)
  | _ => v
  end.







(** What the specification calls a master document: a [rooms] map and an
    [apertures] list. *)
Definition spec_master (json : jsval) : bool :=
  match field "rooms" json, field "apertures" json with
  | VObj _, VArr _ => true
  | _, _ => false
  end.


(** *** What is saved and what is loaded *)

Definition saved_file (r : Room.t) : File :=
  mkFile (room_filename (Room.label r)) (Room.data r).


Definition saved_position (ap : Aperture.t) : jsval :=
  aperture_ui_json (Aperture.ui ap).










(** The apertures [save] writes a descriptor for. *)
Definition described (ap : Aperture.t) : bool :=
  Aperture.grounded ap || bool_decide (length (Aperture.rooms ap) = 2%nat).

(** ** Runs of the throttled renderer *)

(** Successive times, each at least [delay] after the one before, the first
    at least [delay] after [prev]. *)
Fixpoint spaced (delay prev : Qc) (runs : list Qc) : Prop :=
  match runs with
  | [] => True
  | t :: rest => delay ≤ t - prev ∧ spaced delay t rest
  end.

(** ** js/managers/ResultsViewManager.js: the colour helpers *)

(** [parseInt(text, 16)]: white space at the front is skipped, then a sign
    and a [0x] are read if they are there, then the longest run of
    hexadecimal digits; [None] is NaN.  The value is exact, as it is in
    JavaScript for up to thirteen digits. *)
Definition read_sign (t : string) : bool * string :=
  match t with
  | String "-" u => (true, u)
  | String "+" u => (false, u)
  | _ => (false, t)
  end.

Definition strip_0x (t : string) : string :=
  match t with
  | String "0" (String c u) =>
      if bool_decide (c = "x"%char ∨ c = "X"%char) then u else t
  | _ => t
  end.

Definition parseInt_16 (text : string) : option Z :=
  let '(neg, t) := read_sign (skip_space text) in
  match read_digits 16 (strip_0x t) 0 0 with
  | (_, O, _) => None
  | (n, _, _) => Some (if neg : bool then - Z.of_N n else Z.of_N n)%Z
  end.

(** ToInt32, which the operators [>>] and [&] apply to their operands. *)
Definition ToInt32 (n : option Z) : Z :=
  match n with
  | None => 0
  | Some z => ((z + 2 ^ 31) `mod` 2 ^ 32 - 2 ^ 31)%Z
  end.

(** [text.slice(1)] *)
Definition slice_1 (text : string) : string :=
  match text with
  | String _ rest => rest
  | EmptyString => ""
  end.

Module Rgb.
Record t : Type := mk { r : Z; g : Z; b : Z }.
End Rgb.

Definition hexToRgb (hex : string) : Rgb.t :=
  let bigint := ToInt32 (parseInt_16 (slice_1 hex)) in
  Rgb.mk (Z.land (Z.shiftr bigint 16) 255)
         (Z.land (Z.shiftr bigint 8) 255)
         (Z.land bigint 255).

(** [Math.round]: the nearest integer, a half going up. *)
Definition Math_round (x : Qc) : Z := Qfloor (x + Q2Qc (1 # 2)).

(** [Math.round(a + (b - a) * t)] on one channel. *)
Definition interpolate_channel (a b : Z) (t : Qc) : Z :=
  Math_round (Qc_of_Z a + (Qc_of_Z b - Qc_of_Z a) * t).

(** The three numbers [interpolateColor] prints. *)
Definition interpolated (c1 c2 : string) (t : Qc) : Rgb.t :=
  let a := hexToRgb c1 in
  let b := hexToRgb c2 in
  Rgb.mk (interpolate_channel (Rgb.r a) (Rgb.r b) t)
         (interpolate_channel (Rgb.g a) (Rgb.g b) t)
         (interpolate_channel (Rgb.b a) (Rgb.b b) t).

(** The template literal of [interpolateColor], line breaks and indentation
    included. *)
Definition rgb_text (c : Rgb.t) : string :=
  let line_break := String (ascii_of_nat 10) EmptyString in
  "rgb(" +:+ line_break
  +:+ "        " +:+ pretty (Rgb.r c) +:+ "," +:+ line_break
  +:+ "        " +:+ pretty (Rgb.g c) +:+ "," +:+ line_break
  +:+ "        " +:+ pretty (Rgb.b c) +:+ line_break
  +:+ "    )".

Definition interpolateColor (c1 c2 : string) (t : Qc) : string :=
  rgb_text (interpolated c1 c2 t).

Definition Math_min (a b : Qc) : Qc := if bool_decide (a ≤ b) then a else b.

(** [Math.min(Math.max(x, 0), 1)]; [None] is NaN. *)
Definition clamp01 (x : number) : option Qc :=
  match x with
  | Fin q => Some (Math_min (Math_max q 0) 1)
  | PosInf => Some 1
  | NegInf => Some 0
  | NaN => None
  end.

(** What a colour lookup ends in: a colour, [undefined] (an index outside
    the list), or the TypeError of [hexToRgb(undefined)]. *)
Inductive Colour : Type :=
  | IsColour (c : string)
  | NoColour
  | ColourError.

(** [colors[k]] *)
Definition colour_at (colors : list string) (k : Z) : option string :=
  if bool_decide (0 ≤ k)%Z then colors !! Z.to_nat k else None.

(** [getColorFromGradient] for binary64 numbers [value], [min] and [max].
    A difference beyond the range of binary64 is an infinity; the quotient
    of two infinities is NaN, which [Math.max] and [Math.min] hand on, and
    with it [i >= n] is false, [colors[i]] is undefined and [hexToRgb]
    throws. *)
Definition getColorFromGradient (colors : list string) (value min max : Qc)
  : Colour :=
  if bool_decide (min = max) then
    from_option IsColour NoColour
      (colour_at colors (Z.of_nat (length colors) `div` 2))
  else
    match clamp01 (number_div (binary64 (value - min))
                                 (binary64 (max - min))) with
    | None => ColourError
    | Some t =>
        let n := (Z.of_nat (length colors) - 1)%Z in
        let scaled := round64 (t * Qc_of_Z n) in
        let i := Qfloor scaled in
        let frac := round64 (scaled - Qc_of_Z i) in
        if bool_decide (n ≤ i)%Z then
          from_option IsColour NoColour (colour_at colors n)
        else
          match colour_at colors i, colour_at colors (i + 1) with
          | Some c1, Some c2 => IsColour (interpolateColor c1 c2 frac)
          | _, _ => ColourError
          end
    end.

Definition gradients : list (string * list string) :=
  [ ("Rainbow",
     ["#00008b"; "#0000ff"; "#00ff00"; "#ffff00"; "#ff0000"; "#ffffff"]);
    ("Blue-Red", ["#0000ff"; "#ff0000"]);
    ("Black-White", ["#000000"; "#ffffff"]);
    ("Green-Yellow", ["#00ff00"; "#ffff00"]);
    ("Purple-Orange", ["#800080"; "#ffa500"]);
    ("Ironbow", ["#000000"; "#8b008b"; "#ffa500"; "#ffffff"]);
    ("Viridis",
     ["#440154"; "#482777"; "#3E4989"; "#31688E"; "#26828E"; "#1F9E89";
      "#35B779"; "#6CCE59"; "#B4DE2C"; "#FDE725"]) ].

(** [gradients[name] || ["#808080"]]; [None] where the name is that of a
    built-in every object inherits, which is truthy and no list. *)
Definition getGradientColors (name : string) : option (list string) :=
  match Obj.read gradients name with
  | Obj.Own colors => Some colors
  | Obj.Missing => Some ["#808080"]
  | Obj.Inherited => None
  end.

Fixpoint all_hex_digits (s : string) : bool :=
  match s with
  | EmptyString => true
  | String d rest =>
      bool_decide (is_Some (digit_value 16 d)) && all_hex_digits rest
  end.

(** A colour written as [#] and six hexadecimal digits. *)
Definition is_hex_colour (c : string) : bool :=
  match c with
  | String "#" digits =>
      bool_decide (String.length digits = 6%nat) && all_hex_digits digits
  | _ => false
  end.


(** ** js/interfaces/TransportPathDeductionInterface.js

    The class has a [getRoomLabel] of its own, with the body of the one in
    LoadSaveManager. *)

Definition path_entry (origin : string) (destination : jsval) (id : string)
  : jsval :=
  VObj [("origin", VStr origin); ("destination", destination);
        ("id", VStr id)].

(** The body of [State.apertures.forEach] in [path_input], over the
    apertures in iteration order; [None] is a TypeError thrown by
    [getRoomLabel]. *)
Fixpoint path_input_from (s : State.t) (aps : list Aperture.t)
    (aperture_data : list jsval) : option (list jsval) :=
  match aps with
  | [] => Some aperture_data
  | ap :: rest =>
      let rooms := Aperture.rooms ap in
      if Aperture.grounded ap then
        match getRoomLabel (rooms !! 0%nat) s with
        | None => None
        | Some originRoom =>
            let destination :=
              match rooms !! 1%nat with
              | Some d => VStr d
              | None => VUndef
              end in
            path_input_from s rest
              (aperture_data
               ++ [path_entry originRoom destination (Aperture.id ap)])
        end
      else if bool_decide (length rooms = 2%nat) then
        match getRoomLabel (rooms !! 0%nat) s with
        | None => None
        | Some originRoom =>
            match getRoomLabel (rooms !! 1%nat) s with
            | None => None
            | Some destRoom =>
                path_input_from s rest
                  (aperture_data
                   ++ [path_entry originRoom (VStr destRoom) (Aperture.id ap)])
            end
        end
      else path_input_from s rest aperture_data
  end.

Definition path_input (s : State.t) : option (list jsval) :=
  path_input_from s (JsMap.values (State.apertures s)) [].

(** ** What [save] and [path_input] need of an aperture

    The first entry of a grounded aperture, and both entries of an aperture
    with two, are looked up in the room registry. *)
Definition writable (s : State.t) (ap : Aperture.t) : bool :=
  let rooms := Aperture.rooms ap in
  if Aperture.grounded ap then
    bool_decide (is_Some (getRoomLabel (rooms !! 0%nat) s))
  else if bool_decide (length rooms = 2%nat) then
    bool_decide (is_Some (getRoomLabel (rooms !! 0%nat) s))
    && bool_decide (is_Some (getRoomLabel (rooms !! 1%nat) s))
  else true.

(** Two entries that name the same origin and the same destination. *)
Definition same_ends (p d : jsval) : Prop :=
  field "origin" p = field "origin" d
  ∧ field "destination" p = field "destination" d.


(** ** Texts without a "/" *)
Definition slash_free (s : string) : Prop :=
  ∀ a b : string, s ≠ a +:+ "/" +:+ b.


(** ** Invariants of the registries *)

(** What laying out rooms and apertures has no business with: the
    selection, link mode, the modes, the events sent and the editor. *)
Definition session (s : State.t)
  : option string * bool * list Room.t * list string * bool * bool
    * list string * string * bool * option string :=
  (State.selected s, State.linkMode s, State.linkSelection s,
   State.linkingDOMElements s, State.resultsViewMode s,
   State.transportPathMode s, State.dispatched s,
   State.jsonEditor (State.ui s), State.jsonEditorContainer (State.ui s),
   State.jsonError (State.ui s)).

(** Every room and every aperture is registered under its own [id]. *)
Definition keyed (s : State.t) : Prop :=
  Forall (λ kv, Room.id kv.2 = kv.1) (State.rooms s)
  ∧ Forall (λ kv, Aperture.id kv.2 = kv.1) (State.apertures s).

Definition registered (id : string) (s : State.t) : Prop :=
  is_Some (JsMap.get id (State.rooms s)).

(** One call of a manager, of the editor or of a DOM helper, with whatever
    arguments, other than [createAperture(data)], which nothing in the
    repository calls; a load that returned or threw. *)
Inductive manager_step `{rt : Runtime} : State.t → State.t → Prop :=
  | step_createRoom init s :
      manager_step s (createRoom init s).2
  | step_removeRoom id s :
      manager_step s (removeRoom id s)
  | step_createApertureBetween roomA roomB area s :
      manager_step s (createApertureBetween roomA roomB area s).2
  | step_createGroundedAperture roomA side area s :
      manager_step s (createGroundedAperture roomA side area s).2
  | step_removeAperture id s :
      manager_step s (removeAperture id s)
  | step_createDomRoom room s :
      manager_step s (createDomRoom room s)
  | step_createDomAperture aperture s :
      manager_step s (createDomAperture aperture s)
  | step_update s :
      manager_step s (ConnectionRenderer_update s)
  | step_enableLinkMode s :
      manager_step s (enableLinkMode s)
  | step_disableLinkMode s :
      manager_step s (disableLinkMode s)
  | step_linkRoom room el s :
      manager_step s (linkRoom room el s)
  | step_linkClickBanner side s :
      manager_step s (linkClickBanner side s)
  | step_clearSelection s :
      manager_step s (clearSelection s)
  | step_selectElement el s :
      manager_step s (selectElement el s)
  | step_click_aperture id s :
      manager_step s (click_aperture id s)
  | step_type_text txt s :
      manager_step s (type_text txt s)
  | step_label_blur id textContent s :
      manager_step s (label_blur id textContent s)
  | step_onDrag e now m s :
      manager_step s (onDrag e now m s).1.2
  | step_onResize e now m s :
      manager_step s (onResize e now m s).1.2
  | step_reset s :
      manager_step s (reset s)
  | step_load fileList s s' :
      load fileList s = Loaded s' ∨ load fileList s = LoadThrew s' →
      manager_step s s'.

(** What [load] keeps of the state [s0] it started from, and what it builds:
    the session of [s0], registries keyed by identifier, and apertures
    [save] can write. *)
Definition rebuilt (s0 s : State.t) : Prop :=
  session s = session s0
  ∧ keyed s
  ∧ Forall (λ ap, writable s ap = true) (JsMap.values (State.apertures s)).

(** An aperture as the managers make it: two entries, the first a registered
    room, the second a registered room or, for a grounded aperture, a side
    that is no room's identifier. *)
Definition attached (s : State.t) (ap : Aperture.t) : bool :=
  match Aperture.rooms ap with
  | [a; b] =>
      bool_decide (registered a s)
      && (if Aperture.grounded ap then negb (bool_decide (registered b s))
          else bool_decide (registered b s))
  | _ => false
  end.


(** ** js/managers/DragResizeManager.js: [attach]

    The mousedown handler [attach(el)] installs on an element; [on_handle]
    tells whether the target of the event carries the class
    [resize-handle]. *)
Definition mousedown (on_handle : bool) (el : string) (e : MouseEvent)
    (m : DragResizeManager) (s : State.t) : DragResizeManager :=
  if on_handle then startResize el m else startDrag el e m s.


(** ** js/ui/JsonEditor.js: rooms

    [showForRoom(room)] and [clear()].  [check_room()] only starts a request
    to the validation service; its answer arrives later and is not
    modelled. *)
Definition showForRoom (room : Room.t) (s : State.t) : State.t :=
  State.with_jsonEditor (Room.data room)
    (State.with_jsonEditorContainer true s).

Definition JsonEditor_clear (s : State.t) : State.t :=
  State.with_jsonEditorContainer false (State.with_jsonEditor "" s).

(** The click handler [createDomRoom] gives a room's element, for a click
    that is not on the resize handle. *)
Definition click_room `{rt : Runtime} (room : Room.t) (s : State.t)
  : State.t :=
  linkRoom room (Room.id room)
    (showForRoom room (selectElement (Room.id room) s)).

(** The files a call of [save()] has downloaded, whether it returned or
    threw. *)
Definition downloads_of (r : SaveResult) : list File :=
  match r with
  | Saved downloads => downloads
  | SaveThrew downloads => downloads
  end.

(** ** js/ui/Toolbar.js

    The inline display of the link-mode banner after the toolbar's two
    listeners have seen the events sent to the document, in order: shown
    ([block]), hidden ([none]), or never set. *)
Definition Toolbar_banner (events : list string) : option bool :=
  fold_left
    (λ shown event,
       if bool_decide (event = "ui:linkModeOn") then Some true
       else if bool_decide (event = "ui:linkModeOff") then Some false
       else shown)
    events None.

(** The banner tells link mode: it is shown when link mode is on and
    hidden, or still untouched, when it is off. *)
Definition banner_tells_link_mode (s : State.t) : Prop :=
  match Toolbar_banner (State.dispatched s) with
  | Some shown => shown = State.linkMode s
  | None => State.linkMode s = false
  end.


(** ** The page: js/main.js and the two view managers

    [State.transportPathMode] and [State.resultsViewMode] are written by
    the view managers only. *)
Definition with_transportPathMode (mode : bool) (s : State.t) : State.t :=
  State.mk (State.rooms s) (State.apertures s) (State.selected s)
    (State.linkMode s) (State.linkSelection s) (State.linkingDOMElements s)
    (State.resultsViewMode s) mode (State.ui s) (State.dispatched s)
    (State.uuid_calls s).

Definition with_resultsViewMode (mode : bool) (s : State.t) : State.t :=
  State.mk (State.rooms s) (State.apertures s) (State.selected s)
    (State.linkMode s) (State.linkSelection s) (State.linkingDOMElements s)
    mode (State.transportPathMode s) (State.ui s) (State.dispatched s)
    (State.uuid_calls s).

(** What the handlers of main.js work on beside [State]: the one
    DragResizeManager and the list of transport paths, with its inline
    display (shown with [flex], hidden with [none], or never set) and one
    tile per path.  The results panel and the colours of the rooms are
    written by the callbacks of the results service and cleared by [end()];
    they are left out.

    [startDrag] adds [onDrag] to the mousemove listeners of the document
    and [startResize] adds [onResize], each once until [stopDrag] and
    [stopResize] remove them at mouseup: [onDrag] listens exactly while
    [dragging] is set, [onResize] while [resizing] is.  Where both listen,
    [drag_listens_first] tells which was added first. *)
Record Page : Type := mkPage {
  state : State.t;
  dragResizeManager : DragResizeManager;
  tranportPathList_display : option bool;
  tranportPathList_tiles : list (list string);
  drag_listens_first : bool
}.

Definition with_state (f : State.t → State.t) (p : Page) : Page :=
  mkPage (f (state p)) (dragResizeManager p) (tranportPathList_display p)
    (tranportPathList_tiles p) (drag_listens_first p).

Definition with_dragResizeManager (m : DragResizeManager) (p : Page) : Page :=
  mkPage (state p) m (tranportPathList_display p) (tranportPathList_tiles p)
    (drag_listens_first p).

(** The order of the two listeners once the press that finds the manager
    [m] has been handled: a listener that is there was added before
    whatever this press adds. *)
Definition with_listeners_after (m : DragResizeManager) (p : Page) : Page :=
  mkPage (state p) (dragResizeManager p) (tranportPathList_display p)
    (tranportPathList_tiles p)
    match dragging m, resizing m with
    | Some _, None => true
    | None, Some _ => false
    | _, _ => drag_listens_first p
    end.

(** The page when the script has run: nothing registered, no display
    set. *)
Definition Page_initial : Page :=
  mkPage State.initial new_DragResizeManager None [] true.

(** How a handler ends: it returned, or a TypeError left it where it
    was. *)
Inductive Outcome : Type :=
  | Returned (p : Page)
  | Thrown (p : Page).

Definition page_of (o : Outcome) : Page :=
  match o with
  | Returned p => p
  | Thrown p => p
  end.

(** *** js/managers/TransportPathManager.js *)

(** [start()], up to the request it sends: the second component is the
    [apertures] of the request to the deduction service, if one is sent.
    [path_input()] runs inside the call, so its TypeError is thrown by
    [start()], after the mode is set and the list is shown. *)
Definition TransportPathManager_start (p : Page)
  : Outcome * option (list jsval) :=
  if State.transportPathMode (state p) then (Returned p, None)
  else
    let p1 :=
      mkPage (with_transportPathMode true (state p)) (dragResizeManager p)
        (Some true) (tranportPathList_tiles p) (drag_listens_first p) in
    match path_input (state p1) with
    | Some apertures => (Returned p1, Some apertures)
    | None => (Thrown p1, None)
    end.

(** The callback of [start()], run when the service has answered with
    [paths]: one tile per path, whatever the mode is by then. *)
Definition paths_arrived (paths : list (list string)) (p : Page) : Page :=
  mkPage (state p) (dragResizeManager p) (tranportPathList_display p)
    (tranportPathList_tiles p ++ paths) (drag_listens_first p).

(** [end()]: [innerHTML = "Transport paths:"] leaves no tile. *)
Definition TransportPathManager_end (p : Page) : Page :=
  if negb (State.transportPathMode (state p)) then p
  else
    mkPage (with_transportPathMode false (state p)) (dragResizeManager p)
      (Some false) [] (drag_listens_first p).

(** *** js/managers/ResultsViewManager.js *)

(** [start(fileObject)], up to the request it sends; the callback that
    fills the results panel runs when the service has answered and is not
    modelled. *)
Definition ResultsViewManager_start (p : Page) : Page :=
  with_state (with_resultsViewMode true) p.

(** [end()], as far as [State] goes. *)
Definition ResultsViewManager_end (p : Page) : Page :=
  if negb (State.resultsViewMode (state p)) then p
  else with_state (with_resultsViewMode false) p.

(** *** js/main.js: the handlers *)

Inductive Side : Type := Front | Back | Left | Right.

Definition side_name (side : Side) : string :=
  match side with
  | Front => "Front"
  | Back => "Back"
  | Left => "Left"
  | Right => "Right"
  end.

(** What the user and the browser do to the page.  The three listeners on
    the controls of the results panel write colours, the legend and the
    species list only, none of which is part of the page here, and are no
    events. *)
Inductive UIEvent : Type :=
  | AddRoomClick
  | AddApertureClick
  | DeducePathsClick
  | SaveLayoutClick
  | FilesChosen (files : list File)
  | ResultsFileChosen
  | CanvasClick
  | KeyDown (key : string)
  | BannerClick (side : Side)
  | RoomClick (id : string) (on_handle : bool)
  | ApertureClick (id : string)
  | MouseDown (id : string) (on_handle : bool) (e : MouseEvent)
  | MouseMove (e : MouseEvent) (now later : Qc)
  | MouseUp
  | LabelBlur (id : string) (textContent : string)
  | EditorInput (value : string)
  | PathsArrived (paths : list (list string)).

(** The element with the given [data-id] and class on the canvas. *)
Definition element_on_canvas (id : string) (class : ElementClass)
    (s : State.t) : bool :=
  match querySelector id (State.canvas (State.ui s)) with
  | Some el => bool_decide (className el = class)
  | None => false
  end.

Definition set_textContent (text : string) (el : DomElement) : DomElement :=
  mkElement (className el) (dataset_id el) (style_left el) (style_top el)
    (style_size el) text.

(** The rooms picked for a link are the registered objects themselves, so
    what a handler writes to a room shows in [State.linkSelection] too: the
    model, which holds a copy there, takes the copy afresh from the registry
    (a room is registered under its own [id], and identifiers are taken not
    to repeat).  A picked room that is no longer registered stays as it
    is. *)
Definition relink (s : State.t) : State.t :=
  State.with_link (State.linkMode s)
    ((λ room,
        match JsMap.get (Room.id room) (State.rooms s) with
        | Some current =>
            if bool_decide (Room.id current = Room.id room) then current
            else room
        | None => room
        end) <$> State.linkSelection s)
    (State.linkingDOMElements s) s.

(** A move of the pointer while a drag and a resize are both under way:
    the two listeners run one after the other, in the order they were
    added. *)
Definition both_listeners `{rt : Runtime} (drag_first : bool)
    (e : MouseEvent) (now later : Qc) (m : DragResizeManager) (s : State.t)
  : DragResizeManager * State.t :=
  if drag_first then
    let '(m1, s1, _) := onDrag e now m s in
    let '(m2, s2, _) := onResize e later m1 s1 in
    (m2, s2)
  else
    let '(m1, s1, _) := onResize e now m s in
    let '(m2, s2, _) := onDrag e later m1 s1 in
    (m2, s2).

(** One event.  [None] where the event cannot happen on the page (a click
    on an element that is not there), where the model does not follow the
    page (an element whose room or aperture is not registered), or where
    [load] leaves the model, as it does not on a plain upload.  Of the
    mousemove listeners the first to run reads the clock at [now], the
    second, where there are two, at [later]. *)
Definition ui_step `{rt : Runtime} (event : UIEvent) (p : Page)
  : option Outcome :=
  match event with
  | AddRoomClick =>
      let p := with_state clearSelection p in
      let p := TransportPathManager_end p in
      let p := ResultsViewManager_end p in
      let '(room, s) := createRoom (mkRoomInit None None None) (state p) in
      Some (Returned (with_state (λ _, createDomRoom room s) p))
  | AddApertureClick =>
      let p := with_state clearSelection p in
      let p := TransportPathManager_end p in
      let p := ResultsViewManager_end p in
      Some (Returned (with_state enableLinkMode p))
  | DeducePathsClick =>
      let p := with_state clearSelection p in
      let p := with_state disableLinkMode p in
      match (TransportPathManager_start p).1 with
      | Returned p => Some (Returned (ResultsViewManager_end p))
      | Thrown p => Some (Thrown p)
      end
  | SaveLayoutClick =>
      match save (state p) with
      | Saved _ => Some (Returned p)
      | SaveThrew _ => Some (Thrown p)
      end
  | FilesChosen files =>
      match load files (state p) with
      | MasterNotFound _ s =>
          Some (Returned (with_state (λ _, ConnectionRenderer_update s) p))
      | Loaded s =>
          Some (Returned (with_state (λ _, ConnectionRenderer_update s) p))
      | LoadThrew s => Some (Thrown (with_state (λ _, s) p))
      | LoadUnmodelled => None
      end
  | ResultsFileChosen =>
      let p := with_state clearSelection p in
      let p := with_state disableLinkMode p in
      let p := TransportPathManager_end p in
      Some (Returned (ResultsViewManager_start p))
  | CanvasClick =>
      let p := with_state clearSelection p in
      let p := with_state disableLinkMode p in
      Some (Returned (TransportPathManager_end p))
  | KeyDown key =>
      if bool_decide (key = "Escape") then
        let p := with_state clearSelection p in
        let p := with_state disableLinkMode p in
        let p := TransportPathManager_end p in
        Some (Returned (ResultsViewManager_end p))
      else Some (Returned p)
  | BannerClick side =>
      Some (Returned (with_state (linkClickBanner (side_name side)) p))
  | RoomClick id on_handle =>
      if element_on_canvas id RoomElement (state p) then
        match JsMap.get id (State.rooms (state p)) with
        | Some room =>
            if bool_decide (Room.id room = id) then
              if on_handle then Some (Returned p)
              else Some (Returned (with_state (click_room room) p))
            else None
        | None => None
        end
      else None
  | ApertureClick id =>
      if element_on_canvas id ApertureElement (state p) then
        match JsMap.get id (State.apertures (state p)) with
        | Some _ => Some (Returned (with_state (click_aperture id) p))
        | None => None
        end
      else None
  | MouseDown id on_handle e =>
      if element_on_canvas id RoomElement (state p)
         || (element_on_canvas id ApertureElement (state p) && negb on_handle)
      then
        Some (Returned
                (with_dragResizeManager
                   (mousedown on_handle id e (dragResizeManager p) (state p))
                   (with_listeners_after (dragResizeManager p) p)))
      else None
  | MouseMove e now later =>
      let m := dragResizeManager p in
      match dragging m, resizing m with
      | Some _, Some _ =>
          let '(m', s') :=
            both_listeners (drag_listens_first p) e now later m (state p) in
          Some (Returned
                  (with_dragResizeManager m' (with_state (λ _, relink s') p)))
      | Some _, None =>
          let '(m', s', _) := onDrag e now m (state p) in
          Some (Returned
                  (with_dragResizeManager m' (with_state (λ _, relink s') p)))
      | None, Some _ =>
          let '(m', s', _) := onResize e now m (state p) in
          Some (Returned
                  (with_dragResizeManager m' (with_state (λ _, relink s') p)))
      | None, None => Some (Returned p)
      end
  | MouseUp =>
      Some (Returned
              (with_dragResizeManager
                 (stopResize (stopDrag (dragResizeManager p))) p))
  | LabelBlur id textContent =>
      if element_on_canvas id RoomElement (state p) then
        match JsMap.get id (State.rooms (state p)) with
        | Some _ =>
            Some (Returned
                    (with_state
                       (λ s, relink
                               (label_blur id textContent
                                  (State.with_canvas
                                     (update_element id
                                        (set_textContent textContent)) s)))
                       p))
        | None => None
        end
      else None
  | EditorInput value =>
      Some (Returned (with_state (λ s, relink (type_text value s)) p))
  | PathsArrived paths => Some (Returned (paths_arrived paths p))
  end.

(** The page after a sequence of events, each of them one that [may]
    happen on the page it meets; [None] when one may not or has no step.  A
    handler that throws leaves the page as it is at the throw, and the next
    event finds it so. *)
Fixpoint ui_run `{rt : Runtime} (may : UIEvent → Page → bool)
    (events : list UIEvent) (p : Page) : option Page :=
  match events with
  | [] => Some p
  | event :: rest =>
      if may event p then
        match ui_step event p with
        | Some o => ui_run may rest (page_of o)
        | None => None
        end
      else None
  end.

Definition any_event : UIEvent → Page → bool := λ _ _, true.




(** The three mode flags. *)
Definition modes (s : State.t) : bool * bool * bool :=
  (State.linkMode s, State.transportPathMode s, State.resultsViewMode s).

(** At most one of link mode, transport path mode and results view mode is
    on. *)
Definition one_mode (s : State.t) : Prop :=
  (State.linkMode s = false ∧ State.transportPathMode s = false)
  ∨ (State.linkMode s = false ∧ State.resultsViewMode s = false)
  ∨ (State.transportPathMode s = false ∧ State.resultsViewMode s = false).


(** The list of transport paths is shown in transport path mode and hidden,
    or still untouched, out of it. *)
Definition list_follows_mode (p : Page) : Prop :=
  match tranportPathList_display p with
  | Some shown => shown = State.transportPathMode (state p)
  | None => State.transportPathMode (state p) = false
  end.

(** *** Elements and registries *)





(** ** A runtime to run the model on

    Identifiers are numbered, the default room text is the empty object,
    [JSON.stringify] is a printer for the values of this development and
    [JSON.parse] knows the documents of the examples by their printed text
    (and rejects every other text, none of which is JSON where the examples
    use it).  An element's rectangle is its inline box, 24 by 24 for an
    aperture, on a canvas at the corner of the viewport. *)
Module Example.
Definition quote : string := String (ascii_of_nat 34) EmptyString.
Definition newline : string := String (ascii_of_nat 10) EmptyString.
Definition quoted (s : string) : string := quote +:+ s +:+ quote.

Fixpoint join (sep : string) (l : list string) : string :=
  match l with
  | [] => ""
  | [x] => x
  | x :: l' => x +:+ sep +:+ join sep l'
  end.

Definition decimal_places (d : Z) : option nat :=
  List.find (λ k, bool_decide ((10 ^ Z.of_nat k) `mod` d = 0)%Z) (seq 0 25).

Fixpoint zeros (n : nat) : string :=
  match n with
  | O => ""
  | S n' => "0" +:+ zeros n'
  end.

(** A number as JSON prints it when it has a finite decimal expansion, as
    every binary64 value has. *)
Definition print_number (q : Qc) : string :=
  let n := Qnum (this q) in
  let d := Zpos (Qden (this q)) in
  match decimal_places d with
  | Some (S k') =>
      let k := S k' in
      let scaled := (Z.abs n * 10 ^ Z.of_nat k / d)%Z in
      let int := (scaled / 10 ^ Z.of_nat k)%Z in
      let frac := pretty (scaled `mod` 10 ^ Z.of_nat k)%Z in
      (if bool_decide (n < 0)%Z then "-" else "")
      +:+ pretty int +:+ "." +:+ zeros (k - String.length frac) +:+ frac
  | _ => pretty (n / d)%Z
  end.

Fixpoint stringify (indent : string) (v : jsval) : string :=
  let inner := indent +:+ "  " in
  let sep := "," +:+ newline +:+ inner in
  match v with
  | VUndef | VNull => "null"
  | VBool b => if b then "true" else "false"
  | VNum (Fin q) => print_number q
  | VNum _ => "null"
  | VStr s => quoted s
  | VArr [] => "[]"
  | VArr items =>
      "[" +:+ newline +:+ inner
      +:+ join sep (map (stringify inner) items)
      +:+ newline +:+ indent +:+ "]"
  | VObj props =>
      let members :=
        (fix members (ps : list (string * jsval)) : list string :=
           match ps with
           | [] => []
           | (k, x) :: ps' =>
               match x with
               | VUndef => members ps'
               | _ => (quoted k +:+ ": " +:+ stringify inner x) :: members ps'
               end
           end) props in
      match members with
      | [] => "{}"
      | _ =>
          "{" +:+ newline +:+ inner +:+ join sep members
          +:+ newline +:+ indent +:+ "}"
      end
  end.

Definition parse_among (documents : list jsval) (text : string)
  : option jsval :=
  json_norm <$>
    List.find (λ d, bool_decide (stringify "" d = text)) documents.

Definition rect (el : DomElement) : Position.t * BoxSize.t :=
  (Position.mk (style_left el) (style_top el),
   default (BoxSize.mk (Qc_of_Z 24) (Qc_of_Z 24)) (style_size el)).

Definition runtime (documents : list jsval) : Runtime := {|
  randomUUID n := "uuid-" +:+ pretty n;
  defaultRoomText := "{}";
  JSON_parse := parse_among documents;
  JSON_stringify := stringify "";
  clientRect := rect;
  canvasRect := Position.mk 0 0
|}.

(** The layout of the examples: a kitchen and a hall, an aperture between
    them, and an aperture from the kitchen to the front. *)
Definition bare : Runtime := runtime [].

Definition two_rooms : Room.t * Room.t * State.t :=
  let '(kitchen, s) :=
    createRoom (rt := bare)
      (mkRoomInit (Some "Kitchen") (Some "kitchen notes") None)
      State.initial in
  let s := createDomRoom kitchen s in
  let '(hall, s) :=
    createRoom (rt := bare)
      (mkRoomInit (Some "Hall") (Some "hall notes")
         (Some (RoomUI.mk (Position.mk (Qc_of_Z 300) (Qc_of_Z 50))
                          (BoxSize.mk (Qc_of_Z 101) (Qc_of_Z 90)))))
      s in
  (kitchen, hall, createDomRoom hall s).

Definition kitchen : Room.t := two_rooms.1.1.
Definition hall : Room.t := two_rooms.1.2.

(** Where [createApertureBetween] puts the aperture between the two. *)
Definition between : Position.t :=
  Position.mk
    (f64_div
       (f64_add
          (f64_add (f64_add (Qc_of_Z 50) (f64_div (Qc_of_Z 120) 2))
                   (Qc_of_Z 300))
          (f64_div (Qc_of_Z 101) 2))
       2)
    (f64_div
       (f64_add
          (f64_add (f64_add (Qc_of_Z 50) (f64_div (Qc_of_Z 90) 2))
                   (Qc_of_Z 50))
          (f64_div (Qc_of_Z 90) 2))
       2).

(** Link mode entered and the kitchen clicked. *)
Definition kitchen_selected (s : State.t) : State.t :=
  linkRoom (rt := bare) kitchen (Room.id kitchen) (enableLinkMode s).

Definition linked_rooms : State.t :=
  linkRoom (rt := bare) hall (Room.id hall) (kitchen_selected two_rooms.2).

Definition layout : State.t :=
  linkClickBanner (rt := bare) "Front" (kitchen_selected linked_rooms).

(** Two rooms whose boxes are not on whole pixels: they are 40.2 and 40.6
    wide and start at 10.1 and at 20.3, in binary64. *)
Definition tenths (n : Z) : Qc := round64 (Qc_of_Z n / Qc_of_Z 10).



(** A layout cleared - as [load] clears it - while the kitchen was picked in
    link mode, and the link then completed to the front: the new aperture
    names a room that is registered no more. *)
Definition stale : State.t :=
  linkClickBanner (rt := bare) "Front" (reset (kitchen_selected two_rooms.2)).

(** Scenario 9 of the specification: two linked rooms, the first removed. *)
Definition kitchen_removed : State.t := removeRoom (Room.id kitchen) linked_rooms.

(** A room whose label was edited to the empty text. *)
Definition unnamed : State.t :=
  let '(pantry, s) :=
    createRoom (rt := bare)
      (mkRoomInit (Some "Pantry") (Some "pantry notes") None)
      State.initial in
  label_blur (Room.id pantry) "" (createDomRoom pantry s).

(** What the editor shows for an aperture of area 1, and an edit of it. *)
Definition area_one : jsval := VObj [("area", VNum (Fin 1))].
Definition area_wide : jsval := VObj [("area", VStr "wide")].
Definition area_object : jsval :=
  VObj [("area", VObj [("toString", VNum (Fin 1))])].

(** An upload that has [rooms] and [apertures], the latter no list. *)
Definition no_apertures_list : jsval :=
  VObj [("rooms", VObj []); ("apertures", VNum (Fin 1))].

Definition documents : list jsval :=
  [ VObj []; area_one; area_wide; no_apertures_list;
    default VNull (save_master layout);
    default VNull (save_master unnamed);
    area_object ].

Definition rt : Runtime := runtime documents.

(** The aperture between the two rooms, clicked. *)
Definition aperture_clicked : State.t :=
  click_aperture (rt := rt) "uuid-2" layout.

(** A drag of the kitchen: pressed at (60, 60), moved at 100 ms and again
    at 105 ms, released. *)
Definition press : DragResizeManager :=
  startDrag "uuid-0" (mkMouseEvent (Qc_of_Z 60) (Qc_of_Z 60))
            new_DragResizeManager layout.

Definition drag : list HandlerCall :=
  [ OnDrag (mkMouseEvent (Qc_of_Z 70) (Qc_of_Z 70)) (Qc_of_Z 100);
    OnDrag (mkMouseEvent (Qc_of_Z 80) (Qc_of_Z 80)) (Qc_of_Z 105);
    StopDrag ].
End Example.

(** ** A visit to the page

    Two rooms are added and linked, the first gets an aperture to the front
    and is moved, the paths are asked for, and the layout is saved and
    loaded again.  In the second visit a layout is loaded while a room is
    picked for a link. *)
Module Visit.
Definition pointer (x y : Z) : MouseEvent :=
  mkMouseEvent (Qc_of_Z x) (Qc_of_Z y).

Definition building : list UIEvent :=
  [ AddRoomClick; AddRoomClick;
    AddApertureClick; RoomClick "uuid-0" false; RoomClick "uuid-1" false;
    AddApertureClick; RoomClick "uuid-0" false; BannerClick Front ].

Definition built : Page :=
  default Page_initial
    (ui_run (rt := Example.bare) any_event building Page_initial).

Definition files : list File :=
  downloads_of (save (rt := Example.bare) (state built)).

Definition rt : Runtime :=
  Example.runtime [default VNull (save_master (state built))].

Definition events : list UIEvent :=
  building
  ++ [ MouseDown "uuid-0" false (pointer 60 60);
       MouseMove (pointer 80 70) (Qc_of_Z 100) (Qc_of_Z 100);
       MouseUp;
       DeducePathsClick;
       PathsArrived [["uuid-2"; "uuid-3"]];
       SaveLayoutClick;
       FilesChosen files;
       KeyDown "Escape" ].

Definition stranded : list UIEvent :=
  [ AddRoomClick; AddApertureClick; RoomClick "uuid-0" false;
    FilesChosen files; BannerClick Front; ResultsFileChosen ].
End Visit.

(** * Properties *)

(** ** Rounding *)

Lemma pow2_pos e : (0 < pow2 e)%Q.
Proof. by apply Qpower_0_lt. Qed.

Lemma pow2_add a b : (pow2 (a + b) == pow2 a * pow2 b)%Q.
Proof. unfold pow2. by apply Qpower_plus. Qed.

Lemma pow2_le a b : (a ≤ b)%Z → (pow2 a <= pow2 b)%Q.
Proof. intros. by apply Qpower_le_compat_l. Qed.

Lemma pow2_lt a b : (a < b)%Z → (pow2 a < pow2 b)%Q.
Proof. intros. by apply Qpower_lt_compat_l. Qed.

Lemma pow2_lt_inv a b : (pow2 a < pow2 b)%Q → (a < b)%Z.
Proof. intros. by apply (Qpower_lt_compat_l_inv 2). Qed.

Lemma pow2_Z n : (0 ≤ n)%Z → (pow2 n == inject_Z (2 ^ n))%Q.
Proof. intros. unfold pow2. by rewrite Zpower_Qpower. Qed.

Lemma pow2_opp n : (pow2 (- n) == / pow2 n)%Q.
Proof. apply Qpower_opp. Qed.

(** [2 ^ floor_log2 x <= x < 2 ^ (floor_log2 x + 1)] *)
Lemma floor_log2_spec (x : Q) :
  (0 < x)%Q →
  (pow2 (floor_log2 x) <= x)%Q ∧ (x < pow2 (floor_log2 x + 1))%Q.
Proof.
  intros Hx. destruct x as [n d]. 
  assert (0 < n)%Z as Hn.
  { unfold Qlt in Hx. simpl in Hx. lia. }
  unfold floor_log2. cbn [Qnum Qden].
  set (ln := Z.log2 n). set (ld := Z.log2 (Z.pos d)).
  destruct (Z.log2_spec n Hn) as [Hn1 Hn2]. fold ln in Hn1, Hn2.
  destruct (Z.log2_spec (Z.pos d) (Pos2Z.is_pos d)) as [Hd1 Hd2].
  fold ld in Hd1, Hd2.
  assert (0 ≤ ln)%Z as Hln by apply Z.log2_nonneg.
  assert (0 ≤ ld)%Z as Hld by apply Z.log2_nonneg.
  assert ((n # d) == inject_Z n / inject_Z (Z.pos d))%Q as Hnd.
  { by rewrite Qmake_Qdiv. }
  assert (0 < inject_Z (Z.pos d))%Q as Hdpos.
  { rewrite <- (Zlt_Qlt 0). lia. }
  assert (n # d < pow2 (ln - ld + 1))%Q as Hup.
  { rewrite Hnd. apply Qlt_shift_div_r; [done|].
    apply Qlt_le_trans with (inject_Z (2 ^ (ln + 1))).
    - rewrite <- Zlt_Qlt. replace (ln + 1)%Z with (Z.succ ln) by lia. done.
    - replace (ln + 1)%Z with ((ln - ld + 1) + ld)%Z at 1 by lia.
      rewrite <- pow2_Z by lia. rewrite pow2_add.
      apply Qmult_le_l; [apply pow2_pos|].
      rewrite pow2_Z by lia. rewrite <- Zle_Qle. done. }
  assert (pow2 (ln - ld - 1) <= n # d)%Q as Hlo.
  { rewrite Hnd. apply Qle_shift_div_l; [done|].
    apply Qle_trans with (inject_Z (2 ^ ln)).
    - replace ln with ((ln - ld - 1) + (ld + 1))%Z at 2 by lia.
      rewrite <- (pow2_Z (_ + _)) by lia. rewrite pow2_add.
      apply Qmult_le_l; [apply pow2_pos|].
      rewrite pow2_Z by lia. rewrite <- Zle_Qle.
      replace (ld + 1)%Z with (Z.succ ld) by lia. lia.
    - rewrite <- Zle_Qle. done. }
  destruct (Qle_bool (pow2 (ln - ld)) (n # d)) eqn:Hb.
  - apply Qle_bool_iff in Hb. done.
  - split; [done|]. replace (ln - ld - 1 + 1)%Z with (ln - ld)%Z by lia.
    apply Qnot_le_lt. intros H. apply Qle_bool_iff in H. congruence.
Qed.

Lemma round_half_even_Z (t : Q) (z : Z) :
  (t == inject_Z z)%Q → round_half_even t = z.
Proof.
  intros Ht. unfold round_half_even.
  assert (Qfloor t = z) as ->.
  { rewrite (Qfloor_comp _ _ Ht). apply Qfloor_Z. }
  assert ((t - inject_Z z ?= 1 # 2)%Q = Lt) as ->; [|done].
  rewrite <- Qlt_alt. rewrite Ht. by ring_simplify.
Qed.

Lemma Q2Qc_this (q : Q) (x : Qc) : (q == this x)%Q → Q2Qc q = x.
Proof.
  intros H. apply Qc_is_canon. simpl. by rewrite Qred_correct.
Qed.

(** A number with at most 53 significant bits, not below the subnormal
    grid, is a binary64 number. *)
Lemma round64_exact (x : Qc) (m k : Z) :
  (this x == inject_Z m * pow2 k)%Q →
  (Z.abs m < 2 ^ 53)%Z → (-1074 ≤ k)%Z →
  round64 x = x.
Proof.
  intros Hx Hm Hk. unfold round64, round_magnitude.
  set (a := Qabs (this x)).
  set (u := (Z.max (floor_log2 a) (-1022) - 52)%Z).
  assert (a == inject_Z (Z.abs m) * pow2 k)%Q as Ha.
  { unfold a. rewrite Hx, Qabs_Qmult.
    change (Qabs (inject_Z m)) with (inject_Z (Z.abs m)).
    by rewrite (Qabs_pos (pow2 k)) by apply Qlt_le_weak, pow2_pos. }
  destruct (decide (m = 0%Z)) as [->|Hm0].
  { assert (this x == 0)%Q as Hx0 by (rewrite Hx; apply Qmult_0_l).
    assert (a / pow2 u == inject_Z 0)%Q as Ht.
    { unfold a. rewrite (Qabs_wd _ _ Hx0). apply Qmult_0_l. }
    rewrite (round_half_even_Z _ _ Ht). apply Q2Qc_this.
    etrans; [|symmetry; exact Hx0].
    case_match; [apply Qmult_0_l|]. rewrite Qmult_0_l. done. }
  assert (u ≤ k)%Z as Huk.
  { assert (0 < a)%Q as Hapos.
    { rewrite Ha. apply Qmult_lt_0_compat; [|apply pow2_pos].
      rewrite <- (Zlt_Qlt 0). lia. }
    destruct (floor_log2_spec a Hapos) as [Hlo _].
    assert (a < pow2 (53 + k))%Q as Hup.
    { rewrite Ha, pow2_add. apply Qmult_lt_compat_r; [apply pow2_pos|].
      rewrite pow2_Z by lia. by rewrite <- Zlt_Qlt. }
    pose proof (pow2_lt_inv _ _ (Qle_lt_trans _ _ _ Hlo Hup)). unfold u. lia. }
  set (z := (Z.abs m * 2 ^ (k - u))%Z).
  assert (a / pow2 u == inject_Z z)%Q as Ht.
  { unfold z. rewrite inject_Z_mult, <- pow2_Z by lia.
    rewrite Ha. replace (k - u)%Z with (k + - u)%Z by lia.
    rewrite pow2_add, pow2_opp. unfold Qdiv. ring. }
  rewrite (round_half_even_Z _ _ Ht).
  assert (inject_Z z * pow2 u == a)%Q as Hr.
  { rewrite <- Ht. field. apply Qnot_eq_sym, Qlt_not_eq, pow2_pos. }
  apply Q2Qc_this. destruct (Qle_bool 0 (this x)) eqn:Hs.
  - apply Qle_bool_iff in Hs. rewrite Hr. unfold a. by apply Qabs_pos.
  - assert (this x <= 0)%Q as Hneg.
    { apply Qlt_le_weak, Qnot_le_lt. intros H. apply Qle_bool_iff in H.
      congruence. }
    rewrite Hr. unfold a. rewrite (Qabs_neg _ Hneg). ring.
Qed.

(** *** Rounding is monotone *)

Lemma round_half_even_bounds (t : Q) :
  (Qfloor t ≤ round_half_even t ≤ Qfloor t + 1)%Z.
Proof.
  unfold round_half_even. destruct (_ ?= _)%Q; [destruct (Z.even _)|..]; lia.
Qed.

Lemma round_half_even_mono (t1 t2 : Q) :
  (t1 <= t2)%Q → (round_half_even t1 ≤ round_half_even t2)%Z.
Proof.
  intros Hle. pose proof (Qfloor_resp_le _ _ Hle) as Hf.
  destruct (decide (Qfloor t1 = Qfloor t2)) as [Heq|Hne].
  - unfold round_half_even. rewrite <- Heq.
    destruct (Qcompare_spec (t1 - inject_Z (Qfloor t1)) (1 # 2)) as [H1|H1|H1];
      destruct (Qcompare_spec (t2 - inject_Z (Qfloor t1)) (1 # 2)) as [H2|H2|H2];
      try destruct (Z.even _); try lia.
    all: exfalso; lra.
  - pose proof (round_half_even_bounds t1). pose proof (round_half_even_bounds t2).
    lia.
Qed.

Lemma round_half_even_le (t : Q) (z : Z) :
  (t <= inject_Z z)%Q → (round_half_even t ≤ z)%Z.
Proof.
  intros H%round_half_even_mono.
  by rewrite (round_half_even_Z (inject_Z z) z) in H.
Qed.

Lemma round_half_even_ge (t : Q) (z : Z) :
  (inject_Z z <= t)%Q → (z ≤ round_half_even t)%Z.
Proof.
  intros H%round_half_even_mono.
  by rewrite (round_half_even_Z (inject_Z z) z) in H.
Qed.

Lemma round_half_even_comp (t1 t2 : Q) :
  (t1 == t2)%Q → round_half_even t1 = round_half_even t2.
Proof.
  intros H. apply Z.le_antisymm; apply round_half_even_mono; rewrite H;
    apply Qle_refl.
Qed.

Lemma floor_log2_unique (x : Q) (e : Z) :
  (pow2 e <= x)%Q → (x < pow2 (e + 1))%Q → floor_log2 x = e.
Proof.
  intros Hlo Hhi.
  assert (0 < x)%Q as Hx by (eapply Qlt_le_trans; [apply (pow2_pos e)|done]).
  destruct (floor_log2_spec x Hx) as [Hlo' Hhi'].
  pose proof (pow2_lt_inv _ _ (Qle_lt_trans _ _ _ Hlo Hhi')).
  pose proof (pow2_lt_inv _ _ (Qle_lt_trans _ _ _ Hlo' Hhi)).
  lia.
Qed.

Lemma floor_log2_comp (x y : Q) :
  (0 < x)%Q → (x == y)%Q → floor_log2 x = floor_log2 y.
Proof.
  intros Hx Hxy. destruct (floor_log2_spec x Hx) as [Hlo Hhi].
  symmetry. apply floor_log2_unique; by rewrite <- Hxy.
Qed.

Lemma floor_log2_mono (x y : Q) :
  (0 < x)%Q → (x <= y)%Q → (floor_log2 x ≤ floor_log2 y)%Z.
Proof.
  intros Hx Hxy.
  assert (0 < y)%Q as Hy by (eapply Qlt_le_trans; done).
  destruct (floor_log2_spec x Hx) as [Hlo _].
  destruct (floor_log2_spec y Hy) as [_ Hhi].
  pose proof (pow2_lt_inv _ _
                (Qle_lt_trans _ _ _ (Qle_trans _ _ _ Hlo Hxy) Hhi)).
  lia.
Qed.

Lemma round_magnitude_comp (a b : Q) :
  (0 < a)%Q → (a == b)%Q → (round_magnitude a == round_magnitude b)%Q.
Proof.
  intros Ha Hab. unfold round_magnitude.
  rewrite (floor_log2_comp a b Ha Hab).
  set (u := pow2 _).
  by rewrite (round_half_even_comp (a / u) (b / u)) by (by rewrite Hab).
Qed.

Lemma round_magnitude_0 (a : Q) : (a == 0)%Q → (round_magnitude a == 0)%Q.
Proof.
  intros Ha. unfold round_magnitude. set (u := pow2 _).
  rewrite (round_half_even_Z (a / u) 0).
  - apply Qmult_0_l.
  - rewrite Ha. apply Qmult_0_l.
Qed.

Lemma round_magnitude_nonneg (a : Q) : (0 <= a)%Q → (0 <= round_magnitude a)%Q.
Proof.
  intros Ha. unfold round_magnitude. set (u := pow2 _).
  assert (0 < u)%Q as Hu by apply pow2_pos.
  apply Qmult_le_0_compat; [|by apply Qlt_le_weak].
  rewrite <- (Zle_Qle 0). apply round_half_even_ge.
  apply Qle_shift_div_l; [done|]. by rewrite Qmult_0_l.
Qed.

Lemma round_magnitude_mono (a b : Q) :
  (0 < a)%Q → (a <= b)%Q → (round_magnitude a <= round_magnitude b)%Q.
Proof.
  intros Ha Hab.
  assert (0 < b)%Q as Hb by (eapply Qlt_le_trans; done).
  pose proof (floor_log2_mono a b Ha Hab) as He.
  destruct (floor_log2_spec a Ha) as [_ Hahi].
  destruct (floor_log2_spec b Hb) as [Hblo _].
  unfold round_magnitude.
  set (ea := floor_log2 a) in *. set (eb := floor_log2 b) in *.
  destruct (decide (Z.max ea (-1022) = Z.max eb (-1022))) as [Heq|Hne].
  - rewrite <- Heq. set (u := pow2 _).
    assert (0 < u)%Q as Hu by apply pow2_pos.
    apply Qmult_le_compat_r; [|by apply Qlt_le_weak].
    rewrite <- Zle_Qle. apply round_half_even_mono.
    apply Qmult_le_compat_r; [done|]. by apply Qlt_le_weak, Qinv_lt_0_compat.
  - set (E := Z.max ea (-1022)) in *.
    assert (Z.max eb (-1022) = eb ∧ E + 1 ≤ eb)%Z as [-> HE] by lia.
    apply Qle_trans with (pow2 (E + 1)).
    + assert (round_half_even (a / pow2 (E - 52)) ≤ 2 ^ 53)%Z as Hr.
      { apply round_half_even_le. apply Qle_shift_div_r; [apply pow2_pos|].
        rewrite <- pow2_Z by lia. rewrite <- pow2_add.
        apply Qlt_le_weak, (Qlt_le_trans _ _ _ Hahi), pow2_le. lia. }
      apply Qle_trans with (inject_Z (2 ^ 53) * pow2 (E - 52))%Q.
      * apply Qmult_le_compat_r; [by rewrite <- Zle_Qle|].
        apply Qlt_le_weak, pow2_pos.
      * rewrite <- pow2_Z by lia. rewrite <- pow2_add.
        apply pow2_le. lia.
    + assert (2 ^ 52 ≤ round_half_even (b / pow2 (eb - 52)))%Z as Hr.
      { apply round_half_even_ge. apply Qle_shift_div_l; [apply pow2_pos|].
        rewrite <- pow2_Z by lia. rewrite <- pow2_add.
        replace (52 + (eb - 52))%Z with eb by lia. done. }
      apply Qle_trans with (pow2 eb); [apply pow2_le; lia|].
      apply Qle_trans with (inject_Z (2 ^ 52) * pow2 (eb - 52))%Q.
      * rewrite <- pow2_Z by lia. rewrite <- pow2_add.
        apply pow2_le. lia.
      * apply Qmult_le_compat_r; [by rewrite <- Zle_Qle|].
        apply Qlt_le_weak, pow2_pos.
Qed.

Lemma round64_nonneg_this (x : Qc) :
  (0 <= this x)%Q → (this (round64 x) == round_magnitude (this x))%Q.
Proof.
  intros Hx. unfold round64. cbv zeta.
  assert (Qle_bool 0 (this x) = true) as -> by by apply Qle_bool_iff.
  simpl. rewrite Qred_correct.
  destruct (Qle_lt_or_eq _ _ Hx) as [Hpos|Hzero].
  - apply round_magnitude_comp.
    + by rewrite Qabs_pos.
    + by apply Qabs_pos.
  - rewrite !round_magnitude_0; [done|by symmetry|].
    rewrite <- Hzero. done.
Qed.

Lemma round64_neg_this (x : Qc) :
  (this x < 0)%Q → (this (round64 x) == - round_magnitude (- this x))%Q.
Proof.
  intros Hx. unfold round64. cbv zeta.
  assert (Qle_bool 0 (this x) = false) as ->.
  { destruct (Qle_bool 0 (this x)) eqn:E; [|done].
    apply Qle_bool_iff in E. lra. }
  simpl. rewrite Qred_correct. apply Qopp_comp.
  apply round_magnitude_comp.
  - rewrite Qabs_neg by lra. lra.
  - apply Qabs_neg. lra.
Qed.

Lemma round64_nonneg (x : Qc) : 0 ≤ x → 0 ≤ round64 x.
Proof.
  unfold Qcle. intros Hx. rewrite round64_nonneg_this by done.
  by apply round_magnitude_nonneg.
Qed.

Lemma round64_nonpos (x : Qc) : x ≤ 0 → round64 x ≤ 0.
Proof.
  unfold Qcle. intros Hx. change (this 0) with 0%Q in *.
  destruct (Qle_lt_or_eq _ _ Hx) as [Hneg|Hzero].
  - rewrite round64_neg_this by done.
    assert (0 <= round_magnitude (- this x))%Q
      by (apply round_magnitude_nonneg; lra).
    lra.
  - rewrite round64_nonneg_this by (rewrite Hzero; apply Qle_refl).
    rewrite round_magnitude_0 by done. apply Qle_refl.
Qed.

Lemma round64_mono (x y : Qc) : x ≤ y → round64 x ≤ round64 y.
Proof.
  intros Hxy. destruct (Qclt_le_dec x 0) as [Hx|Hx].
  - destruct (Qclt_le_dec y 0) as [Hy|Hy].
    + unfold Qcle, Qclt in *. change (this 0) with 0%Q in *.
      rewrite !round64_neg_this by done.
      assert (round_magnitude (- this y) <= round_magnitude (- this x))%Q
        by (apply round_magnitude_mono; lra).
      lra.
    + apply Qcle_trans with 0; [apply round64_nonpos|by apply round64_nonneg].
      by apply Qclt_le_weak.
  - assert (0 ≤ y) as Hy by (by eapply Qcle_trans).
    unfold Qcle in *. change (this 0) with 0%Q in *.
    rewrite !round64_nonneg_this by done.
    destruct (Qle_lt_or_eq _ _ Hx) as [Hpos|Hzero].
    + by apply round_magnitude_mono.
    + rewrite (round_magnitude_0 (this x)) by done.
      by apply round_magnitude_nonneg.
Qed.

(** *** Binary fractions *)






(** ** Maps *)
Section JsMap_facts.
Context {V : Type}.
Implicit Types (m : JsMap.t V) (k : string) (v : V).

Lemma get_set_eq k v m : JsMap.get k (JsMap.set k v m) = Some v.
Proof.
  induction m as [|[k' v'] m IH]; simpl.
  - by rewrite bool_decide_eq_true_2.
  - case_bool_decide; simpl.
    + by rewrite bool_decide_eq_true_2.
    + by rewrite bool_decide_eq_false_2.
Qed.

Lemma get_set_ne k k' v m :
  k ≠ k' → JsMap.get k' (JsMap.set k v m) = JsMap.get k' m.
Proof.
  intros Hne. induction m as [|[k0 v0] m IH]; simpl.
  - by rewrite bool_decide_eq_false_2.
  - case_bool_decide as Hk; simpl.
    + subst k0. by rewrite !bool_decide_eq_false_2.
    + by rewrite IH.
Qed.

Lemma set_fresh k v m : JsMap.get k m = None → JsMap.set k v m = m ++ [(k, v)].
Proof.
  induction m as [|[k0 v0] m IH]; simpl; [done|].
  case_bool_decide; [done|]. intros Hm. by rewrite IH.
Qed.

Lemma get_None_keys k m : JsMap.get k m = None ↔ k ∉ JsMap.keys m.
Proof.
  unfold JsMap.keys. induction m as [|[k0 v0] m IH]; simpl.
  - split; [intros _; apply not_elem_of_nil | done].
  - rewrite not_elem_of_cons. case_bool_decide; simpl.
    + split; [done | intros [? _]; congruence].
    + rewrite IH. split; [intros ?; split; [congruence|done] | tauto].
Qed.


Lemma get_delete_eq k m : JsMap.get k (JsMap.delete k m) = None.
Proof.
  apply get_None_keys. unfold JsMap.keys, JsMap.delete.
  intros ([k' v] & -> & Hin)%list_elem_of_fmap.
  by apply list_elem_of_filter in Hin as [? _].
Qed.

Lemma get_delete_ne k k' m :
  k ≠ k' → JsMap.get k' (JsMap.delete k m) = JsMap.get k' m.
Proof.
  intros Hne. unfold JsMap.delete.
  induction m as [|[k0 v0] m IH]; [done|].
  rewrite filter_cons. simpl. case_decide as Hk; simpl.
  - by rewrite IH.
  - assert (k0 = k) as -> by (by destruct (decide (k0 = k))).
    by rewrite bool_decide_eq_false_2.
Qed.

Lemma delete_absent k m : JsMap.get k m = None → JsMap.delete k m = m.
Proof.
  unfold JsMap.delete. induction m as [|[k0 v0] m IH]; [done|].
  rewrite filter_cons. simpl.
  case_bool_decide as Hk; [done|]. intros Hm.
  rewrite decide_True by done. by rewrite IH.
Qed.

Lemma get_Some_elem k v m : JsMap.get k m = Some v → (k, v) ∈ m.
Proof.
  induction m as [|[k0 v0] m IH]; simpl; [done|].
  case_bool_decide.
  - intros [= ->]. subst. apply list_elem_of_here.
  - intros. apply list_elem_of_further. auto.
Qed.

Lemma get_map_values {W} (f : V → W) k m :
  JsMap.get k (map (λ kv, (kv.1, f kv.2)) m) = f <$> JsMap.get k m.
Proof.
  induction m as [|[k0 v0] m IH]; simpl; [done|]. by case_bool_decide.
Qed.
End JsMap_facts.

(** ** Removing rooms and apertures *)

Lemma strip_room_rooms id ap :
  Aperture.rooms (strip_room id ap) = filter (λ rid, rid ≠ id) (Aperture.rooms ap).
Proof. done. Qed.

Lemma filter_ne_absent (id : string) (l : list string) :
  id ∉ l → filter (λ rid, rid ≠ id) l = l.
Proof.
  induction l as [|x l IH]; [done|].
  rewrite not_elem_of_cons. intros [Hx Hl].
  rewrite filter_cons, decide_True by congruence. by rewrite IH.
Qed.

Lemma strip_room_absent id ap :
  id ∉ Aperture.rooms ap → strip_room id ap = ap.
Proof.
  intros Hid. destruct ap as [i a g r u]. unfold strip_room. simpl in *.
  by rewrite filter_ne_absent.
Qed.

Lemma map_strip_absent id (m : JsMap.t Aperture.t) :
  (∀ k ap, (k, ap) ∈ m → id ∉ Aperture.rooms ap) →
  map (λ kv, (kv.1, strip_room id kv.2)) m = m.
Proof.
  induction m as [|[k ap] m IH]; [done|]. intros Hm. simpl.
  rewrite strip_room_absent by (eapply Hm; apply list_elem_of_here).
  rewrite IH; [done|]. intros k' ap' Hin. eapply Hm.
  apply list_elem_of_further, Hin.
Qed.

(** C2.  [removeRoom(id)] takes [id] out of the [rooms] list of every
    aperture and the room [id] out of the registry, and changes nothing
    else: the apertures keep their keys and their order, each keeps its
    identity, area, grounded flag and position, every entry of a [rooms] list
    other than [id] stays, in place and as often as before, every other room
    is the one it was, and the rest of the state is untouched. *)
Theorem removeRoom_strips_only_id (s : State.t) (id : string) :
  let s' := removeRoom id s in
  JsMap.keys (State.apertures s') = JsMap.keys (State.apertures s)
  ∧ (∀ k ap, JsMap.get k (State.apertures s) = Some ap →
       ∃ ap', JsMap.get k (State.apertures s') = Some ap'
         ∧ (Aperture.rooms ap' = filter (λ rid, rid ≠ id) (Aperture.rooms ap))
         ∧ (id ∉ Aperture.rooms ap')
         ∧ (∀ rid, rid ≠ id →
              count_occ String.eq_dec (Aperture.rooms ap') rid =
              count_occ String.eq_dec (Aperture.rooms ap) rid)
         ∧ Aperture.rooms ap' `sublist_of` Aperture.rooms ap
         ∧ Aperture.id ap' = Aperture.id ap
         ∧ Aperture.area ap' = Aperture.area ap
         ∧ Aperture.grounded ap' = Aperture.grounded ap
         ∧ Aperture.ui ap' = Aperture.ui ap)
  ∧ (∀ k, JsMap.get k (State.apertures s') = None ↔
          JsMap.get k (State.apertures s) = None)
  ∧ JsMap.get id (State.rooms s') = None
  ∧ (∀ k, k ≠ id → JsMap.get k (State.rooms s') = JsMap.get k (State.rooms s))
  ∧ State.rooms s' `sublist_of` State.rooms s
  ∧ State.selected s' = State.selected s
  ∧ State.linkMode s' = State.linkMode s
  ∧ State.linkSelection s' = State.linkSelection s
  ∧ State.linkingDOMElements s' = State.linkingDOMElements s
  ∧ State.resultsViewMode s' = State.resultsViewMode s
  ∧ State.transportPathMode s' = State.transportPathMode s
  ∧ State.ui s' = State.ui s
  ∧ State.dispatched s' = State.dispatched s
  ∧ State.uuid_calls s' = State.uuid_calls s.
Proof.
  simpl. split_and!; try done.
  - unfold JsMap.keys. simpl. rewrite <- list_fmap_compose.
    by apply list_fmap_ext.
  - intros k ap Hget. simpl. rewrite get_map_values, Hget. simpl.
    eexists; split; [done|]. simpl. split_and!; try done.
    + intros [Hne _]%list_elem_of_filter. by apply Hne.
    + intros rid Hrid.
      induction (Aperture.rooms ap) as [|x l IH]; [done|].
      rewrite filter_cons. case_decide as Hx; simpl.
      * destruct (String.eq_dec x rid); by rewrite IH.
      * destruct (String.eq_dec x rid) as [->|]; [|done].
        exfalso. apply Hrid. by destruct (decide (rid = id)).
    + apply sublist_filter.
  - intros k. simpl. rewrite get_map_values.
    by destruct (JsMap.get k (State.apertures s)).
  - simpl. apply get_delete_eq.
  - intros k Hk. simpl. by apply get_delete_ne.
  - simpl. apply sublist_filter.
Qed.

(** C10, as the code has it.  For an identifier that is not in the aperture
    registry, [removeAperture] returns the state it got, whatever else the
    identifier names.  For an identifier that is not in the room registry
    and in no aperture's [rooms] list, [removeRoom] returns the state it
    got. *)
Theorem remove_absent_is_noop (s : State.t) (id : string) :
  (JsMap.get id (State.apertures s) = None → removeAperture id s = s)
  ∧ (JsMap.get id (State.rooms s) = None →
     Forall (λ ap, id ∉ Aperture.rooms ap) (JsMap.values (State.apertures s)) →
     removeRoom id s = s).
Proof.
  split.
  - intros Ha. destruct s. simpl in *.
    unfold removeAperture, State.with_apertures. simpl.
    by rewrite delete_absent.
  - intros Hr Hrefs.
    assert (∀ k ap, (k, ap) ∈ State.apertures s → id ∉ Aperture.rooms ap)
      as Hrefs'.
    { intros k ap Hin. eapply Forall_forall in Hrefs; [done|].
      by apply (list_elem_of_fmap_2 snd) in Hin. }
    clear Hrefs. destruct s. simpl in *.
    unfold removeRoom, State.with_rooms, State.with_apertures.
    simpl. by rewrite map_strip_absent, !delete_absent.
Qed.

(** ** Creating apertures *)

Lemma createApertureBetween_registers `{rt : Runtime} roomA roomB area s :
  let id := randomUUID (State.uuid_calls s) in
  let '(ap, s') := createApertureBetween roomA roomB area s in
  Aperture.id ap = id
  ∧ Aperture.grounded ap = false
  ∧ Aperture.rooms ap = [Room.id roomA; Room.id roomB]
  ∧ Aperture.area ap = default (Fin 1) area
  ∧ State.apertures s' = JsMap.set id ap (State.apertures s)
  ∧ State.rooms s' = State.rooms s
  ∧ State.uuid_calls s' = S (State.uuid_calls s).
Proof. done. Qed.

Lemma createGroundedAperture_registers `{rt : Runtime} roomA side area s :
  let id := randomUUID (State.uuid_calls s) in
  let '(ap, s') := createGroundedAperture roomA side area s in
  Aperture.id ap = id
  ∧ Aperture.grounded ap = true
  ∧ Aperture.rooms ap = [Room.id roomA; side]
  ∧ Aperture.area ap = default (Fin 1) area
  ∧ State.apertures s' = JsMap.set id ap (State.apertures s)
  ∧ State.rooms s' = State.rooms s
  ∧ State.uuid_calls s' = S (State.uuid_calls s).
Proof. done. Qed.


(** ** Link mode *)

Lemma Room_key_not_in_array {A} (room : Room.t) (arr : list A) :
  array_has_property (Room_toPropertyKey room) arr = false.
Proof. done. Qed.

Lemma linkRoom_second `{rt : Runtime} (s : State.t) (first second : Room.t)
    (el : string) :
  State.linkMode s = true →
  State.linkSelection s = [first] →
  let id := randomUUID (State.uuid_calls s) in
  let s' := linkRoom second el s in
  ∃ ap, State.apertures s' = JsMap.set id ap (State.apertures s)
    ∧ Aperture.id ap = id
    ∧ Aperture.grounded ap = false
    ∧ Aperture.rooms ap = [Room.id first; Room.id second]
    ∧ State.rooms s' = State.rooms s
    ∧ State.linkMode s' = false
    ∧ State.linkSelection s' = []
    ∧ State.linkingDOMElements s' = [].
Proof.
  intros Hmode Hsel. simpl. unfold linkRoom.
  rewrite Hmode, Room_key_not_in_array. simpl. rewrite Hsel. simpl.
  eexists. split_and!; done.
Qed.

Lemma linkRoom_first `{rt : Runtime} (s : State.t) (room : Room.t) (el : string) :
  State.linkMode s = true →
  State.linkSelection s = [] →
  let s' := linkRoom room el s in
  State.linkMode s' = true
  ∧ State.linkSelection s' = [room]
  ∧ State.apertures s' = State.apertures s
  ∧ State.uuid_calls s' = State.uuid_calls s.
Proof.
  intros Hmode Hsel. simpl. unfold linkRoom.
  rewrite Hmode, Room_key_not_in_array. simpl. by rewrite Hsel.
Qed.

Lemma linkClickBanner_one `{rt : Runtime} (s : State.t) (room : Room.t)
    (side : string) :
  State.linkMode s = true →
  State.linkSelection s = [room] →
  let id := randomUUID (State.uuid_calls s) in
  let s' := linkClickBanner side s in
  ∃ ap, State.apertures s' = JsMap.set id ap (State.apertures s)
    ∧ Aperture.id ap = id
    ∧ Aperture.grounded ap = true
    ∧ Aperture.rooms ap = [Room.id room; side]
    ∧ State.rooms s' = State.rooms s
    ∧ State.linkMode s' = false
    ∧ State.linkSelection s' = []
    ∧ State.linkingDOMElements s' = [].
Proof.
  intros Hmode Hsel. simpl. unfold linkClickBanner.
  rewrite Hmode, Hsel. simpl. eexists. split_and!; done.
Qed.

(** C3.  In link mode with one room selected, [linkRoom] with a second room
    appends exactly one aperture to the registry - not grounded, with the two
    identifiers in order - and [linkClickBanner(side)] appends exactly one
    grounded aperture for the room and the side; both leave the rooms alone
    and end in Idle.  The identifier crypto.randomUUID() hands out is taken
    to be unused. *)
Theorem link_mode_completes `{rt : Runtime} (s : State.t) (first : Room.t) :
  State.linkMode s = true →
  State.linkSelection s = [first] →
  let id := randomUUID (State.uuid_calls s) in
  JsMap.get id (State.apertures s) = None →
  (∀ (second : Room.t) (el : string),
     let s' := linkRoom second el s in
     ∃ ap, State.apertures s' = State.apertures s ++ [(id, ap)]
       ∧ Aperture.grounded ap = false
       ∧ Aperture.rooms ap = [Room.id first; Room.id second]
       ∧ State.rooms s' = State.rooms s
       ∧ State.linkMode s' = false
       ∧ State.linkSelection s' = [])
  ∧ (∀ side : string,
       let s' := linkClickBanner side s in
       ∃ ap, State.apertures s' = State.apertures s ++ [(id, ap)]
         ∧ Aperture.grounded ap = true
         ∧ Aperture.rooms ap = [Room.id first; side]
         ∧ State.rooms s' = State.rooms s
         ∧ State.linkMode s' = false
         ∧ State.linkSelection s' = []).
Proof.
  intros Hmode Hsel id Hfresh. split.
  - intros second el.
    destruct (linkRoom_second s first second el Hmode Hsel)
      as (ap & Haps & _ & ? & ? & ? & ? & ? & _).
    exists ap. simpl. rewrite Haps, set_fresh by done. by split_and!.
  - intros side.
    destruct (linkClickBanner_one s first side Hmode Hsel)
      as (ap & Haps & _ & ? & ? & ? & ? & ? & _).
    exists ap. simpl. rewrite Haps, set_fresh by done. by split_and!.
Qed.

(** C4, at the failing input.  After [enableLinkMode()], two calls of
    [linkRoom] with one and the same room select it twice - the guard
    [room in State.linkSelection] asks the array for a property named after
    the object, which it never has - and create an aperture whose two
    entries are that room's identifier. *)
Theorem linkRoom_same_room_twice `{rt : Runtime} (s : State.t) (room : Room.t)
    (el : string) :
  let s1 := linkRoom room el (enableLinkMode s) in
  let s2 := linkRoom room el s1 in
  State.linkSelection s1 = [room]
  ∧ ∃ ap, JsMap.get (randomUUID (State.uuid_calls s)) (State.apertures s2)
            = Some ap
      ∧ Aperture.rooms ap = [Room.id room; Room.id room].
Proof.
  intros s1 s2.
  destruct (linkRoom_first (enableLinkMode s) room el) as (Hm & Hs & Ha & Hu);
    [done..|].
  split; [done|].
  destruct (linkRoom_second s1 room room el Hm Hs)
    as (ap & Haps & _ & _ & Hr & _).
  exists ap. unfold s2. rewrite Haps. unfold s1 at 1. rewrite Hu. simpl.
  split; [apply get_set_eq | done].
Qed.

(** ** The JSON editor *)



(** ** Looking for the master document *)

Lemma findMaster_none `{rt : Runtime} (fileList : list File) :
  Forall (λ f, is_master (safeParseJSON (text f) VNull) = false) fileList →
  findMaster fileList = None.
Proof.
  induction 1 as [|f l Hf _ IH]; [done|]. simpl. by rewrite Hf.
Qed.

Lemma spec_master_is_master (json : jsval) :
  spec_master json = true → is_master json = true.
Proof.
  unfold spec_master, is_master.
  by destruct (field "rooms" json), (field "apertures" json).
Qed.

(** C6, as the code has it.  When no uploaded file parses to a value whose
    [rooms] and [apertures] are both truthy, [load] gives its notice and
    returns with the state it was called in. *)
Theorem load_without_master `{rt : Runtime} (fileList : list File)
    (s : State.t) :
  Forall (λ f, is_master (safeParseJSON (text f) VNull) = false) fileList →
  load fileList s = MasterNotFound "Master file not found." s.
Proof. intros Hnone. unfold load. by rewrite findMaster_none. Qed.

(** ** Throttled rendering *)

Lemma call_throttledRender_spec `{rt : Runtime} now m s :
  let '(m', s', ran) := call_throttledRender now m s in
  ran = bool_decide (Qc_of_Z 16 ≤ now - last (throttledRender m))
  ∧ last (throttledRender m') = (if ran then now else last (throttledRender m))
  ∧ s' = (if ran then ConnectionRenderer_update s else s)
  ∧ dragging m' = dragging m ∧ resizing m' = resizing m.
Proof.
  unfold call_throttledRender, throttled. by case_bool_decide.
Qed.

Lemma handle_spaced `{rt : Runtime} c m s :
  let '(m', s', run) := handle c m s in
  spaced (Qc_of_Z 16) (last (throttledRender m)) (option_list run)
  ∧ last (throttledRender m')
    = List.last (option_list run) (last (throttledRender m)).
Proof.
  destruct c as [e now|e now| |]; simpl; [| |done..].
  - unfold onDrag. destruct (dragging m); [|done].
    unfold call_throttledRender, throttled. by case_bool_decide.
  - unfold onResize. destruct (resizing m); [|done].
    unfold call_throttledRender, throttled. by case_bool_decide.
Qed.

Lemma last_cons_default {A} (x : A) (l : list A) (d d' : A) :
  List.last (x :: l) d = List.last (x :: l) d'.
Proof.
  revert x. induction l as [|y l IH]; intros x; [done|].
  change (List.last (y :: l) d = List.last (y :: l) d'). apply IH.
Qed.

Lemma spaced_app delay prev l1 l2 :
  spaced delay prev l1 → spaced delay (List.last l1 prev) l2 →
  spaced delay prev (l1 ++ l2).
Proof.
  revert prev. induction l1 as [|t l1 IH]; intros prev; [done|].
  intros [Ht Hl1] Hl2. split; [done|]. apply IH; [done|].
  destruct l1 as [|x l1]; [done|].
  by rewrite (last_cons_default x l1 t prev).
Qed.

Lemma gesture_spaced `{rt : Runtime} calls m s :
  let '(m', s', runs) := gesture calls m s in
  spaced (Qc_of_Z 16) (last (throttledRender m)) runs
  ∧ last (throttledRender m') = List.last runs (last (throttledRender m)).
Proof.
  revert m s. induction calls as [|c calls IH]; intros m s; [done|].
  simpl. pose proof (handle_spaced c m s) as Hc.
  destruct (handle c m s) as [[m1 s1] run]. destruct Hc as [Hc1 Hc2].
  specialize (IH m1 s1). destruct (gesture calls m1 s1) as [[m2 s2] runs].
  destruct IH as [IH1 IH2]. rewrite Hc2 in IH1, IH2. split.
  - by apply spaced_app.
  - rewrite IH2. destruct run as [t|]; simpl; [|done].
    destruct runs as [|r runs]; [done|].
    apply (last_cons_default r runs).
Qed.

Lemma updateUIData_ui id left top s :
  State.ui (updateUIData id left top s) = State.ui s.
Proof.
  unfold updateUIData. destruct (JsMap.get id (State.rooms s)); simpl;
    by destruct (JsMap.get id _).
Qed.

Lemma connection_lines_update `{rt : Runtime} s :
  connection_lines (ConnectionRenderer_update s) = connection_lines s.
Proof. done. Qed.

(** C8, as the code has it.  Whatever handler calls a gesture consists of
    and whenever they come, each run of the renderer they cause is at least
    16 ms after the run before it.  A call of [onDrag] during a drag writes
    the new position to the element and to the model; when 16 ms have passed
    since the last run the renderer runs within that call and draws the
    lines of the new position, otherwise the call leaves the drawn lines as
    they are and schedules nothing.  A call of [onResize] during a resize
    passes the same throttle in the same way. *)
Theorem throttled_render_contract `{rt : Runtime} :
  (∀ calls m s,
     spaced (Qc_of_Z 16) (last (throttledRender m)) (gesture calls m s).2)
  ∧ (∀ e now m s el,
       dragging m = Some el →
       let left := clientX e - offsetX m in
       let top := clientY e - offsetY m in
       let written :=
         updateUIData el left top
           (State.with_canvas (update_element el (set_style_position left top)) s) in
       let s' := (onDrag e now m s).1.2 in
       let ran := (onDrag e now m s).2 in
       ran = bool_decide (Qc_of_Z 16 ≤ now - last (throttledRender m))
       ∧ State.rooms s' = State.rooms written
       ∧ State.apertures s' = State.apertures written
       ∧ State.canvas (State.ui s') = State.canvas (State.ui written)
       ∧ (ran = true →
            State.connectionLayer (State.ui s') = connection_lines s')
       ∧ (ran = false →
            State.connectionLayer (State.ui s')
            = State.connectionLayer (State.ui s)))
  ∧ (∀ e now m s el,
       resizing m = Some el →
       let s' := (onResize e now m s).1.2 in
       let ran := (onResize e now m s).2 in
       ran = bool_decide (Qc_of_Z 16 ≤ now - last (throttledRender m))
       ∧ (ran = true →
            State.connectionLayer (State.ui s') = connection_lines s')
       ∧ (ran = false →
            State.connectionLayer (State.ui s')
            = State.connectionLayer (State.ui s))).
Proof.
  split_and!.
  - intros calls m s. pose proof (gesture_spaced calls m s) as Hg.
    destruct (gesture calls m s) as [[m' s'] runs]. apply Hg.
  - intros e now m s el Hel. simpl. unfold onDrag. rewrite Hel.
    unfold call_throttledRender, throttled.
    case_bool_decide; simpl; split_and!; try done.
    intros _. by rewrite updateUIData_ui.
  - intros e now m s el Hel. simpl. unfold onResize. rewrite Hel.
    unfold call_throttledRender, throttled.
    case_bool_decide; simpl; split_and!; try done.
    intros _. by destruct (JsMap.get el (State.rooms s)).
Qed.

(** ** The round trip through save and load *)
















Lemma json_norm_room_ui ui : json_norm (room_ui_json ui) = room_ui_json ui.
Proof. done. Qed.

Lemma json_norm_position ap : json_norm (saved_position ap) = saved_position ap.
Proof. done. Qed.



























(** ** The two parallel lists of the master document *)

Lemma save_apertures_lengths (s : State.t) (A : list Aperture.t)
    (aperturesList ui_aperture_data descs uis : list jsval) :
  save_apertures s A aperturesList ui_aperture_data = Some (descs, uis) →
  length uis = (length ui_aperture_data + length A)%nat
  ∧ length descs
    = (length aperturesList + length (List.filter described A))%nat.
Proof.
  revert aperturesList ui_aperture_data.
  induction A as [|ap A IH]; intros aperturesList ui_aperture_data.
  { simpl. intros [= <- <-]. lia. }
  cbn [save_apertures List.filter]. unfold described at 1.
  destruct (Aperture.grounded ap); cbn [orb].
  - destruct (getRoomLabel _ s); [|done].
    intros [Hu Hd]%IH. rewrite !length_app in Hu, Hd. simpl in *. lia.
  - case_bool_decide.
    + destruct (getRoomLabel _ s); [|done].
      destruct (getRoomLabel _ s); [|done].
      intros [Hu Hd]%IH. rewrite !length_app in Hu, Hd. simpl in *. lia.
    + intros [Hu Hd]%IH. rewrite !length_app in Hu. simpl in *. lia.
Qed.

Lemma filter_length_lt {A} (f : A → bool) (l : list A) (x : A) :
  x ∈ l → f x = false → (length (List.filter f l) < length l)%nat.
Proof.
  intros Hx Hf. induction l as [|y l IH]; [by apply elem_of_nil in Hx|].
  pose proof (List.filter_length_le f l). simpl.
  apply elem_of_cons in Hx as [<-|Hx].
  - rewrite Hf. lia.
  - specialize (IH Hx). destruct (f y); simpl; lia.
Qed.

(** C9, where it fails.  Whenever [save] gets as far as the master document,
    the list of positions has an entry for every aperture and the list of
    descriptors one for every aperture that is grounded or has two entries
    in [rooms]; with an aperture that is neither (what [removeRoom] leaves of
    an aperture between two rooms) the descriptors are fewer than the
    positions, and the two lists are not aligned. *)
Theorem save_orphan_breaks_alignment (s : State.t) (master : jsval)
    (orphan : Aperture.t) :
  save_master s = Some master →
  orphan ∈ JsMap.values (State.apertures s) →
  described orphan = false →
  ∃ descriptors positions,
    field "apertures" master = VArr descriptors
    ∧ field "apertures" (field "ui" master) = VArr positions
    ∧ length positions = length (JsMap.values (State.apertures s))
    ∧ (length descriptors < length positions)%nat.
Proof.
  unfold save_master. intros Hsave Horphan Hdescribed.
  destruct (fold_left save_room _ _) as [[downloads roomFiles] ui_data].
  destruct (save_apertures s _ [] []) as [[descs uis]|] eqn:Haps; [|done].
  injection Hsave as <-. exists descs, uis.
  apply save_apertures_lengths in Haps as [Hu Hd]. simpl in Hu, Hd.
  split_and!; [done| |done|].
  - unfold master_document, field, Obj.write. simpl. by rewrite get_set_eq.
  - rewrite Hu, Hd. by eapply filter_length_lt.
Qed.

Lemma hex_digit_facts (c : ascii) (v : N) :
  digit_value 16 c = Some v →
  Ascii.is_space c = false ∧ c ≠ "-"%char ∧ c ≠ "+"%char
  ∧ c ≠ "x"%char ∧ c ≠ "X"%char ∧ (v < 16)%N.
Proof.
  destruct c as [[] [] [] [] [] [] [] []]; vm_compute; intros H;
    try discriminate H; injection H as <-; split_and!; try done.
Qed.

Lemma read_sign_none (c : ascii) (u : string) :
  c ≠ "-"%char → c ≠ "+"%char → read_sign (String c u) = (false, String c u).
Proof. intros Hm Hp. destruct c as [[] [] [] [] [] [] [] []]; done. Qed.

Lemma strip_0x_none (c1 c2 : ascii) (u : string) :
  c2 ≠ "x"%char → c2 ≠ "X"%char →
  strip_0x (String c1 (String c2 u)) = String c1 (String c2 u).
Proof.
  intros Hx HX. destruct c1 as [[] [] [] [] [] [] [] []]; try done.
  cbn. rewrite bool_decide_eq_false_2; [done|]. by intros [?|?].
Qed.

Lemma read_digits_some (rest : string) (n : N) (k : nat) :
  match read_digits 16 rest n (S k) with
  | (_, O, _) => None
  | (m, _, _) => Some (Z.of_N m)
  end = Some (Z.of_N (read_digits 16 rest n (S k)).1.1).
Proof.
  revert n k. induction rest as [|c r IH]; intros n k; cbn [read_digits]; [done|].
  destruct (digit_value 16 c); [apply IH|done].
Qed.

Lemma parseInt_16_digits (d1 d2 : ascii) (v1 v2 : N) (rest : string) :
  digit_value 16 d1 = Some v1 →
  digit_value 16 d2 = Some v2 →
  parseInt_16 (String d1 (String d2 rest))
  = Some (Z.of_N (read_digits 16 rest (v1 * 16 + v2) 2).1.1).
Proof.
  intros H1 H2.
  destruct (hex_digit_facts _ _ H1) as (Hs1 & Hm1 & Hp1 & _).
  destruct (hex_digit_facts _ _ H2) as (_ & _ & _ & Hx & HX & _).
  unfold parseInt_16. cbn [skip_space]. rewrite Hs1.
  rewrite read_sign_none, strip_0x_none by done.
  cbn [read_digits]. rewrite H1, H2.
  replace ((0 * 16 + v1) * 16 + v2)%N with (v1 * 16 + v2)%N by lia.
  apply read_digits_some.
Qed.

Lemma land_255 (z : Z) : Z.land z 255 = (z `mod` 256)%Z.
Proof. change 255%Z with (Z.ones 8). by rewrite Z.land_ones. Qed.

Lemma hexToRgb_bits (hex : string) :
  hexToRgb hex
  = let n := ToInt32 (parseInt_16 (slice_1 hex)) in
    Rgb.mk ((n `div` 65536) `mod` 256)%Z ((n `div` 256) `mod` 256)%Z
           (n `mod` 256)%Z.
Proof.
  unfold hexToRgb. cbv zeta. rewrite !land_255, !Z.shiftr_div_pow2 by lia.
  done.
Qed.

Lemma hexToRgb_range (hex : string) :
  (0 ≤ Rgb.r (hexToRgb hex) ≤ 255)%Z
  ∧ (0 ≤ Rgb.g (hexToRgb hex) ≤ 255)%Z
  ∧ (0 ≤ Rgb.b (hexToRgb hex) ≤ 255)%Z.
Proof.
  rewrite hexToRgb_bits. cbn [Rgb.r Rgb.g Rgb.b]. cbv zeta.
  pose proof (Z.mod_pos_bound (ToInt32 (parseInt_16 (slice_1 hex)) `div` 65536) 256).
  pose proof (Z.mod_pos_bound (ToInt32 (parseInt_16 (slice_1 hex)) `div` 256) 256).
  pose proof (Z.mod_pos_bound (ToInt32 (parseInt_16 (slice_1 hex))) 256).
  lia.
Qed.

(** X1.  [hexToRgb] drops the first character of its argument unchecked and
    reads the rest as a hexadecimal number: for six digits the channels are
    the values of the three pairs; whatever the text, each channel is
    between 0 and 255; and a text with no digit to read gives black. *)
Theorem hexToRgb_channels :
  (∀ (c0 d1 d2 d3 d4 d5 d6 : ascii) (v1 v2 v3 v4 v5 v6 : N),
     digit_value 16 d1 = Some v1 → digit_value 16 d2 = Some v2 →
     digit_value 16 d3 = Some v3 → digit_value 16 d4 = Some v4 →
     digit_value 16 d5 = Some v5 → digit_value 16 d6 = Some v6 →
     hexToRgb
       (String c0 (String d1 (String d2 (String d3 (String d4
          (String d5 (String d6 EmptyString)))))))
     = Rgb.mk (Z.of_N (16 * v1 + v2)) (Z.of_N (16 * v3 + v4))
              (Z.of_N (16 * v5 + v6)))
  ∧ (∀ hex,
       (0 ≤ Rgb.r (hexToRgb hex) ≤ 255)%Z
       ∧ (0 ≤ Rgb.g (hexToRgb hex) ≤ 255)%Z
       ∧ (0 ≤ Rgb.b (hexToRgb hex) ≤ 255)%Z)
  ∧ (∀ hex, parseInt_16 (slice_1 hex) = None → hexToRgb hex = Rgb.mk 0 0 0).
Proof.
  split_and!.
  - intros c0 d1 d2 d3 d4 d5 d6 v1 v2 v3 v4 v5 v6 H1 H2 H3 H4 H5 H6.
    rewrite hexToRgb_bits. cbn [slice_1].
    rewrite (parseInt_16_digits d1 d2 v1 v2) by done.
    cbn [read_digits]. rewrite H3, H4, H5, H6. cbn [fst ToInt32].
    apply hex_digit_facts in H1 as (_ & _ & _ & _ & _ & ?).
    apply hex_digit_facts in H2 as (_ & _ & _ & _ & _ & ?).
    apply hex_digit_facts in H3 as (_ & _ & _ & _ & _ & ?).
    apply hex_digit_facts in H4 as (_ & _ & _ & _ & _ & ?).
    apply hex_digit_facts in H5 as (_ & _ & _ & _ & _ & ?).
    apply hex_digit_facts in H6 as (_ & _ & _ & _ & _ & ?).
    cbv zeta. f_equal; Z.div_mod_to_equations; lia.
  - apply hexToRgb_range.
  - intros hex Hnan. unfold hexToRgb. by rewrite Hnan.
Qed.

Lemma hexToRgb_channels_witness :
  hexToRgb "#ffa500" = Rgb.mk 255 165 0.
Proof.
  exact (proj1 hexToRgb_channels "#"%char "f"%char "f"%char "a"%char "5"%char
           "0"%char "0"%char 15%N 15%N 10%N 5%N 0%N 0%N
           eq_refl eq_refl eq_refl eq_refl eq_refl eq_refl).
Defined.

Lemma Qfloor_unique (x : Q) (k : Z) :
  (inject_Z k <= x)%Q → (x < inject_Z (k + 1))%Q → Qfloor x = k.
Proof.
  intros Hlo Hhi.
  pose proof (Qfloor_le x) as Hf. pose proof (Qlt_floor x) as Hc.
  assert (inject_Z (Qfloor x) < inject_Z (k + 1))%Q as H1
    by (eapply Qle_lt_trans; eassumption).
  assert (inject_Z k < inject_Z (Qfloor x + 1))%Q as H2
    by (eapply Qle_lt_trans; eassumption).
  rewrite <- Zlt_Qlt in H1, H2. lia.
Qed.

Lemma this_plus (x y : Qc) : (this (x + y) == this x + this y)%Q.
Proof. exact (Qred_correct (this x + this y)). Qed.
Lemma this_minus (x y : Qc) : (this (x - y) == this x - this y)%Q.
Proof.
  unfold Qcminus. rewrite this_plus. unfold Qminus.
  apply Qplus_comp; [reflexivity|]. exact (Qred_correct (- this y)).
Qed.
Lemma this_mult (x y : Qc) : (this (x * y) == this x * this y)%Q.
Proof. exact (Qred_correct (this x * this y)). Qed.
Lemma this_of_Z (z : Z) : (this (Qc_of_Z z) == inject_Z z)%Q.
Proof. reflexivity. Qed.
Lemma this_half : (this (Q2Qc (1 # 2)) == 1 # 2)%Q.
Proof. exact (Qred_correct (1 # 2)). Qed.

Lemma Math_round_between (lo hi : Z) (x : Qc) :
  Qc_of_Z lo ≤ x → x ≤ Qc_of_Z hi → (lo ≤ Math_round x ≤ hi)%Z.
Proof.
  unfold Qcle. rewrite !this_of_Z. intros Hlo Hhi.
  unfold Math_round.
  pose proof (Qfloor_le (x + Q2Qc (1 # 2))%Q) as Hf.
  pose proof (Qlt_floor (x + Q2Qc (1 # 2))%Q) as Hc.
  pose proof this_half as Hh.
  set (h := this (Q2Qc (1 # 2))) in *.
  set (k := Qfloor _) in *. clearbody k h.
  assert (inject_Z lo < inject_Z (k + 1))%Q as H1.
  { rewrite inject_Z_plus in Hc |- *. change (inject_Z 1) with 1%Q in *. lra. }
  assert (inject_Z k < inject_Z (hi + 1))%Q as H2.
  { rewrite inject_Z_plus. change (inject_Z 1) with 1%Q in *. lra. }
  rewrite <- Zlt_Qlt in H1, H2. lia.
Qed.

Lemma Math_round_Z (z : Z) : Math_round (Qc_of_Z z) = z.
Proof.
  pose proof (Math_round_between z z (Qc_of_Z z)) as H.
  assert (Qc_of_Z z ≤ Qc_of_Z z) as Hr by apply Qcle_refl.
  specialize (H Hr Hr). lia.
Qed.

Lemma interpolate_channel_between (a b : Z) (t : Qc) :
  0 ≤ t → t ≤ 1 →
  (Z.min a b ≤ interpolate_channel a b t ≤ Z.max a b)%Z.
Proof.
  intros H0 H1. unfold interpolate_channel.
  pose proof (this_plus (Qc_of_Z a) ((Qc_of_Z b - Qc_of_Z a) * t)) as E1.
  pose proof (this_mult (Qc_of_Z b - Qc_of_Z a) t) as E2.
  pose proof (this_minus (Qc_of_Z b) (Qc_of_Z a)) as E3.
  unfold Qcle in H0, H1.
  change (this 0) with 0%Q in *. change (this 1) with 1%Q in *.
  apply Math_round_between; unfold Qcle.
  - set (x := this (Qc_of_Z a + (Qc_of_Z b - Qc_of_Z a) * t)) in *.
    set (m := this ((Qc_of_Z b - Qc_of_Z a) * t)) in *.
    set (d := this (Qc_of_Z b - Qc_of_Z a)) in *. clearbody x m d.
    change (this (Qc_of_Z a)) with (inject_Z a) in *.
    change (this (Qc_of_Z b)) with (inject_Z b) in *.
    change (this (Qc_of_Z (Z.min a b))) with (inject_Z (Z.min a b)).
    destruct (Z.min_spec a b) as [[Hlt ->]|[Hle ->]].
    + assert (inject_Z a <= inject_Z b)%Q by (rewrite <- Zle_Qle; lia). nra.
    + assert (inject_Z b <= inject_Z a)%Q by (rewrite <- Zle_Qle; lia). nra.
  - set (x := this (Qc_of_Z a + (Qc_of_Z b - Qc_of_Z a) * t)) in *.
    set (m := this ((Qc_of_Z b - Qc_of_Z a) * t)) in *.
    set (d := this (Qc_of_Z b - Qc_of_Z a)) in *. clearbody x m d.
    change (this (Qc_of_Z a)) with (inject_Z a) in *.
    change (this (Qc_of_Z b)) with (inject_Z b) in *.
    change (this (Qc_of_Z (Z.max a b))) with (inject_Z (Z.max a b)).
    destruct (Z.max_spec a b) as [[Hlt ->]|[Hle ->]].
    + assert (inject_Z a <= inject_Z b)%Q by (rewrite <- Zle_Qle; lia). nra.
    + assert (inject_Z b <= inject_Z a)%Q by (rewrite <- Zle_Qle; lia). nra.
Qed.

Lemma interpolate_channel_0 (a b : Z) : interpolate_channel a b 0 = a.
Proof.
  unfold interpolate_channel.
  replace (Qc_of_Z a + (Qc_of_Z b - Qc_of_Z a) * 0) with (Qc_of_Z a) by ring.
  apply Math_round_Z.
Qed.

Lemma interpolate_channel_1 (a b : Z) : interpolate_channel a b 1 = b.
Proof.
  unfold interpolate_channel.
  replace (Qc_of_Z a + (Qc_of_Z b - Qc_of_Z a) * 1) with (Qc_of_Z b) by ring.
  apply Math_round_Z.
Qed.

Lemma interpolateColor_ends (c1 c2 : string) :
  interpolateColor c1 c2 0 = rgb_text (hexToRgb c1)
  ∧ interpolateColor c1 c2 1 = rgb_text (hexToRgb c2).
Proof.
  unfold interpolateColor, interpolated.
  rewrite !interpolate_channel_0, !interpolate_channel_1.
  by destruct (hexToRgb c1), (hexToRgb c2).
Qed.

(** X2.  [interpolateColor] mixes channel by channel: at [t = 0] it prints
    the first colour, at [t = 1] the second, and for [t] between 0 and 1
    every channel it prints lies between the two channels it mixes, so
    between 0 and 255. *)
Theorem interpolateColor_between (c1 c2 : string) :
  interpolateColor c1 c2 0 = rgb_text (hexToRgb c1)
  ∧ interpolateColor c1 c2 1 = rgb_text (hexToRgb c2)
  ∧ (∀ t, 0 ≤ t → t ≤ 1 →
       let a := hexToRgb c1 in
       let b := hexToRgb c2 in
       let c := interpolated c1 c2 t in
       interpolateColor c1 c2 t = rgb_text c
       ∧ (Z.min (Rgb.r a) (Rgb.r b) ≤ Rgb.r c ≤ Z.max (Rgb.r a) (Rgb.r b))%Z
       ∧ (Z.min (Rgb.g a) (Rgb.g b) ≤ Rgb.g c ≤ Z.max (Rgb.g a) (Rgb.g b))%Z
       ∧ (Z.min (Rgb.b a) (Rgb.b b) ≤ Rgb.b c ≤ Z.max (Rgb.b a) (Rgb.b b))%Z
       ∧ (0 ≤ Rgb.r c ≤ 255)%Z ∧ (0 ≤ Rgb.g c ≤ 255)%Z
       ∧ (0 ≤ Rgb.b c ≤ 255)%Z).
Proof.
  split_and!.
  - exact (proj1 (interpolateColor_ends c1 c2)).
  - exact (proj2 (interpolateColor_ends c1 c2)).
  - intros t H0 H1. cbv zeta. split; [done|].
    pose proof (interpolate_channel_between (Rgb.r (hexToRgb c1))
                  (Rgb.r (hexToRgb c2)) t H0 H1) as Hr.
    pose proof (interpolate_channel_between (Rgb.g (hexToRgb c1))
                  (Rgb.g (hexToRgb c2)) t H0 H1) as Hg.
    pose proof (interpolate_channel_between (Rgb.b (hexToRgb c1))
                  (Rgb.b (hexToRgb c2)) t H0 H1) as Hb.
    destruct (hexToRgb_range c1) as (? & ? & ?).
    destruct (hexToRgb_range c2) as (? & ? & ?).
    unfold interpolated. cbn [Rgb.r Rgb.g Rgb.b]. lia.
Qed.

Lemma interpolateColor_between_witness :
  (0 ≤ Rgb.r (interpolated "#000000" "#ffffff" (Q2Qc (1 # 2))) ≤ 255)%Z.
Proof.
  apply (proj2 (proj2 (interpolateColor_between "#000000" "#ffffff"))
           (Q2Qc (1 # 2)));
    apply (bool_decide_unpack _); by vm_compute.
Defined.

Lemma this_div (x y : Qc) : (this (x / y) == this x / this y)%Q.
Proof.
  unfold Qcdiv. rewrite this_mult. unfold Qdiv.
  apply Qmult_comp; [reflexivity|]. exact (Qred_correct (/ this y)).
Qed.

Lemma clamp_unit (x : Qc) :
  0 ≤ Math_min (Math_max x 0) 1 ∧ Math_min (Math_max x 0) 1 ≤ 1.
Proof.
  unfold Math_min, Math_max. repeat case_bool_decide; unfold Qcle in *;
    change (this 0) with 0%Q in *; change (this 1) with 1%Q in *;
    split; lra.
Qed.

Lemma clamp_high (x : Qc) : 1 ≤ x → Math_min (Math_max x 0) 1 = 1.
Proof.
  intros Hx. unfold Math_min, Math_max.
  repeat case_bool_decide; try done; unfold Qcle in *;
    change (this 0) with 0%Q in *; change (this 1) with 1%Q in *;
    apply Qc_is_canon;
    change (this 0) with 0%Q in *; change (this 1) with 1%Q in *; lra.
Qed.

Lemma clamp_low (x : Qc) : x ≤ 0 → Math_min (Math_max x 0) 1 = 0.
Proof.
  intros Hx. unfold Math_min, Math_max.
  repeat case_bool_decide; try done; unfold Qcle in *;
    change (this 0) with 0%Q in *; change (this 1) with 1%Q in *;
    apply Qc_is_canon;
    change (this 0) with 0%Q in *; change (this 1) with 1%Q in *; lra.
Qed.

Lemma floor_scaled (t : Qc) (n : Z) :
  0 ≤ t → t ≤ 1 → (0 ≤ n)%Z →
  (0 ≤ Qfloor (this (t * Qc_of_Z n)%Qc) ≤ n)%Z.
Proof.
  intros H0 H1 Hn. unfold Qcle in *.
  change (this 0) with 0%Q in *. change (this 1) with 1%Q in *.
  pose proof (this_mult t (Qc_of_Z n)) as E.
  change (this (Qc_of_Z n)) with (inject_Z n) in E.
  assert (0 <= inject_Z n)%Q as Hn'
    by (change 0%Q with (inject_Z 0); rewrite <- Zle_Qle; lia).
  set (x := this (t * Qc_of_Z n)) in *. clearbody x.
  split.
  - rewrite <- (Qfloor_Z 0). apply Qfloor_resp_le. change (inject_Z 0) with 0%Q.
    nra.
  - rewrite <- (Qfloor_Z n). apply Qfloor_resp_le. nra.
Qed.

Lemma colour_at_Some (colors : list string) (k : Z) :
  (0 ≤ k < Z.of_nat (length colors))%Z → is_Some (colour_at colors k).
Proof.
  intros Hk. unfold colour_at. rewrite bool_decide_eq_true_2 by lia.
  apply lookup_lt_is_Some. lia.
Qed.

Lemma this_Q2Qc (q : Q) : (this (Q2Qc q) == q)%Q.
Proof. apply Qred_correct. Qed.

Lemma round_magnitude_grid (a : Q) :
  ∃ z : Z, (round_magnitude a == inject_Z z * pow2 (-1074))%Q.
Proof.
  unfold round_magnitude.
  set (u := (Z.max (floor_log2 a) (-1022) - 52)%Z).
  set (r := round_half_even _).
  exists (r * 2 ^ (u + 1074))%Z.
  rewrite inject_Z_mult, <- pow2_Z by lia.
  rewrite <- Qmult_assoc, <- pow2_add.
  by replace (u + 1074 + -1074)%Z with u by lia.
Qed.

(** A binary64 number is a whole multiple of 2^-1074. *)
Lemma round64_fixed_grid (x : Qc) :
  round64 x = x → ∃ z : Z, (this x == inject_Z z * pow2 (-1074))%Q.
Proof.
  intros Hx. destruct (Qclt_le_dec x 0) as [Hneg|Hpos].
  - destruct (round_magnitude_grid (- this x)) as [z Hz]. exists (- z)%Z.
    rewrite <- Hx at 1. rewrite round64_neg_this by done.
    rewrite Hz, inject_Z_opp. ring.
  - destruct (round_magnitude_grid (this x)) as [z Hz]. exists z.
    rewrite <- Hx at 1. by rewrite round64_nonneg_this.
Qed.

Lemma binary64_Fin (x r : Qc) : binary64 x = Fin r → r = round64 x.
Proof. unfold binary64. repeat case_match; congruence. Qed.

Lemma binary64_fixed (x : Qc) : binary64 x = Fin x → round64 x = x.
Proof. by intros ?%binary64_Fin. Qed.

Lemma binary64_PosInf (x : Qc) : binary64 x = PosInf → 0 ≤ x.
Proof.
  unfold binary64. cbv zeta. destruct (Qle_bool (pow2 1024) _); [|done].
  destruct (Qle_bool 0 (this x)) eqn:E; [|done]. intros _.
  by apply Qle_bool_iff in E.
Qed.

Lemma binary64_NegInf (x : Qc) : binary64 x = NegInf → x < 0.
Proof.
  unfold binary64. cbv zeta. destruct (Qle_bool (pow2 1024) _); [|done].
  destruct (Qle_bool 0 (this x)) eqn:E; [done|]. intros _.
  unfold Qclt. change (this 0) with 0%Q.
  apply Qnot_le_lt. intros H%Qle_bool_iff. congruence.
Qed.

Lemma binary64_not_NaN (x : Qc) : binary64 x ≠ NaN.
Proof. unfold binary64. by repeat case_match. Qed.

Lemma smallest_fixed : round64 (Q2Qc (pow2 (-1074))) = Q2Qc (pow2 (-1074)).
Proof.
  apply (round64_exact _ 1 (-1074)); [|done|done].
  rewrite this_Q2Qc. by rewrite Qmult_1_l.
Qed.

(** Two binary64 numbers that differ have a difference that is not 0, also
    after rounding. *)
Lemma round64_difference (a b : Qc) :
  round64 a = a → round64 b = b → a < b → 0 < round64 (b - a).
Proof.
  intros [za Ha]%round64_fixed_grid [zb Hb]%round64_fixed_grid Hab.
  assert (za < zb)%Z as Hz.
  { unfold Qclt in Hab. rewrite Ha, Hb in Hab.
    apply Qmult_lt_r in Hab; [|apply pow2_pos]. by rewrite <- Zlt_Qlt in Hab. }
  apply Qclt_le_trans with (Q2Qc (pow2 (-1074))).
  { unfold Qclt. change (this 0) with 0%Q.
    rewrite (this_Q2Qc (pow2 (-1074))). apply pow2_pos. }
  rewrite <- smallest_fixed. apply round64_mono.
  unfold Qcle. rewrite (this_Q2Qc (pow2 (-1074))), this_minus, Ha, Hb.
  assert (inject_Z (za + 1) <= inject_Z zb)%Q as H1
    by (rewrite <- Zle_Qle; lia).
  rewrite inject_Z_plus in H1. change (inject_Z 1) with 1%Q in H1.
  pose proof (pow2_pos (-1074)). nra.
Qed.

Lemma round64_1 : round64 1 = 1.
Proof. apply (round64_exact _ 1 0); [|done|done]. done. Qed.

Lemma round64_0 : round64 0 = 0.
Proof. apply (round64_exact _ 0 0); [|done|done]. done. Qed.

Lemma round64_Z (n : Z) : (Z.abs n < 2 ^ 53)%Z → round64 (Qc_of_Z n) = Qc_of_Z n.
Proof.
  intros Hn. apply (round64_exact _ n 0); [|done|done].
  simpl this. change (pow2 0) with 1%Q. by rewrite Qmult_1_r.
Qed.

Lemma this_opp (x : Qc) : (this (- x) == - this x)%Q.
Proof. unfold Qcopp. apply this_Q2Qc. Qed.

Lemma largest_negative_fixed :
  round64 (- Q2Qc (pow2 (-1074))) = - Q2Qc (pow2 (-1074)).
Proof.
  apply (round64_exact _ (-1) (-1074)); [|done|done].
  rewrite this_opp, (this_Q2Qc (pow2 (-1074))).
  change (inject_Z (-1)) with (- (1))%Q. ring.
Qed.

Lemma round64_difference_neg (a b : Qc) :
  round64 a = a → round64 b = b → a < b → round64 (a - b) < 0.
Proof.
  intros [za Ha]%round64_fixed_grid [zb Hb]%round64_fixed_grid Hab.
  assert (za < zb)%Z as Hz.
  { unfold Qclt in Hab. rewrite Ha, Hb in Hab.
    apply Qmult_lt_r in Hab; [|apply pow2_pos]. by rewrite <- Zlt_Qlt in Hab. }
  apply Qcle_lt_trans with (- Q2Qc (pow2 (-1074))).
  2:{ unfold Qclt. change (this 0) with 0%Q.
      rewrite this_opp, (this_Q2Qc (pow2 (-1074))).
      pose proof (pow2_pos (-1074)). lra. }
  rewrite <- largest_negative_fixed. apply round64_mono.
  unfold Qcle. rewrite this_opp, (this_Q2Qc (pow2 (-1074))), this_minus, Ha, Hb.
  assert (inject_Z (za + 1) <= inject_Z zb)%Q as H1
    by (rewrite <- Zle_Qle; lia).
  rewrite inject_Z_plus in H1. change (inject_Z 1) with 1%Q in H1.
  pose proof (pow2_pos (-1074)). nra.
Qed.

Lemma binary64_0 : binary64 0 = Fin 0.
Proof.
  unfold binary64. cbv zeta. rewrite round64_0.
  destruct (Qle_bool (pow2 1024) (Qabs (this 0))) eqn:E; [|done].
  apply Qle_bool_iff in E. change (Qabs (this 0)) with 0%Q in E.
  pose proof (pow2_pos 1024). lra.
Qed.

Lemma binary64_PosInf_pos (x : Qc) : binary64 x = PosInf → 0 < x.
Proof.
  intros H. pose proof (binary64_PosInf x H) as Hx.
  destruct (Qc_eq_dec x 0) as [->|Hne].
  - by rewrite binary64_0 in H.
  - apply Qcle_lt_or_eq in Hx as [?|?]; [done|by subst].
Qed.

(** Where the value sits between [min] and [max], as the code computes
    it. *)
Lemma gradient_unit (value min max : Qc) :
  binary64 value = Fin value → binary64 min = Fin min →
  binary64 max = Fin max → min ≠ max →
  let a := binary64 (value - min) in
  let b := binary64 (max - min) in
  (is_finite a = false → is_finite b = false →
   clamp01 (number_div a b) = None)
  ∧ (is_finite a = true ∨ is_finite b = true →
     ∃ t, clamp01 (number_div a b) = Some t ∧ 0 ≤ t ∧ t ≤ 1)
  ∧ (min < max → max ≤ value → is_finite b = true →
     clamp01 (number_div a b) = Some 1)
  ∧ (min < max → value ≤ min → is_finite a = true ∨ is_finite b = true →
     clamp01 (number_div a b) = Some 0).
Proof.
  intros Hvalue%binary64_fixed Hmin%binary64_fixed Hmax%binary64_fixed Hne.
  intros a b.
  assert (b ≠ NaN ∧ a ≠ NaN) as [HbN HaN] by (split; apply binary64_not_NaN).
  assert (∀ rb, b = Fin rb → rb ≠ 0) as Hb0.
  { intros rb ->%binary64_Fin.
    destruct (Qclt_le_dec min max) as [Hlt|Hge].
    - pose proof (round64_difference min max Hmin Hmax Hlt) as H.
      intros E. rewrite E in H. by apply Qclt_not_eq in H.
    - assert (max < min) as Hlt.
      { apply Qcle_lt_or_eq in Hge as [?|?]; [done|by subst]. }
      pose proof (round64_difference_neg max min Hmax Hmin Hlt) as H.
      intros E. rewrite E in H. by apply Qclt_not_eq in H. }
  assert (∀ x : Qc, ∃ t, clamp01 (binary64 x) = Some t ∧ 0 ≤ t ∧ t ≤ 1)
    as Hclamp.
  { intros x. pose proof (binary64_not_NaN x).
    destruct (binary64 x) as [q| | |]; [|done|..].
    - eexists. split; [done|]. apply clamp_unit.
    - by exists 1.
    - by exists 0. }
  split_and!.
  - intros Ha Hb. by destruct a, b.
  - intros Hfin. destruct a as [ra| | |] eqn:Ea, b as [rb| | |] eqn:Eb;
      try done; cbn [number_div clamp01].
    + rewrite bool_decide_eq_false_2 by by apply Hb0. apply Hclamp.
    + exists 0. split; [by rewrite clamp_low|done].
    + exists 0. split; [by rewrite clamp_low|done].
    + case_bool_decide; [by exists 1|by exists 0].
    + by destruct Hfin.
    + by destruct Hfin.
    + case_bool_decide; [by exists 0|by exists 1].
    + by destruct Hfin.
    + by destruct Hfin.
  - intros Hlt Hle Hfin.
    destruct b as [rb| | |] eqn:Eb; try done.
    pose proof (Hb0 rb eq_refl) as Hrb0.
    apply binary64_Fin in Eb.
    assert (0 < rb) as Hrb.
    { rewrite Eb. by apply round64_difference. }
    destruct a as [ra| | |] eqn:Ea; try done; cbn [number_div clamp01].
    + apply binary64_Fin in Ea.
      assert (rb ≤ ra) as Hra.
      { rewrite Ea, Eb. apply round64_mono.
        unfold Qcle in *. rewrite !this_minus. lra. }
      rewrite bool_decide_eq_false_2 by done.
      assert (1 ≤ ra / rb) as Hq.
      { unfold Qcle, Qclt in *. rewrite this_div.
        change (this 1) with 1%Q. change (this 0) with 0%Q in *.
        apply Qle_shift_div_l; lra. }
      pose proof (binary64_not_NaN (ra / rb)).
      destruct (binary64 (ra / rb)) as [q| | |] eqn:Eq; try done;
        cbn [clamp01].
      * apply binary64_Fin in Eq. rewrite clamp_high; [done|].
        rewrite Eq, <- round64_1. by apply round64_mono.
      * apply binary64_NegInf in Eq. exfalso.
        unfold Qcle, Qclt in *. change (this 1) with 1%Q in *.
        change (this 0) with 0%Q in *. lra.
    + rewrite bool_decide_eq_true_2; [done|]. by apply Qclt_le_weak.
    + apply binary64_NegInf in Ea. exfalso.
      unfold Qcle, Qclt in *. rewrite this_minus in Ea.
      change (this 0) with 0%Q in *. lra.
  - intros Hlt Hle Hfin.
    assert (match b with Fin rb => 0 < rb | PosInf => True | _ => False end)
      as Hb.
    { destruct b as [rb| | |] eqn:Eb; try done.
      - apply binary64_Fin in Eb. rewrite Eb. by apply round64_difference.
      - apply binary64_NegInf in Eb.
        unfold Qcle, Qclt in *. rewrite this_minus in Eb.
        change (this 0) with 0%Q in *. lra. }
    assert (match a with Fin ra => ra ≤ 0 | NegInf => True | _ => False end)
      as Ha.
    { destruct a as [ra| | |] eqn:Ea; try done.
      - apply binary64_Fin in Ea. rewrite Ea. apply round64_nonpos.
        unfold Qcle in *. rewrite this_minus. change (this 0) with 0%Q. lra.
      - apply binary64_PosInf_pos in Ea.
        unfold Qcle, Qclt in *. rewrite this_minus in Ea.
        change (this 0) with 0%Q in *. lra. }
    destruct a as [ra| | |], b as [rb| | |]; try done;
      cbn [number_div clamp01].
    + rewrite bool_decide_eq_false_2
        by (intros ->; by apply Qclt_not_eq in Hb).
      assert (ra / rb ≤ 0) as Hq.
      { unfold Qcle, Qclt in *. rewrite this_div.
        change (this 0) with 0%Q in *.
        apply Qle_shift_div_r; lra. }
      pose proof (binary64_not_NaN (ra / rb)).
      destruct (binary64 (ra / rb)) as [q| | |] eqn:Eq; try done;
        cbn [clamp01].
      * apply binary64_Fin in Eq. rewrite clamp_low; [done|].
        rewrite Eq. by apply round64_nonpos.
      * apply binary64_PosInf_pos in Eq. exfalso.
        unfold Qcle, Qclt in *. change (this 0) with 0%Q in *. lra.
    + rewrite bool_decide_eq_true_2; [done|]. by apply Qclt_le_weak.
    + by destruct Hfin.
Qed.

Lemma binary64_Z (n : Z) :
  (Z.abs n < 2 ^ 53)%Z → binary64 (Qc_of_Z n) = Fin (Qc_of_Z n).
Proof.
  intros Hn. unfold binary64. cbv zeta. rewrite round64_Z by done.
  destruct (Qle_bool (pow2 1024) (Qabs (this (Qc_of_Z n)))) eqn:E; [|done].
  apply Qle_bool_iff in E. exfalso.
  change (Qabs (this (Qc_of_Z n))) with (inject_Z (Z.abs n)) in E.
  rewrite pow2_Z in E by done. rewrite <- Zle_Qle in E.
  assert (2 ^ 53 < 2 ^ 1024)%Z by (apply Z.pow_lt_mono_r; lia). lia.
Qed.

Lemma Qfloor_nonneg (x : Qc) : 0 ≤ x → (0 ≤ Qfloor (this x))%Z.
Proof.
  unfold Qcle. change (this 0) with 0%Q. intros Hx.
  rewrite <- (Qfloor_Z 0). by apply Qfloor_resp_le.
Qed.

Lemma getColorFromGradient_defined (colors : list string)
    (value min max : Qc) :
  colors ≠ [] →
  binary64 value = Fin value → binary64 min = Fin min →
  binary64 max = Fin max →
  min = max ∨ is_finite (binary64 (value - min)) = true
  ∨ is_finite (binary64 (max - min)) = true →
  ∃ c, getColorFromGradient colors value min max = IsColour c.
Proof.
  intros Hne Hvalue Hmin Hmax Hfin.
  assert (0 < length colors)%nat as Hlen by (destruct colors; [done|simpl; lia]).
  unfold getColorFromGradient. case_bool_decide as Heq.
  - destruct (colour_at_Some colors (Z.of_nat (length colors) `div` 2)) as [c ->].
    + split; [apply Z.div_pos; lia|]. apply Z.div_lt_upper_bound; lia.
    + by eexists.
  - destruct Hfin as [?|Hfin]; [done|].
    destruct (gradient_unit value min max Hvalue Hmin Hmax Heq)
      as (_ & Hunit & _).
    destruct (Hunit Hfin) as (t & -> & H0 & H1). cbv zeta.
    assert (0 ≤ round64 (t * Qc_of_Z (Z.of_nat (length colors) - 1))) as Hs.
    { apply round64_nonneg.
      assert (0 ≤ Qc_of_Z (Z.of_nat (length colors) - 1)) as Hn
        by (rewrite <- Z2Qc_inj_0; apply (proj1 (Z2Qc_inj_le 0 _)); lia).
      unfold Qcle in *. rewrite this_mult. change (this 0) with 0%Q in *.
      by apply Qmult_le_0_compat. }
    apply Qfloor_nonneg in Hs.
    set (i := Qfloor _) in *. clearbody i.
    case_bool_decide as Hn.
    + destruct (colour_at_Some colors (Z.of_nat (length colors) - 1)) as [c ->];
        [lia|]. by eexists.
    + destruct (colour_at_Some colors i) as [c1 ->]; [lia|].
      destruct (colour_at_Some colors (i + 1)) as [c2 ->]; [lia|].
      by eexists.
Qed.

(** X3.  For binary64 numbers [value], [min] and [max] and a list of at
    least one colour, [getColorFromGradient] gives a colour - it never reads
    outside the list - unless [min] and [max] differ and both [value - min]
    and [max - min] are beyond the range of binary64: then their quotient is
    NaN and [hexToRgb] throws on the colour that is not there.  With [min]
    equal to [max] the colour is the middle one; a value at or above [max]
    gives the last colour as the list has it, where [max - min] is in
    range; a value at or below [min] gives the first colour in the
    [rgb(...)] notation. *)
Theorem getColorFromGradient_saturates (colors : list string)
    (value min max : Qc) :
  colors ≠ [] → (Z.of_nat (length colors) < 2 ^ 32)%Z →
  binary64 value = Fin value → binary64 min = Fin min →
  binary64 max = Fin max →
  let a := binary64 (value - min) in
  let b := binary64 (max - min) in
  (min ≠ max → is_finite a = false → is_finite b = false →
   getColorFromGradient colors value min max = ColourError)
  ∧ (min = max ∨ is_finite a = true ∨ is_finite b = true →
     ∃ c, getColorFromGradient colors value min max = IsColour c)
  ∧ (min = max →
       ∃ c, colors !! (length colors `div` 2)%nat = Some c
          ∧ getColorFromGradient colors value min max = IsColour c)
  ∧ (min < max → max ≤ value → is_finite b = true →
       ∃ c, list.last colors = Some c
          ∧ getColorFromGradient colors value min max = IsColour c)
  ∧ (min < max → value ≤ min → is_finite a = true ∨ is_finite b = true →
       ∀ c1 c2 rest, colors = c1 :: c2 :: rest →
       getColorFromGradient colors value min max
       = IsColour (rgb_text (hexToRgb c1))).
Proof.
  intros Hne Hshort Hvalue Hmin Hmax a b.
  assert (0 < length colors)%nat as Hlen by (destruct colors; [done|simpl; lia]).
  split_and!.
  - intros Hdiff Ha Hb. unfold getColorFromGradient.
    rewrite bool_decide_eq_false_2 by done.
    destruct (gradient_unit value min max Hvalue Hmin Hmax Hdiff)
      as (Hnan & _).
    by rewrite (Hnan Ha Hb).
  - by apply getColorFromGradient_defined.
  - intros ->. unfold getColorFromGradient. rewrite bool_decide_eq_true_2 by done.
    unfold colour_at. rewrite bool_decide_eq_true_2 by (apply Z.div_pos; lia).
    replace (Z.to_nat (Z.of_nat (length colors) `div` 2))
      with (length colors `div` 2)%nat
      by (rewrite <- (Nat2Z.id (length colors `div` 2)), Nat2Z.inj_div; done).
    destruct (lookup_lt_is_Some_2 colors (length colors `div` 2)%nat) as [c Hc].
    { apply Nat.div_lt; lia. }
    exists c. by rewrite Hc.
  - intros Hlt Hge Hb. unfold getColorFromGradient.
    rewrite bool_decide_eq_false_2 by (by apply Qclt_not_eq).
    destruct (gradient_unit value min max Hvalue Hmin Hmax
                (Qclt_not_eq _ _ Hlt)) as (_ & _ & Hone & _).
    rewrite (Hone Hlt Hge Hb). cbv zeta.
    replace (1 * Qc_of_Z (Z.of_nat (length colors) - 1))
      with (Qc_of_Z (Z.of_nat (length colors) - 1)) by ring.
    rewrite round64_Z.
    2:{ assert (2 ^ 32 < 2 ^ 53)%Z by (apply Z.pow_lt_mono_r; lia). lia. }
    change (Qfloor (Qc_of_Z ?z)) with (Qfloor (inject_Z z)). rewrite Qfloor_Z.
    rewrite bool_decide_eq_true_2 by lia.
    unfold colour_at. rewrite bool_decide_eq_true_2 by lia.
    rewrite last_lookup.
    replace (Z.to_nat (Z.of_nat (length colors) - 1)) with (pred (length colors))
      by lia.
    destruct (lookup_lt_is_Some_2 colors (pred (length colors))) as [c Hc]; [lia|].
    exists c. by rewrite Hc.
  - intros Hlt Hle Hfin c1 c2 rest ->. unfold getColorFromGradient.
    rewrite bool_decide_eq_false_2 by (by apply Qclt_not_eq).
    destruct (gradient_unit value min max Hvalue Hmin Hmax
                (Qclt_not_eq _ _ Hlt)) as (_ & _ & _ & Hzero).
    rewrite (Hzero Hlt Hle Hfin). cbv zeta.
    rewrite !Qcmult_0_l, round64_0. change (Qfloor (this 0)) with 0%Z.
    rewrite bool_decide_eq_false_2 by (simpl; lia).
    unfold colour_at. simpl.
    replace (0 - Qc_of_Z 0) with (Q2Qc 0) by (by apply Qc_is_canon).
    rewrite round64_0.
    by destruct (interpolateColor_ends c1 c2) as [-> _].
Qed.

Lemma gradients_well_formed :
  Forall (λ kv : string * list string,
            kv.2 ≠ [] ∧ Forall (λ c, is_hex_colour c = true) kv.2)
         gradients.
Proof. repeat constructor; done. Qed.

(** X4.  Whatever name the gradient select holds, short of the name of a
    built-in, [getGradientColors] gives a list that is not empty and holds
    only colours written as [#] and six hexadecimal digits - the one grey
    for a name the table does not have - so that [getColorFromGradient]
    gives a colour for all binary64 numbers [value], [min] and [max] for
    which [min] is [max] or one of [value - min] and [max - min] is within
    the range of binary64. *)
Theorem getGradientColors_usable (name : string) (colors : list string) :
  getGradientColors name = Some colors →
  colors ≠ []
  ∧ Forall (λ c, is_hex_colour c = true) colors
  ∧ (JsMap.get name gradients = None → colors = ["#808080"])
  ∧ (∀ value min max,
       binary64 value = Fin value → binary64 min = Fin min →
       binary64 max = Fin max →
       min = max ∨ is_finite (binary64 (value - min)) = true
       ∨ is_finite (binary64 (max - min)) = true →
       ∃ c, getColorFromGradient colors value min max = IsColour c).
Proof.
  intros Hget.
  assert (colors ≠ [] ∧ Forall (λ c, is_hex_colour c = true) colors) as [Hne Hwf].
  { unfold getGradientColors, Obj.read in Hget.
    destruct (JsMap.get name gradients) as [own|] eqn:Hown.
    - injection Hget as <-. apply get_Some_elem in Hown.
      by apply (proj1 (Forall_forall _ _) gradients_well_formed _ Hown).
    - case_bool_decide; [done|]. injection Hget as <-.
      split; [done|]. by repeat constructor. }
  split_and!; try done.
  - intros Hnone. unfold getGradientColors, Obj.read in Hget.
    rewrite Hnone in Hget. case_bool_decide; [done|]. by injection Hget as <-.
  - intros value min max. by apply getColorFromGradient_defined.
Qed.

Lemma getGradientColors_usable_witness :
  ∃ c, getColorFromGradient ["#0000ff"; "#ff0000"] (Qc_of_Z 3) (Qc_of_Z 1)
         (Qc_of_Z 5) = IsColour c.
Proof.
  apply (proj2 (proj2 (proj2
           (getGradientColors_usable "Blue-Red" ["#0000ff"; "#ff0000"] eq_refl)))
           (Qc_of_Z 3) (Qc_of_Z 1) (Qc_of_Z 5)).
  - by apply binary64_Z.
  - by apply binary64_Z.
  - by apply binary64_Z.
  - right. left. by vm_compute.
Defined.

Lemma getColorFromGradient_saturates_witness :
  let huge := round64 (pow10 308) in
  getColorFromGradient ["#0000ff"; "#ff0000"] (Qc_of_Z 0) (Qc_of_Z 1)
    (Qc_of_Z 5)
  = IsColour (rgb_text (hexToRgb "#0000ff"))
  ∧ getColorFromGradient ["#0000ff"; "#ff0000"] huge (- huge) huge
    = ColourError.
Proof.
  intros huge.
  assert (["#0000ff"; "#ff0000"] ≠ []) as Hne by done.
  split.
  - destruct (getColorFromGradient_saturates ["#0000ff"; "#ff0000"]
                (Qc_of_Z 0) (Qc_of_Z 1) (Qc_of_Z 5) Hne)
      as (_ & _ & _ & _ & Hlow);
      [done|by apply binary64_Z|by apply binary64_Z|by apply binary64_Z|].
    apply (Hlow ltac:(apply (bool_decide_unpack _); by vm_compute)
                ltac:(apply (bool_decide_unpack _); by vm_compute)
                ltac:(left; by vm_compute)
                "#0000ff" "#ff0000" [] eq_refl).
  - destruct (getColorFromGradient_saturates ["#0000ff"; "#ff0000"]
                huge (- huge) huge Hne) as (Hnan & _);
      [done|by vm_compute|by vm_compute|by vm_compute|].
    apply Hnan; [|by vm_compute|by vm_compute].
    intros Heq. apply (f_equal (λ q : Qc, Qnum (this q))) in Heq.
    vm_compute in Heq. discriminate Heq.
Defined.

Lemma save_room_downloads (R : list Room.t) downloads roomFiles ui_data :
  (fold_left save_room R (downloads, roomFiles, ui_data)).1.1
  = downloads ++ (saved_file <$> R).
Proof.
  revert downloads roomFiles ui_data.
  induction R as [|r R IH]; intros downloads roomFiles ui_data; simpl.
  { by rewrite app_nil_r. }
  rewrite IH. by rewrite <- app_assoc.
Qed.

Lemma save_apertures_writable (s : State.t) (aps : list Aperture.t)
    (aperturesList ui_aperture_data : list jsval) :
  is_Some (save_apertures s aps aperturesList ui_aperture_data)
  ↔ Forall (λ ap, writable s ap = true) aps.
Proof.
  revert aperturesList ui_aperture_data.
  induction aps as [|ap aps IH]; intros aperturesList ui_aperture_data.
  { simpl. split; [by constructor|by eexists]. }
  rewrite Forall_cons. cbn [save_apertures]. unfold writable at 1.
  destruct (Aperture.grounded ap).
  - destruct (getRoomLabel (Aperture.rooms ap !! 0%nat) s) as [o|].
    + rewrite IH. rewrite bool_decide_eq_true_2 by by eexists. tauto.
    + rewrite bool_decide_eq_false_2 by by intros [? ?].
      split; [by intros [? ?]|by intros [? _]].
  - case_bool_decide.
    + destruct (getRoomLabel (Aperture.rooms ap !! 0%nat) s) as [o|].
      * destruct (getRoomLabel (Aperture.rooms ap !! 1%nat) s) as [d|].
        -- rewrite IH. rewrite !bool_decide_eq_true_2 by by eexists.
           tauto.
        -- rewrite (bool_decide_eq_false_2 (is_Some None)) by by intros [? ?].
           rewrite andb_false_r. split; [by intros [? ?]|by intros [? _]].
      * rewrite (bool_decide_eq_false_2 (is_Some None)) by by intros [? ?].
        split; [by intros [? ?]|by intros [? _]].
    + rewrite IH. tauto.
Qed.

Lemma path_input_from_writable (s : State.t) (aps : list Aperture.t)
    (aperture_data : list jsval) :
  is_Some (path_input_from s aps aperture_data)
  ↔ Forall (λ ap, writable s ap = true) aps.
Proof.
  revert aperture_data.
  induction aps as [|ap aps IH]; intros aperture_data.
  { simpl. split; [by constructor|by eexists]. }
  rewrite Forall_cons. cbn [path_input_from]. unfold writable at 1.
  destruct (Aperture.grounded ap).
  - destruct (getRoomLabel (Aperture.rooms ap !! 0%nat) s) as [o|].
    + rewrite IH. rewrite bool_decide_eq_true_2 by by eexists. tauto.
    + rewrite bool_decide_eq_false_2 by by intros [? ?].
      split; [by intros [? ?]|by intros [? _]].
  - case_bool_decide.
    + destruct (getRoomLabel (Aperture.rooms ap !! 0%nat) s) as [o|].
      * destruct (getRoomLabel (Aperture.rooms ap !! 1%nat) s) as [d|].
        -- rewrite IH. rewrite !bool_decide_eq_true_2 by by eexists.
           tauto.
        -- rewrite (bool_decide_eq_false_2 (is_Some None)) by by intros [? ?].
           rewrite andb_false_r. split; [by intros [? ?]|by intros [? _]].
      * rewrite (bool_decide_eq_false_2 (is_Some None)) by by intros [? ?].
        split; [by intros [? ?]|by intros [? _]].
    + rewrite IH. tauto.
Qed.

Lemma save_master_writable (s : State.t) :
  is_Some (save_master s)
  ↔ Forall (λ ap, writable s ap = true) (JsMap.values (State.apertures s)).
Proof.
  rewrite <- (save_apertures_writable s _ [] []). unfold save_master.
  destruct (fold_left save_room _ _) as [[d rf] ui].
  destruct (save_apertures s _ [] []) as [[l u]|].
  - split; intros _; eexists; reflexivity.
  - split; intros [? ?]; discriminate.
Qed.

Lemma save_downloads `{rt : Runtime} (s : State.t) :
  save s
  = match save_master s with
    | Some master =>
        Saved ((saved_file <$> JsMap.values (State.rooms s))
               ++ [mkFile "layout_master.json" (JSON_stringify master)])
    | None => SaveThrew (saved_file <$> JsMap.values (State.rooms s))
    end.
Proof.
  unfold save.
  pose proof (save_room_downloads (JsMap.values (State.rooms s)) [] [] []) as Hd.
  destruct (fold_left save_room _ _) as [[d rf] ui]. simpl in Hd. subst d.
  done.
Qed.

(** X5.  [save()] downloads one file per room, in the order of the
    registry, each named [room_<label>.json] and holding the room's text,
    before it looks at any aperture.  It goes on to the master file exactly
    when the first entry of every grounded aperture and both entries of
    every aperture with two are registered rooms; if one is not, it throws
    with the room files downloaded and no master file. *)
Theorem save_outcome `{rt : Runtime} (s : State.t) :
  let files := saved_file <$> JsMap.values (State.rooms s) in
  (Forall (λ ap, writable s ap = true) (JsMap.values (State.apertures s)) →
     ∃ master, save_master s = Some master
       ∧ save s
         = Saved (files ++ [mkFile "layout_master.json" (JSON_stringify master)]))
  ∧ (Exists (λ ap, writable s ap = false) (JsMap.values (State.apertures s)) →
     save_master s = None ∧ save s = SaveThrew files).
Proof.
  cbv zeta. rewrite save_downloads. split.
  - intros [master Hm]%save_master_writable. exists master. by rewrite Hm.
  - intros Hex. destruct (save_master s) as [master|] eqn:Hm; [|done].
    exfalso. assert (is_Some (save_master s)) as Hs by by eexists.
    apply save_master_writable in Hs.
    apply Exists_exists in Hex as (ap & Hin & Hw).
    rewrite Forall_forall in Hs. specialize (Hs ap Hin). congruence.
Qed.

Lemma path_input_from_ends (s : State.t) (aps : list Aperture.t)
    (acc l1 l2 paths ds us : list jsval) :
  Forall2 same_ends acc l1 →
  path_input_from s aps acc = Some paths →
  save_apertures s aps l1 l2 = Some (ds, us) →
  Forall2 same_ends paths ds.
Proof.
  revert acc l1 l2.
  induction aps as [|ap aps IH]; intros acc l1 l2 Hacc Hp Hs.
  { simpl in *. by simplify_eq. }
  cbn [path_input_from save_apertures] in Hp, Hs.
  destruct (Aperture.grounded ap).
  - destruct (getRoomLabel (Aperture.rooms ap !! 0%nat) s) as [o|]; [|done].
    eapply IH; [|done..]. apply Forall2_app; [done|].
    by repeat constructor.
  - case_bool_decide; [|by eapply IH].
    destruct (getRoomLabel (Aperture.rooms ap !! 0%nat) s) as [o|]; [|done].
    destruct (getRoomLabel (Aperture.rooms ap !! 1%nat) s) as [d|]; [|done].
    eapply IH; [|done..]. apply Forall2_app; [done|].
    by repeat constructor.
Qed.

Lemma path_input_from_ids (s : State.t) (aps : list Aperture.t)
    (acc paths : list jsval) :
  path_input_from s aps acc = Some paths →
  field "id" <$> paths
  = (field "id" <$> acc)
    ++ ((λ ap, VStr (Aperture.id ap))
          <$> filter (λ ap, described ap = true) aps).
Proof.
  revert acc.
  induction aps as [|ap aps IH]; intros acc Hp.
  { simpl in *. simplify_eq. by rewrite app_nil_r. }
  cbn [path_input_from] in Hp. rewrite filter_cons.
  destruct (Aperture.grounded ap) eqn:Hg.
  - destruct (getRoomLabel (Aperture.rooms ap !! 0%nat) s) as [o|]; [|done].
    rewrite decide_True by (unfold described; by rewrite Hg).
    rewrite (IH _ Hp), fmap_app, <- app_assoc. done.
  - case_bool_decide as Hlen.
    + destruct (getRoomLabel (Aperture.rooms ap !! 0%nat) s) as [o|]; [|done].
      destruct (getRoomLabel (Aperture.rooms ap !! 1%nat) s) as [d|]; [|done].
      rewrite decide_True
        by (unfold described; by rewrite Hg, bool_decide_eq_true_2).
      rewrite (IH _ Hp), fmap_app, <- app_assoc. done.
    + rewrite decide_False
        by (unfold described; by rewrite Hg, bool_decide_eq_false_2).
      by apply IH.
Qed.

(** X6.  [path_input()] and the aperture loop of [save()] walk the same
    apertures: one throws exactly when the other does; otherwise the entry
    [path_input] makes for an aperture has the origin and the destination of
    the descriptor [save] writes for it, and the entries carry, in order,
    the identifiers of the apertures that are grounded or have two entries
    in [rooms]. *)
Theorem path_input_matches_save (s : State.t) :
  (is_Some (path_input s) ↔ is_Some (save_master s))
  ∧ (∀ paths master,
       path_input s = Some paths → save_master s = Some master →
       ∃ descriptors,
         field "apertures" master = VArr descriptors
         ∧ Forall2 same_ends paths descriptors
         ∧ field "id" <$> paths
           = (λ ap, VStr (Aperture.id ap))
               <$> filter (λ ap, described ap = true)
                     (JsMap.values (State.apertures s))).
Proof.
  split.
  - unfold path_input. by rewrite path_input_from_writable, save_master_writable.
  - intros paths master Hp Hm. unfold path_input, save_master in *.
    destruct (fold_left save_room _ _) as [[d rf] ui].
    destruct (save_apertures s _ [] []) as [[ds us]|] eqn:Hs; [|done].
    injection Hm as <-. exists ds. split_and!; [done| |].
    + eapply path_input_from_ends; [|done..]. constructor.
    + by rewrite (path_input_from_ids _ _ _ _ Hp).
Qed.

Lemma keys_set_present {V} (k : string) (v v0 : V) (m : list (string * V)) :
  JsMap.get k m = Some v0 → JsMap.keys (JsMap.set k v m) = JsMap.keys m.
Proof.
  unfold JsMap.keys.
  induction m as [|[k' v'] m IH]; [done|]. simpl.
  case_bool_decide as Hk; simpl; [by subst|].
  intros Hget. f_equal. by apply IH.
Qed.

Lemma keys_set_NoDup {V} (k : string) (v : V) (m : list (string * V)) :
  NoDup (JsMap.keys m) → NoDup (JsMap.keys (JsMap.set k v m)).
Proof.
  intros Hnd. destruct (JsMap.get k m) as [v0|] eqn:Hget.
  - by rewrite (keys_set_present _ _ v0).
  - rewrite set_fresh by done. unfold JsMap.keys. rewrite fmap_app.
    apply NoDup_app. split_and!; [done| |apply NoDup_singleton].
    intros x Hx [->|[]%elem_of_nil]%elem_of_cons.
    by apply get_None_keys in Hget.
Qed.

Lemma length_set {V} (k : string) (v : V) (m : list (string * V)) :
  (length (JsMap.set k v m) ≤ S (length m))%nat.
Proof.
  induction m as [|[k' v'] m IH]; simpl; [lia|].
  case_bool_decide; simpl; lia.
Qed.

Lemma save_room_entries (R : list Room.t) downloads roomFiles ui_data :
  let roomFiles' :=
    (fold_left save_room R (downloads, roomFiles, ui_data)).1.2 in
  (NoDup (JsMap.keys roomFiles) → NoDup (JsMap.keys roomFiles'))
  ∧ (length roomFiles' ≤ length roomFiles + length R)%nat
  ∧ ∀ l,
      JsMap.get l roomFiles'
      = if bool_decide (l ∈ Room.label <$> R ∧ l ≠ "__proto__")
        then Some (VStr (room_filename l))
        else JsMap.get l roomFiles.
Proof.
  revert downloads roomFiles ui_data.
  induction R as [|r R IH]; intros downloads roomFiles ui_data; cbv zeta.
  { cbn [fold_left fst snd]. split_and!; [done|simpl; lia|]. intros l.
    rewrite bool_decide_eq_false_2; [done|]. by intros [[]%elem_of_nil _]. }
  simpl fold_left.
  destruct (IH (downloads ++ [mkFile (room_filename (Room.label r)) (Room.data r)])
              (Obj.write (Room.label r) (VStr (room_filename (Room.label r)))
                 roomFiles)
              (Obj.write (Room.label r) (room_ui_json (Room.ui r)) ui_data))
    as (Hnd & Hlen & Hget).
  cbv zeta in Hnd, Hlen, Hget. split_and!.
  - intros H. apply Hnd. unfold Obj.write. case_bool_decide; [done|].
    by apply keys_set_NoDup.
  - etrans; [apply Hlen|]. unfold Obj.write. simpl. case_bool_decide; [lia|].
    pose proof (length_set (Room.label r) (VStr (room_filename (Room.label r)))
                  roomFiles). lia.
  - intros l. rewrite Hget. rewrite fmap_cons.
    destruct (decide (l ∈ Room.label <$> R ∧ l ≠ "__proto__")) as [[Hin Hp]|Hno].
    + rewrite !bool_decide_eq_true_2; [done| |done].
      split; [by apply list_elem_of_further|done].
    + rewrite (bool_decide_eq_false_2 _ Hno). unfold Obj.write.
      destruct (decide (l = Room.label r)) as [->|Hne].
      * case_bool_decide as Hproto.
        -- rewrite bool_decide_eq_false_2; [done|]. intros [_ ?]. done.
        -- rewrite get_set_eq. rewrite bool_decide_eq_true_2; [done|].
           split; [apply list_elem_of_here|done].
      * assert (JsMap.get l
                  (if bool_decide (Room.label r = "__proto__") then roomFiles
                   else JsMap.set (Room.label r)
                          (VStr (room_filename (Room.label r))) roomFiles)
                = JsMap.get l roomFiles) as ->.
        { case_bool_decide; [done|]. by rewrite get_set_ne. }
        rewrite bool_decide_eq_false_2; [done|].
        intros [[?|?]%elem_of_cons ?]; [done|]. by apply Hno.
Qed.

(** X7.  The [rooms] object of the master file has one entry per label:
    every label borne by a registered room, other than [__proto__], is a key
    and names the file [room_<label>.json], no other key is there, and no
    key comes twice - so rooms that share a label share one entry, and the
    object has at most as many entries as there are rooms. *)
Theorem save_master_rooms (s : State.t) (master : jsval) :
  save_master s = Some master →
  ∃ roomFiles,
    field "rooms" master = VObj roomFiles
    ∧ NoDup (JsMap.keys roomFiles)
    ∧ (length roomFiles ≤ JsMap.size (State.rooms s))%nat
    ∧ ∀ l,
        JsMap.get l roomFiles
        = if bool_decide (l ∈ Room.label <$> JsMap.values (State.rooms s)
                          ∧ l ≠ "__proto__")
          then Some (VStr (room_filename l))
          else None.
Proof.
  intros Hm. unfold save_master in Hm.
  pose proof (save_room_entries (JsMap.values (State.rooms s)) [] [] [])
    as (Hnd & Hlen & Hget).
  cbv zeta in Hnd, Hlen, Hget.
  destruct (fold_left save_room _ _) as [[d rf] ui].
  destruct (save_apertures s _ [] []) as [[ds us]|]; [|done].
  injection Hm as <-. exists rf. simpl in *. split_and!; [done| | |done].
  - apply Hnd. constructor.
  - unfold JsMap.size, JsMap.values in *. rewrite length_fmap in Hlen. done.
Qed.

Lemma after_last_slash_None (s : string) :
  after_last_slash s = None ↔ slash_free s.
Proof.
  split.
  - induction s as [|c s IH]; intros Hs a b Heq.
    { destruct a; discriminate Heq. }
    simpl in Hs. destruct (after_last_slash s) eqn:Hs'; [done|].
    case_bool_decide as Hc; [done|].
    destruct a as [|c' a].
    + injection Heq as -> _. done.
    + change (String c s = String c' (a +:+ "/" +:+ b)) in Heq.
      injection Heq as -> ->. by apply (IH eq_refl a b).
  - induction s as [|c s IH]; intros Hs; [done|]. simpl.
    rewrite IH.
    + case_bool_decide as Hc; [|done]. subst c.
      exfalso. by apply (Hs "" s).
    + intros a b ->. by apply (Hs (String c a) b).
Qed.

Lemma after_last_slash_Some (s t : string) :
  after_last_slash s = Some t →
  after_last_slash t = None ∧ ∃ a, s = a +:+ "/" +:+ t.
Proof.
  revert t. induction s as [|c s IH]; intros t Hs; [done|]. simpl in Hs.
  destruct (after_last_slash s) as [t'|] eqn:Hs'.
  - injection Hs as ->. destruct (IH t eq_refl) as [Ht [a ->]].
    split; [done|]. by exists (String c a).
  - case_bool_decide as Hc; [|done]. injection Hs as ->. subst c.
    split; [done|]. by exists "".
Qed.

Lemma after_last_slash_dir (dir name : string) :
  after_last_slash name = None →
  after_last_slash (dir +:+ "/" +:+ name) = Some name.
Proof.
  intros Hn. induction dir as [|c dir IH].
  - change ("" +:+ "/" +:+ name) with (String "/" name). simpl.
    by rewrite Hn.
  - change (String c dir +:+ "/" +:+ name)
      with (String c (dir +:+ "/" +:+ name)).
    simpl. by rewrite IH.
Qed.

(** X8.  [file_name_only] - the text [load] compares with the names of the
    uploaded files - is what follows the last "/" of the file name the
    master document gives: a directory in front of a name is cut off, a name
    without "/" is kept as it is, and the result never holds a "/". *)
Theorem file_name_only_cuts_directory :
  (∀ dir name, slash_free name →
     file_name_only (dir +:+ "/" +:+ name) = name)
  ∧ (∀ name, slash_free name → file_name_only name = name)
  ∧ (∀ filename, slash_free (file_name_only filename)).
Proof.
  split_and!.
  - intros dir name Hn%after_last_slash_None. unfold file_name_only.
    by rewrite after_last_slash_dir.
  - intros name Hn%after_last_slash_None. unfold file_name_only. by rewrite Hn.
  - intros filename. apply after_last_slash_None. unfold file_name_only.
    destruct (after_last_slash filename) as [t|] eqn:Hf; simpl; [|done].
    by apply after_last_slash_Some in Hf as [? _].
Qed.

(** X9.  [findMaster] takes the first uploaded file, in the order of the
    upload, that parses to a value with truthy [rooms] and [apertures]; the
    names of the files play no part and the files behind it are not
    looked at. *)
Theorem findMaster_first `{rt : Runtime} (pre post : list File) (f : File)
    (json : jsval) :
  Forall (λ g, is_master (safeParseJSON (text g) VNull) = false) pre →
  JSON_parse (text f) = Some json →
  is_master json = true →
  findMaster (pre ++ f :: post) = Some json.
Proof.
  intros Hpre Hparse Hmaster.
  induction Hpre as [|g pre Hg _ IH]; simpl.
  - unfold safeParseJSON. by rewrite Hparse, Hmaster.
  - by rewrite Hg.
Qed.

(** ** Invariants *)

Lemma Forall_set {V} (P : string * V → Prop) (k : string) (v : V)
    (m : list (string * V)) :
  Forall P m → P (k, v) → Forall P (JsMap.set k v m).
Proof.
  intros Hm Hkv. induction Hm as [|[k' v'] m Hx Hm IH]; simpl.
  - by repeat constructor.
  - case_bool_decide; constructor; done.
Qed.

Lemma Forall_values_set {V} (P : V → Prop) (k : string) (v : V)
    (m : list (string * V)) :
  Forall P (JsMap.values m) → P v → Forall P (JsMap.values (JsMap.set k v m)).
Proof.
  unfold JsMap.values. rewrite !Forall_fmap. intros Hm Hv.
  by apply Forall_set.
Qed.


Lemma getRoomLabel_registered (rid : option string) (s : State.t) :
  is_Some (getRoomLabel rid s) ↔ ∃ id, rid = Some id ∧ registered id s.
Proof.
  unfold getRoomLabel, registered. destruct rid as [id|].
  - destruct (JsMap.get id (State.rooms s)) as [room|] eqn:Hget.
    + split; [|by eexists]. intros _. exists id. rewrite Hget.
      split; [done|by eexists].
    + split; [by intros [? ?]|]. intros (? & [= <-] & [? Hx]).
      rewrite Hget in Hx. done.
  - split; [by intros [? ?]|]. by intros (? & ? & _).
Qed.

Lemma writable_mono (s s' : State.t) (ap : Aperture.t) :
  (∀ k, registered k s → registered k s') →
  writable s ap = true → writable s' ap = true.
Proof.
  intros Hmono. unfold writable.
  assert (∀ rid, is_Some (getRoomLabel rid s) → is_Some (getRoomLabel rid s'))
    as Hlabel.
  { intros rid (id & -> & Hid)%getRoomLabel_registered.
    apply getRoomLabel_registered. exists id. split; [done|]. by apply Hmono. }
  destruct (Aperture.grounded ap).
  - intros H%bool_decide_eq_true. apply bool_decide_eq_true. by apply Hlabel.
  - case_bool_decide; [|done].
    intros [H1%bool_decide_eq_true H2%bool_decide_eq_true]%andb_true_iff.
    apply andb_true_iff. split; apply bool_decide_eq_true; by apply Hlabel.
Qed.

Lemma writable_rooms (s s' : State.t) (ap : Aperture.t) :
  State.rooms s' = State.rooms s → writable s' ap = writable s ap.
Proof.
  intros Hr. unfold writable, getRoomLabel. by rewrite Hr.
Qed.


Lemma writable_between (s : State.t) (a b id : string) area ui :
  registered a s → registered b s →
  writable s (new_Aperture id area (Some [a; b]) ui (Some false)) = true.
Proof.
  intros [ra Ha] [rb Hb]. unfold writable, getRoomLabel. simpl.
  rewrite Ha, Hb. by rewrite !bool_decide_eq_true_2 by by eexists.
Qed.

Lemma writable_grounded (s : State.t) (a side id : string) area ui :
  registered a s →
  writable s (new_Aperture id area (Some [a; side]) ui (Some true)) = true.
Proof.
  intros [ra Ha]. unfold writable, getRoomLabel. simpl.
  rewrite Ha. by rewrite !bool_decide_eq_true_2 by by eexists.
Qed.

Lemma rebuilt_createRoom `{rt : Runtime} (init : RoomInit) (s0 s : State.t) :
  rebuilt s0 s →
  rebuilt s0 (createDomRoom (createRoom init s).1 (createRoom init s).2)
  ∧ registered (Room.id (createRoom init s).1)
      (createDomRoom (createRoom init s).1 (createRoom init s).2)
  ∧ ∀ k, registered k s →
      registered k (createDomRoom (createRoom init s).1 (createRoom init s).2).
Proof.
  intros (Hsess & [Hkr Hka] & Hw).
  unfold createRoom, generateId. cbn [fst snd].
  split_and!.
  - split_and!; [done| |].
    + split; [|done]. simpl. by apply Forall_set.
    + simpl. eapply Forall_impl; [apply Hw|]. intros ap.
      apply writable_mono. intros k Hk. unfold registered in *. simpl.
      destruct (decide (randomUUID (State.uuid_calls s) = k)) as [->|Hne].
      * rewrite get_set_eq. by eexists.
      * by rewrite get_set_ne.
  - unfold registered. simpl. rewrite get_set_eq. by eexists.
  - intros k Hk. unfold registered in *. simpl.
    destruct (decide (randomUUID (State.uuid_calls s) = k)) as [->|Hne].
    + rewrite get_set_eq. by eexists.
    + by rewrite get_set_ne.
Qed.

Lemma rebuilt_aperture `{rt : Runtime} (s0 s : State.t) (ap : Aperture.t) :
  rebuilt s0 s →
  writable s ap = true →
  let s1 := State.with_apertures (JsMap.set (Aperture.id ap) ap) (generateId s).2 in
  rebuilt s0 s1
  ∧ (∀ ui,
       let ap' :=
         Aperture.mk (Aperture.id ap) (Aperture.area ap) (Aperture.grounded ap)
           (Aperture.rooms ap) ui in
       rebuilt s0 (State.with_apertures (JsMap.set (Aperture.id ap) ap') s1)).
Proof.
  intros (Hsess & [Hkr Hka] & Hw) Hap. cbv zeta.
  assert (∀ ap', writable (generateId s).2 ap' = writable s ap') as Hsame
    by (intros ap'; by apply writable_rooms).
  split.
  - split_and!; [done|split; [done|by apply Forall_set]|].
    simpl. apply Forall_values_set; [done|exact Hap].
  - intros ui. split_and!; [done|split; [done|]|].
    + simpl. apply Forall_set; [by apply Forall_set|done].
    + simpl. apply Forall_values_set; [by apply Forall_values_set|].
      exact Hap.
Qed.

Lemma rebuilt_dom `{rt : Runtime} (s0 s : State.t) (ap : Aperture.t) :
  rebuilt s0 s → rebuilt s0 (createDomAperture ap s).
Proof. by intros (Hsess & Hk & Hw). Qed.

Lemma assign_aperture_ui_cases (uiData : jsval) (i : nat) (id : string)
    (ap : Aperture.t) (s : State.t) :
  match assign_aperture_ui uiData i id ap s with
  | Ok (ap', s') =>
      (ap' = ap ∧ s' = s)
      ∨ ∃ ui,
          ap' = Aperture.mk (Aperture.id ap) (Aperture.area ap)
                  (Aperture.grounded ap) (Aperture.rooms ap) ui
          ∧ s' = State.with_apertures (JsMap.set id ap') s
  | Throws s' => s' = s
  | Unmodelled => True
  end.
Proof.
  unfold assign_aperture_ui.
  destruct uiData; try (by left);
    (destruct (field "apertures" _) as [| | | | |uis|]; try done;
     destruct (uis !! i) as [v|]; [|done];
     destruct (decode_aperture_ui v) as [ui|]; [|done];
     right; by exists ui).
Qed.

Lemma roomUIData_no_throw (uiData : jsval) (label : string) (s' : State.t) :
  roomUIData uiData label ≠ Throws s'.
Proof.
  unfold roomUIData. destruct uiData as [| | | | | |o]; try done.
  destruct (Obj.read o label) as [v| |]; try done.
  destruct (truthy v); [|done]. by destruct (decode_room_ui v).
Qed.

Lemma load_rooms_rebuilt `{rt : Runtime} (fileList : list File)
    (uiData : jsval) (entries : list (string * jsval))
    (temp_rooms : list (string * Room.t)) (s0 s : State.t) :
  rebuilt s0 s →
  (∀ l r, JsMap.get l temp_rooms = Some r → registered (Room.id r) s) →
  match load_rooms fileList uiData entries temp_rooms s with
  | Ok (temp_rooms', s') =>
      rebuilt s0 s'
      ∧ ∀ l r, JsMap.get l temp_rooms' = Some r → registered (Room.id r) s'
  | Throws s' => rebuilt s0 s'
  | Unmodelled => True
  end.
Proof.
  revert temp_rooms s.
  induction entries as [|[label filename] entries IH]; intros temp_rooms s Hs Ht.
  { simpl. done. }
  cbn [load_rooms]. destruct filename; try done.
  pose proof (roomUIData_no_throw uiData label) as Hnt.
  destruct (roomUIData uiData label) as [ui|s'|]; [|by destruct (Hnt s')|done].
  case_bool_decide; [done|].
  match goal with
  | |- context [createRoom ?x s] => set (init := x)
  end.
  destruct (rebuilt_createRoom init s0 s Hs) as (Hs' & Hroom & Hmono).
  destruct (createRoom init s) as [room sR] eqn:Hc. cbn [fst snd] in *.
  apply IH; [done|].
  intros l r. destruct (decide (label = l)) as [->|Hne].
  - rewrite get_set_eq. by intros [= <-].
  - rewrite get_set_ne by done. intros Hl. apply Hmono. by eapply Ht.
Qed.

Lemma read_Own {V} (o : list (string * V)) (k : string) (v : V) :
  Obj.read o k = Obj.Own v → JsMap.get k o = Some v.
Proof.
  unfold Obj.read. destruct (JsMap.get k o); [by intros [= ->]|].
  by case_bool_decide.
Qed.

Lemma load_apertures_rebuilt `{rt : Runtime} (uiData : jsval) (i : nat)
    (apertureData : list jsval) (temp_rooms : list (string * Room.t))
    (s0 s : State.t) :
  rebuilt s0 s →
  (∀ l r, JsMap.get l temp_rooms = Some r → registered (Room.id r) s) →
  match load_apertures uiData i apertureData temp_rooms s with
  | Ok s' => rebuilt s0 s'
  | Throws s' => rebuilt s0 s'
  | Unmodelled => True
  end.
Proof.
  revert i s.
  induction apertureData as [|ap apertureData IH]; intros i s Hs Ht.
  { done. }
  assert (∀ ap' : Aperture.t, writable s ap' = true →
          ∀ k r, JsMap.get k temp_rooms = Some r →
            registered (Room.id r)
              (State.with_apertures (JsMap.set (Aperture.id ap') ap')
                 (generateId s).2)) as Hreg.
  { intros ap' _ k r Hk. by apply (Ht k r). }
  assert (rebuilt s0 (generateId s).2) as Hgen.
  { destruct Hs as (Hsess & Hk & Hw). split_and!; try done. }
  cbn [load_apertures].
  set (fo := field "origin" ap). set (fd := field "destination" ap).
  set (fa := field "area" ap). clearbody fo fd fa.
  destruct ap; try done;
    (destruct (property_key fo) as [origin|]; [|done];
     destruct (property_key fd) as [destination|]; [|done];
     destruct (Obj.read temp_rooms origin) as [roomA| |] eqn:HA;
       [|try done; by destruct (Obj.read temp_rooms destination)
        |by apply IH];
     destruct (Obj.read temp_rooms destination) as [roomB| |] eqn:HB; [|done|]).
  all: try apply read_Own in HA; try apply read_Own in HB.
  all: try (destruct fd as [| | | |side| |]; try done).
  all: destruct (decode_area fa) as [area|]; [|done].
  all: match goal with
       | |- context [createApertureBetween ?A ?B ?a ?st] =>
           pose proof (rebuilt_aperture s0 st
                         (createApertureBetween A B a st).1 Hs
                         (writable_between st _ _ _ _ _
                            (Ht _ _ HA) (Ht _ _ HB))) as [H1 H2];
           pose proof (assign_aperture_ui_cases uiData i
                         (Aperture.id (createApertureBetween A B a st).1)
                         (createApertureBetween A B a st).1
                         (createApertureBetween A B a st).2) as Hassign;
           destruct (createApertureBetween A B a st) as [aperture sA] eqn:Hc
       | |- context [createGroundedAperture ?A ?sd ?a ?st] =>
           pose proof (rebuilt_aperture s0 st
                         (createGroundedAperture A sd a st).1 Hs
                         (writable_grounded st _ _ _ _ _ (Ht _ _ HA)))
             as [H1 H2];
           pose proof (assign_aperture_ui_cases uiData i
                         (Aperture.id (createGroundedAperture A sd a st).1)
                         (createGroundedAperture A sd a st).1
                         (createGroundedAperture A sd a st).2) as Hassign;
           destruct (createGroundedAperture A sd a st) as [aperture sA] eqn:Hc
       end.
  all: cbv zeta in H1, H2; cbn [fst snd] in *.
  all: match type of Hs with rebuilt _ ?st =>
         assert (sA = State.with_apertures
                        (JsMap.set (Aperture.id aperture) aperture)
                        (generateId st).2) as HsA
           by (unfold createApertureBetween, createGroundedAperture in Hc;
               cbn in Hc; by injection Hc as <- <-)
       end.
  all: rewrite <- HsA in H1, H2.
  all: destruct (assign_aperture_ui uiData i (Aperture.id aperture) aperture sA)
         as [[aperture' s2]| |]; [|by subst|done].
  all: apply IH; [apply rebuilt_dom|].
  all: destruct Hassign as [[-> ->]|(ui & -> & ->)]; try done.
  all: try apply H2.
  all: intros l r Hl; pose proof (Ht l r Hl) as Hr.
  all: unfold registered in *; rewrite HsA; exact Hr.
Qed.

Lemma rebuilt_reset (s : State.t) : rebuilt s (reset s).
Proof. split_and!; [done|by split; constructor|constructor]. Qed.

Lemma load_rebuilt `{rt : Runtime} (fileList : list File) (s s' : State.t) :
  load fileList s = Loaded s' ∨ load fileList s = LoadThrew s' →
  rebuilt s s'.
Proof.
  unfold load. destruct (findMaster fileList) as [master|]; [|by intros [?|?]].
  destruct (Object_entries (field "rooms" master)) as [entries|];
    [|by intros [?|?]].
  pose proof (load_rooms_rebuilt fileList (field "ui" master) entries [] s
                (reset s) (rebuilt_reset s)) as Hrooms.
  destruct (load_rooms fileList (field "ui" master) entries [] (reset s))
    as [[temp_rooms s1]|s1|].
  - destruct Hrooms as [Hs1 Htemp]; [done|].
    destruct (field "apertures" master) as [| | | | |descriptors|];
      try (intros [?|[= <-]]; done).
    pose proof (load_apertures_rebuilt (field "ui" master) 0 descriptors
                  temp_rooms s s1 Hs1 Htemp) as Haps.
    destruct (load_apertures (field "ui" master) 0 descriptors temp_rooms s1)
      as [s2|s2|]; intros [[= <-]|[= <-]]; done.
  - intros [?|[= <-]]; [done|]. by apply Hrooms.
  - by intros [?|?].
Qed.

Lemma roomUIData_plain (uiData : jsval) (label : string) :
  match uiData with VUndef | VNull | VObj _ => true | _ => false end = true →
  plain_box uiData label = true →
  ∃ ui, roomUIData uiData label = Ok ui.
Proof.
  intros Hui Hbox. destruct uiData as [| | | | | |o]; try done.
  - by eexists.
  - by eexists.
  - unfold roomUIData, Obj.read. simpl in Hbox.
    destruct (JsMap.get label o) as [v|].
    + destruct (truthy v); [|by eexists]. simpl in Hbox.
      apply bool_decide_eq_true in Hbox as [ui ->]. by eexists.
    + apply bool_decide_eq_true in Hbox. rewrite bool_decide_eq_false_2 by done.
      by eexists.
Qed.

Lemma load_rooms_plain `{rt : Runtime} (fileList : list File) (uiData : jsval)
    (entries : list (string * jsval)) (temp_rooms : list (string * Room.t))
    (s : State.t) :
  match uiData with VUndef | VNull | VObj _ => true | _ => false end = true →
  forallb (λ kv : string * jsval,
             negb (bool_decide (kv.1 = "__proto__")) && plain_box uiData kv.1)
          entries = true →
  load_rooms fileList uiData entries temp_rooms s ≠ Unmodelled.
Proof.
  intros Hui. revert temp_rooms s.
  induction entries as [|[label filename] entries IH]; intros temp_rooms s Hall;
    [done|].
  simpl in Hall. apply andb_true_iff in Hall as [Hentry Hall].
  apply andb_true_iff in Hentry as [Hlabel Hbox].
  apply negb_true_iff, bool_decide_eq_false in Hlabel.
  cbn [load_rooms]. destruct filename; try done.
  destruct (roomUIData_plain uiData label Hui Hbox) as [ui ->].
  rewrite bool_decide_eq_false_2 by done.
  destruct (createRoom _ s) as [room s1]. by apply IH.
Qed.

Lemma assign_aperture_ui_plain (uiData : jsval) (i : nat) (id : string)
    (aperture : Aperture.t) (s : State.t) :
  match uiData with VUndef | VNull | VObj _ => true | _ => false end = true →
  plain_position uiData i = true →
  assign_aperture_ui uiData i id aperture s ≠ Unmodelled.
Proof.
  intros Hui Hpos. destruct uiData as [| | | | | |o]; try done.
  unfold assign_aperture_ui, plain_position in *.
  destruct (field "apertures" (VObj o)) as [| | | | |uis|]; try done.
  destruct (uis !! i) as [v|]; [|done].
  apply bool_decide_eq_true in Hpos as [ui ->]. done.
Qed.

Lemma load_apertures_plain `{rt : Runtime} (uiData : jsval) (i : nat)
    (apertureData : list jsval) (temp_rooms : list (string * Room.t))
    (s : State.t) :
  match uiData with VUndef | VNull | VObj _ => true | _ => false end = true →
  plain_descriptors uiData i apertureData = true →
  load_apertures uiData i apertureData temp_rooms s ≠ Unmodelled.
Proof.
  intros Hui. revert i s.
  induction apertureData as [|ap rest IH]; intros i s Hall; [done|].
  simpl in Hall. apply andb_true_iff in Hall as [Hap Hall].
  specialize (IH (S i)).
  unfold plain_descriptor in Hap.
  destruct ap as [| | | | | |o]; try done.
  cbn [load_apertures].
  destruct (field "origin" (VObj o)) as [| | | |origin| |]; try done.
  destruct (field "destination" (VObj o)) as [| | | |destination| |];
    try done.
  cbn [property_key].
  destruct (Obj.read temp_rooms origin) as [roomA| |];
    [|done|by apply IH].
  assert (∃ area, decode_area (field "area" (VObj o)) = Some area
                  ∧ plain_position uiData i = true) as (area & -> & Hpos).
  { destruct (field "area" (VObj o)); try done; by eexists. }
  assert (∀ aperture s1,
            match assign_aperture_ui uiData i (Aperture.id aperture)
                    aperture s1 with
            | Ok (aperture, s2) =>
                load_apertures uiData (S i) rest temp_rooms
                  (createDomAperture aperture s2)
            | Throws s' => Throws s'
            | Unmodelled => Unmodelled
            end ≠ Unmodelled) as Hnext.
  { intros aperture s1.
    pose proof (assign_aperture_ui_plain uiData i (Aperture.id aperture)
                  aperture s1 Hui Hpos) as Hassign.
    destruct (assign_aperture_ui uiData i (Aperture.id aperture) aperture s1)
      as [[aperture' s2]| |]; [by apply IH|done|done]. }
  destruct (Obj.read temp_rooms destination) as [roomB| |]; [|done|].
  - destruct (createApertureBetween roomA roomB area s) as [aperture s1].
    apply Hnext.
  - destruct (createGroundedAperture roomA destination area s)
      as [aperture s1].
    apply Hnext.
Qed.

(** [load] is followed on a plain master document: it returns, or stops at
    a TypeError. *)
Lemma load_plain `{rt : Runtime} (fileList : list File) (master : jsval)
    (s : State.t) :
  findMaster fileList = Some master →
  plain_master master = true →
  ∃ s', load fileList s = Loaded s' ∨ load fileList s = LoadThrew s'.
Proof.
  intros Hmaster Hplain. unfold load. rewrite Hmaster.
  unfold plain_master in Hplain. cbv zeta in Hplain.
  apply andb_true_iff in Hplain as [Hplain Haps].
  apply andb_true_iff in Hplain as [Hui Hrooms].
  assert (∃ entries,
            Object_entries (field "rooms" master) = Some entries
            ∧ forallb (λ kv : string * jsval,
                         negb (bool_decide (kv.1 = "__proto__"))
                         && plain_box (field "ui" master) kv.1)
                      entries = true) as (entries & -> & Hentries).
  { destruct (field "rooms" master) as [| | | | |items|o]; try done.
    - by exists [].
    - by exists [].
    - destruct items; [|done]. by exists [].
    - by exists o. }
  pose proof (load_rooms_plain fileList (field "ui" master) entries [] (reset s)
                Hui Hentries) as Hr.
  destruct (load_rooms fileList (field "ui" master) entries [] (reset s))
    as [[temp_rooms s1]|s1|]; [|by eauto|done].
  destruct (field "apertures" master) as [| | | | |descriptors|]; try by eauto.
  pose proof (load_apertures_plain (field "ui" master) 0 descriptors temp_rooms
                s1 Hui Haps) as Ha.
  destruct (load_apertures (field "ui" master) 0 descriptors temp_rooms s1);
    [by eauto|by eauto|done].
Qed.


Lemma values_set_elem {V} (k : string) (v : V) (m : list (string * V)) :
  v ∈ JsMap.values (JsMap.set k v m).
Proof.
  unfold JsMap.values. apply list_elem_of_fmap. exists (k, v). split; [done|].
  apply get_Some_elem. apply get_set_eq.
Qed.

Lemma unwritable_unsavable `{rt : Runtime} (s : State.t) (ap : Aperture.t) :
  ap ∈ JsMap.values (State.apertures s) →
  writable s ap = false →
  save_master s = None ∧ path_input s = None
  ∧ save s = SaveThrew (saved_file <$> JsMap.values (State.rooms s)).
Proof.
  intros Hin Hw.
  assert (¬ Forall (λ ap, writable s ap = true)
              (JsMap.values (State.apertures s))) as Hno.
  { rewrite Forall_forall. intros H. specialize (H ap Hin). congruence. }
  assert (save_master s = None) as Hm.
  { destruct (save_master s) eqn:E; [|done]. exfalso. apply Hno.
    apply save_master_writable. by eexists. }
  split_and!; [done| |by rewrite save_downloads, Hm].
  destruct (path_input s) eqn:E; [|done]. exfalso. apply Hno.
  apply (path_input_from_writable s _ []). by eexists.
Qed.

(** X11.  The rooms held in [linkSelection] are not looked up again when the
    link is completed.  If the room selected first is no longer registered -
    [reset()], which [load()] runs, empties the registry and leaves link
    mode and its selection as they are - a click on a side or on a second
    room still creates the aperture, and from then on [save()] throws after
    the room files, without a master file, and [path_input()] throws. *)
Theorem link_from_unregistered_room `{rt : Runtime} (s : State.t)
    (room : Room.t) :
  State.linkMode s = true →
  State.linkSelection s = [room] →
  (¬ registered (Room.id room) s →
     (∀ side,
        let s' := linkClickBanner side s in
        save_master s' = None ∧ path_input s' = None
        ∧ save s' = SaveThrew (saved_file <$> JsMap.values (State.rooms s)))
     ∧ (∀ second el,
          let s' := linkRoom second el s in
          save_master s' = None ∧ path_input s' = None
          ∧ save s' = SaveThrew (saved_file <$> JsMap.values (State.rooms s))))
  ∧ State.linkMode (reset s) = true
  ∧ State.linkSelection (reset s) = [room]
  ∧ ¬ registered (Room.id room) (reset s).
Proof.
  intros Hmode Hsel. split_and!; [|done|done|by intros [? ?]].
  intros Hroom. split.
  - intros side. cbv zeta.
    destruct (linkClickBanner_one s room side Hmode Hsel)
      as (ap & Haps & _ & Hg & Hrooms & Hr & _).
    cbv zeta in Haps, Hr. rewrite <- Hr.
    apply (unwritable_unsavable _ ap).
    + rewrite Haps. apply values_set_elem.
    + unfold writable. rewrite Hg, Hrooms.
      change ([Room.id room; side] !! 0%nat) with (Some (Room.id room)).
      apply bool_decide_eq_false_2.
      intros (id & [= <-] & Hreg)%getRoomLabel_registered.
      apply Hroom. unfold registered in *. by rewrite <- Hr.
  - intros second el. cbv zeta.
    destruct (linkRoom_second s room second el Hmode Hsel)
      as (ap & Haps & _ & Hg & Hrooms & Hr & _).
    cbv zeta in Haps, Hr. rewrite <- Hr.
    apply (unwritable_unsavable _ ap).
    + rewrite Haps. apply values_set_elem.
    + unfold writable. rewrite Hg, Hrooms.
      change ([Room.id room; Room.id second] !! 0%nat)
        with (Some (Room.id room)).
      rewrite bool_decide_eq_true_2 by done.
      rewrite (bool_decide_eq_false_2
                 (is_Some (getRoomLabel (Some (Room.id room)) _))); [done|].
      intros (id & [= <-] & Hreg)%getRoomLabel_registered.
      apply Hroom. unfold registered in *. by rewrite <- Hr.
Qed.

Lemma values_strip (id : string) (m : list (string * Aperture.t)) :
  JsMap.values (map (λ kv, (kv.1, strip_room id kv.2)) m)
  = strip_room id <$> JsMap.values m.
Proof.
  unfold JsMap.values. induction m as [|[k v] m IH]; [done|].
  simpl. f_equal. exact IH.
Qed.

Lemma registered_removeRoom (k id : string) (s : State.t) :
  registered k (removeRoom id s) ↔ k ≠ id ∧ registered k s.
Proof.
  unfold registered. simpl. destruct (decide (k = id)) as [->|Hne].
  - rewrite get_delete_eq. split; [by intros [? ?]|by intros [? _]].
  - rewrite get_delete_ne by done. tauto.
Qed.

Lemma strip_room_writable (s : State.t) (id : string) (ap : Aperture.t) :
  attached s ap = true →
  writable (removeRoom id s) (strip_room id ap)
  = negb (Aperture.grounded ap
          && bool_decide (Aperture.rooms ap !! 0%nat = Some id)).
Proof.
  unfold attached, writable.
  destruct ap as [apid area grounded rooms ui]. cbn [Aperture.rooms
    Aperture.grounded strip_room].
  destruct rooms as [|a [|b [|c rest]]]; try done.
  intros [Ha%bool_decide_eq_true Hb]%andb_true_iff.
  change ([a; b] !! 0%nat) with (Some a).
  assert (∀ k, is_Some (getRoomLabel (Some k) (removeRoom id s))
               ↔ k ≠ id ∧ registered k s) as Hlabel.
  { intros k. rewrite getRoomLabel_registered. rewrite <- registered_removeRoom.
    split; [by intros (? & [= <-] & ?)|by eexists]. }
  rewrite !filter_cons, filter_nil.
  destruct grounded.
  - apply negb_true_iff, bool_decide_eq_false in Hb. cbn [andb].
    destruct (decide (a = id)) as [->|Hne].
    + rewrite (bool_decide_eq_true_2 (Some id = Some id)) by done.
      rewrite decide_False by (intros H; by apply H).
      assert (b ≠ id) as Hbid by (intros ->; by apply Hb).
      rewrite decide_True by done.
      change ([b] !! 0%nat) with (Some b).
      apply bool_decide_eq_false_2. rewrite Hlabel. by intros [_ ?].
    + rewrite (bool_decide_eq_false_2 (Some a = Some id)) by congruence.
      rewrite decide_True by done.
      assert (∀ l, (a :: l) !! 0%nat = Some a) as -> by done.
      apply bool_decide_eq_true_2. by rewrite Hlabel.
  - apply bool_decide_eq_true in Hb. cbn [andb negb].
    destruct (decide (a = id)) as [->|Hna], (decide (b = id)) as [->|Hnb].
    + rewrite !decide_False by (intros H; by apply H).
      by rewrite bool_decide_eq_false_2.
    + rewrite decide_False by (intros H; by apply H).
      rewrite decide_True by done. by rewrite bool_decide_eq_false_2.
    + rewrite decide_True by done.
      rewrite decide_False by (intros H; by apply H).
      by rewrite bool_decide_eq_false_2.
    + rewrite !decide_True by done.
      rewrite bool_decide_eq_true_2 by done.
      change ([a; b] !! 0%nat) with (Some a).
      change ([a; b] !! 1%nat) with (Some b).
      rewrite !bool_decide_eq_true_2; [done|..]; by rewrite Hlabel.
Qed.

(** X12.  In a layout whose apertures are as the managers make them (two
    entries: a registered room, then a registered room or, when grounded, a
    side that is no room's identifier), [removeRoom(id)] makes [save()]
    throw exactly when a grounded aperture sits on the removed room; an
    aperture between two rooms is skipped by [save()] once it has lost an
    end. *)
Theorem removeRoom_then_save (s : State.t) (id : string) :
  Forall (λ ap, attached s ap = true) (JsMap.values (State.apertures s)) →
  save_master (removeRoom id s) = None
  ↔ Exists (λ ap, Aperture.grounded ap = true
                  ∧ Aperture.rooms ap !! 0%nat = Some id)
           (JsMap.values (State.apertures s)).
Proof.
  intros Hatt.
  assert (save_master (removeRoom id s) = None
          ↔ ¬ Forall (λ ap, writable (removeRoom id s) ap = true)
                (JsMap.values (State.apertures (removeRoom id s)))) as ->.
  { rewrite <- save_master_writable.
    destruct (save_master (removeRoom id s)).
    - split; [done|]. intros H. exfalso. apply H. by eexists.
    - split; [|done]. by intros _ [? ?]. }
  change (State.apertures (removeRoom id s))
    with (map (λ kv, (kv.1, strip_room id kv.2)) (State.apertures s)).
  rewrite values_strip, Forall_fmap.
  induction Hatt as [|ap aps Hap Haps IH].
  - split; [intros H; exfalso; apply H; constructor|by intros ?%Exists_nil].
  - rewrite Forall_cons, Exists_cons. simpl.
    rewrite (strip_room_writable s id ap Hap).
    destruct (Aperture.grounded ap); simpl.
    + case_bool_decide as Hhead; simpl.
      * split; [by left|]. by intros _ [? _].
      * split.
        -- intros Hf. right. apply IH. intros Hf'. apply Hf. by split.
        -- intros [[_ ?]|Hex]; [done|]. intros [_ Hf']. by apply IH in Hex.
    + split.
      * intros Hf. right. apply IH. intros Hf'. apply Hf. by split.
      * intros [[? _]|Hex]; [done|]. intros [_ Hf']. by apply IH in Hex.
Qed.

Lemma filter_flat_map {A B} (P : B → Prop) `{∀ x, Decision (P x)}
    (f : A → list B) (l : list A) :
  filter P (flat_map f l) = flat_map (λ x, filter P (f x)) l.
Proof.
  induction l as [|x l IH]; [done|]. simpl. rewrite filter_app. f_equal.
  exact IH.
Qed.

Lemma flat_map_fmap {A B C} (f : B → list C) (g : A → B) (l : list A) :
  flat_map f (g <$> l) = flat_map (λ x, f (g x)) l.
Proof. induction l as [|x l IH]; [done|]. simpl. f_equal. exact IH. Qed.

Lemma filter_all {A} (P : A → Prop) `{∀ x, Decision (P x)} (l : list A) :
  Forall P l → filter P l = l.
Proof.
  induction 1 as [|x l Hx Hl IH]; [done|].
  rewrite filter_cons, decide_True by done. by rewrite IH.
Qed.

Lemma filter_none {A} (P : A → Prop) `{∀ x, Decision (P x)} (l : list A) :
  Forall (λ x, ¬ P x) l → filter P l = [].
Proof.
  induction 1 as [|x l Hx Hl IH]; [done|].
  by rewrite filter_cons, decide_False.
Qed.

Lemma lines_to_rooms_filter (g g' : string → list Line) (id : string)
    (rooms : list string) :
  (∀ rid, rid ≠ id → g' rid = g rid) →
  (∀ rid, Forall (λ l, roomId l = rid) (g rid)) →
  flat_map g' (filter (λ rid, rid ≠ id) rooms)
  = filter (λ l, roomId l ≠ id) (flat_map g rooms).
Proof.
  intros Hg Hid. induction rooms as [|rid rooms IH]; [done|].
  rewrite filter_cons. cbn [flat_map]. rewrite filter_app, <- IH.
  destruct (decide (rid ≠ id)) as [Hne|Heq].
  - cbn [flat_map]. f_equal. rewrite Hg by done. symmetry.
    apply (filter_all _ (g rid)). eapply Forall_impl; [apply Hid|].
    simpl. by intros l ->.
  - rewrite (filter_none _ (g rid)); [done|].
    eapply Forall_impl; [apply Hid|].
    simpl. intros l -> H. by apply Heq.
Qed.

(** X13.  [removeRoom(id)] leaves the element of the room on the canvas, but
    the renderer draws no line to it any more: the lines [update()] draws
    after [removeRoom(id)] are the lines it drew before, less those that end
    at [id], in the same order. *)
Theorem removeRoom_lines `{rt : Runtime} (s : State.t) (id : string) :
  State.canvas (State.ui (removeRoom id s)) = State.canvas (State.ui s)
  ∧ connection_lines (removeRoom id s)
    = filter (λ l, roomId l ≠ id) (connection_lines s)
  ∧ State.connectionLayer (State.ui (ConnectionRenderer_update (removeRoom id s)))
    = filter (λ l, roomId l ≠ id)
        (State.connectionLayer (State.ui (ConnectionRenderer_update s))).
Proof.
  assert (connection_lines (removeRoom id s)
          = filter (λ l, roomId l ≠ id) (connection_lines s)) as Hlines.
  { unfold connection_lines.
    change (State.apertures (removeRoom id s))
      with (map (λ kv, (kv.1, strip_room id kv.2)) (State.apertures s)).
    change (State.canvas (State.ui (removeRoom id s)))
      with (State.canvas (State.ui s)).
    change (State.rooms (removeRoom id s))
      with (JsMap.delete id (State.rooms s)).
    rewrite values_strip, flat_map_fmap, filter_flat_map.
    apply flat_map_ext. intros ap.
    change (Aperture.id (strip_room id ap)) with (Aperture.id ap).
    destruct (querySelector (Aperture.id ap) _) as [apEl|]; [|done].
    change (Aperture.rooms (strip_room id ap))
      with (filter (λ rid, rid ≠ id) (Aperture.rooms ap)).
    apply lines_to_rooms_filter.
    - intros rid Hne. by rewrite get_delete_ne.
    - intros rid. destruct (JsMap.get rid (State.rooms s)); [|constructor].
      destruct (querySelector rid _); by repeat constructor. }
  split_and!; [done|done|]. exact Hlines.
Qed.

Lemma keyed_rooms_set (s : State.t) (id : string) (room : Room.t) :
  keyed s → Room.id room = id → keyed (State.with_rooms (JsMap.set id room) s).
Proof. intros [Hr Ha] Hid. split; [by apply Forall_set|done]. Qed.

Lemma keyed_apertures_set (s : State.t) (id : string) (ap : Aperture.t) :
  keyed s → Aperture.id ap = id →
  keyed (State.with_apertures (JsMap.set id ap) s).
Proof. intros [Hr Ha] Hid. split; [done|by apply Forall_set]. Qed.

Lemma keyed_same (s s' : State.t) :
  State.rooms s' = State.rooms s → State.apertures s' = State.apertures s →
  keyed s → keyed s'.
Proof. unfold keyed. by intros -> ->. Qed.

Lemma keyed_get_room (s : State.t) (id : string) (room : Room.t) :
  keyed s → JsMap.get id (State.rooms s) = Some room → Room.id room = id.
Proof.
  intros [Hr _] Hget%get_Some_elem.
  by apply (proj1 (Forall_forall _ _) Hr _ Hget).
Qed.

Lemma keyed_get_aperture (s : State.t) (id : string) (ap : Aperture.t) :
  keyed s → JsMap.get id (State.apertures s) = Some ap → Aperture.id ap = id.
Proof.
  intros [_ Ha] Hget%get_Some_elem.
  by apply (proj1 (Forall_forall _ _) Ha _ Hget).
Qed.

Lemma Forall_filtered {A} (P Q : A → Prop) `{∀ x, Decision (Q x)}
    (l : list A) :
  Forall P l → Forall P (filter Q l).
Proof.
  rewrite !Forall_forall. intros Hl x [_ Hx]%list_elem_of_filter. by apply Hl.
Qed.

Lemma keyed_createRoom `{rt : Runtime} init s :
  keyed s → keyed (createRoom init s).2.
Proof. intros Hk. by apply keyed_rooms_set. Qed.

Lemma keyed_createApertureBetween `{rt : Runtime} A B area s :
  keyed s → keyed (createApertureBetween A B area s).2.
Proof. intros Hk. by apply keyed_apertures_set. Qed.

Lemma keyed_createGroundedAperture `{rt : Runtime} A side area s :
  keyed s → keyed (createGroundedAperture A side area s).2.
Proof. intros Hk. by apply keyed_apertures_set. Qed.

Lemma keyed_removeRoom id s : keyed s → keyed (removeRoom id s).
Proof.
  intros [Hr Ha]. split; simpl.
  - unfold JsMap.delete. by apply Forall_filtered.
  - clear Hr. induction Ha as [|[k ap] m Hx Hm IH]; simpl; constructor; done.
Qed.

Lemma keyed_removeAperture id s : keyed s → keyed (removeAperture id s).
Proof.
  intros [Hr Ha]. split; simpl; [done|].
  unfold JsMap.delete. by apply Forall_filtered.
Qed.

Lemma keyed_linkRoom `{rt : Runtime} room el s :
  keyed s → keyed (linkRoom room el s).
Proof.
  intros Hk. unfold linkRoom. destruct (negb _); [done|].
  destruct (array_has_property _ _); [done|]. cbn [State.linkSelection State.with_link].
  destruct (State.linkSelection s ++ [room]) as [|r0 [|r1 [|r2 rest]]] eqn:Hsel;
    try done.
  eapply keyed_same; [| |apply (keyed_createApertureBetween r0 r1 None), Hk];
    done.
Qed.

Lemma keyed_linkClickBanner `{rt : Runtime} side s :
  keyed s → keyed (linkClickBanner side s).
Proof.
  intros Hk. unfold linkClickBanner. destruct (negb _); [done|].
  destruct (State.linkSelection s) as [|r0 [|r1 rest]]; try done.
  eapply keyed_same;
    [| |apply (keyed_createGroundedAperture r0 side None), Hk]; done.
Qed.

Lemma keyed_onChange `{rt : Runtime} s : keyed s → keyed (onChange s).
Proof.
  intros Hk. unfold onChange. destruct (State.selected s) as [id|]; [|done].
  destruct (JsMap.get id (State.rooms s)) as [room|] eqn:Hroom.
  - apply keyed_rooms_set; [done|]. simpl. by apply (keyed_get_room s).
  - destruct (JsMap.get id (State.apertures s)) as [ap|] eqn:Hap; [|done].
    assert (keyed (check_aperture s)) as Hk'.
    { unfold check_aperture. by destruct (truthy _). }
    destruct (truthy _); [|done]. destruct (Number_ _); [|done].
    apply keyed_apertures_set; [done|]. simpl. by apply (keyed_get_aperture s).
Qed.

Lemma keyed_updateUIData id left top s :
  keyed s → keyed (updateUIData id left top s).
Proof.
  intros Hk. unfold updateUIData.
  destruct (JsMap.get id (State.rooms s)) as [room|] eqn:Hroom.
  - assert (keyed (State.with_rooms
                     (JsMap.set id (setPosition left top room)) s)) as Hk1.
    { apply keyed_rooms_set; [done|]. simpl. by apply (keyed_get_room s). }
    cbn [State.apertures State.with_rooms].
    destruct (JsMap.get id (State.apertures s)) as [ap|] eqn:Hap; [|done].
    apply keyed_apertures_set; [done|]. simpl.
    by apply (keyed_get_aperture s).
  - destruct (JsMap.get id (State.apertures s)) as [ap|] eqn:Hap; [|done].
    apply keyed_apertures_set; [done|]. simpl.
    by apply (keyed_get_aperture s).
Qed.

Lemma keyed_call_throttledRender `{rt : Runtime} now m s :
  keyed s → keyed (call_throttledRender now m s).1.2.
Proof.
  intros Hk. unfold call_throttledRender.
  destruct (throttled _ _ _) as [t []]; done.
Qed.

Lemma keyed_click_aperture `{rt : Runtime} id s :
  keyed s → keyed (click_aperture id s).
Proof.
  intros Hk. unfold click_aperture. simpl.
  destruct (JsMap.get id (State.apertures s)); [|done].
  unfold showForAperture, check_aperture. by destruct (truthy _).
Qed.

Lemma keyed_label_blur id textContent s :
  keyed s → keyed (label_blur id textContent s).
Proof.
  intros Hk. unfold label_blur.
  destruct (JsMap.get id (State.rooms s)) as [room|] eqn:Hroom; [|done].
  apply keyed_rooms_set; [done|]. simpl. by apply (keyed_get_room s).
Qed.

Lemma keyed_onDrag `{rt : Runtime} e now m s :
  keyed s → keyed (onDrag e now m s).1.2.
Proof.
  intros Hk. unfold onDrag. destruct (dragging m); [|done].
  apply keyed_call_throttledRender, keyed_updateUIData. done.
Qed.

Lemma keyed_onResize `{rt : Runtime} e now m s :
  keyed s → keyed (onResize e now m s).1.2.
Proof.
  intros Hk. unfold onResize. destruct (resizing m) as [el|]; [|done].
  apply keyed_call_throttledRender.
  cbn [State.rooms State.with_canvas State.with_ui].
  destruct (JsMap.get el (State.rooms s)) as [room|] eqn:Hroom; [|done].
  apply keyed_rooms_set; [done|]. simpl. by apply (keyed_get_room s).
Qed.

Lemma keyed_step `{rt : Runtime} (s s' : State.t) :
  manager_step s s' → keyed s → keyed s'.
Proof.
  intros Hstep Hk.
  destruct Hstep as [| | | | | | | | | | | | | | | | | | | |fileList s s' Hload];
    first
      [ by apply keyed_createRoom
      | by apply keyed_removeRoom
      | by apply keyed_createApertureBetween
      | by apply keyed_createGroundedAperture
      | by apply keyed_removeAperture
      | by apply keyed_linkRoom
      | by apply keyed_linkClickBanner
      | by apply keyed_click_aperture
      | by apply keyed_onChange
      | by apply keyed_label_blur
      | by apply keyed_onDrag
      | by apply keyed_onResize
      | by apply load_rebuilt in Hload as (_ & ? & _)
      | by split; constructor
      | done ].
Qed.

(** X14.  Every room and every aperture stays registered under its own
    [id] - the [data-id] its element carries and the handlers look it up
    by - through any sequence of calls of the managers, the editor and the
    DOM helpers other than [createAperture(data)]; a load of a plain upload
    is followed to its end and is one of them.  [createAperture(data)],
    which nothing in the repository calls, registers under the identifier
    it draws an aperture that keeps the [id] of [data]: the property
    survives it only where the two are the same. *)
Theorem registries_stay_keyed `{rt : Runtime} :
  (∀ s s', rtc manager_step s s' → keyed s → keyed s')
  ∧ (∀ fileList s,
       plain_upload fileList = true → keyed s →
       match load fileList s with
       | Loaded s' | LoadThrew s' => manager_step s s' ∧ keyed s'
       | MasterNotFound _ s' => s' = s
       | LoadUnmodelled => False
       end)
  ∧ (∀ data s,
       keyed s →
       keyed (createAperture data s).2
       ↔ data_id data = randomUUID (State.uuid_calls s)).
Proof.
  split_and!.
  - intros s s'. induction 1 as [|s1 s2 s3 Hstep _ IH]; [done|].
    intros Hk. by apply IH, (keyed_step s1).
  - intros fileList s Hplain Hk. unfold plain_upload in Hplain.
    destruct (findMaster fileList) as [master|] eqn:Hmaster.
    + destruct (load_plain fileList master s Hmaster Hplain) as [s' Hload].
      pose proof (load_rebuilt fileList s s' Hload) as (_ & Hk' & _).
      pose proof (step_load fileList s s' Hload) as Hstep.
      by destruct Hload as [-> | ->].
    + unfold load. by rewrite Hmaster.
  - intros data s Hk. unfold createAperture. cbn [generateId snd]. split.
    + intros Hk'.
      exact (keyed_get_aperture _ (randomUUID (State.uuid_calls s))
               (new_Aperture (data_id data) (data_area data) (data_rooms data)
                  (data_ui data) (data_grounded data))
               Hk' (get_set_eq _ _ _)).
    + intros Hid. by apply keyed_apertures_set.
Qed.

(** ** Dragging and resizing *)

Lemma querySelector_dataset (id : string) (doc : list DomElement)
    (node : DomElement) :
  querySelector id doc = Some node → dataset_id node = id.
Proof.
  unfold querySelector. intros (_ & H%bool_decide_eq_true)%find_some. done.
Qed.






(** ** The editor *)

Lemma set_same {V} (k : string) (v : V) (m : list (string * V)) :
  JsMap.get k m = Some v → JsMap.set k v m = m.
Proof.
  induction m as [|[k' v'] m IH]; [done|]. simpl.
  case_bool_decide as Hk; [by intros [= ->]; subst|].
  intros Hget. by rewrite IH.
Qed.

(** X17.  A click on an aperture puts [{ "area": <area> }] into the editor;
    an input event that leaves this text as it is changes no aperture.  The
    message "Area of aperture not defined" is then shown exactly when the
    aperture's area is 0, NaN or infinite.  JSON.parse is taken to read back
    what JSON.stringify wrote. *)
Theorem editor_shows_what_it_reads `{rt : Runtime} (s : State.t)
    (id : string) (ap : Aperture.t) :
  JsMap.get id (State.rooms s) = None →
  JsMap.get id (State.apertures s) = Some ap →
  (let shown := VObj [("area", VNum (Aperture.area ap))] in
   JSON_parse (JSON_stringify shown) = Some (json_norm shown)) →
  let s1 := click_aperture id s in
  State.selected s1 = Some id
  ∧ State.jsonEditorContainer (State.ui s1) = true
  ∧ State.jsonEditor (State.ui s1)
    = JSON_stringify (VObj [("area", VNum (Aperture.area ap))])
  ∧ State.jsonError (State.ui s1)
    = (match Aperture.area ap with
       | Fin q => if bool_decide (q = 0) then Some "Area of aperture not defined"
                  else None
       | _ => Some "Area of aperture not defined"
       end)
  ∧ State.apertures (onChange s1) = State.apertures s
  ∧ State.rooms (onChange s1) = State.rooms s.
Proof.
  intros Hroom Hap Hjson. cbv zeta in *.
  unfold click_aperture.
  change (State.apertures (selectElement id s)) with (State.apertures s).
  rewrite Hap. unfold showForAperture.
  assert (∀ s0, State.jsonEditor (State.ui s0)
                = JSON_stringify (VObj [("area", VNum (Aperture.area ap))]) →
          field "area" (safeParseJSON (State.jsonEditor (State.ui s0)) VNull)
          = match Aperture.area ap with
            | Fin q => VNum (Fin q)
            | _ => VNull
            end) as Hfield.
  { intros s0 ->. unfold safeParseJSON. rewrite Hjson. simpl.
    by destruct (Aperture.area ap). }
  set (s0 := State.with_jsonEditor _ _).
  assert (State.jsonEditor (State.ui s0)
          = JSON_stringify (VObj [("area", VNum (Aperture.area ap))])) as Hed
    by done.
  assert (State.jsonEditor (State.ui (check_aperture s0))
          = JSON_stringify (VObj [("area", VNum (Aperture.area ap))])) as Hed'.
  { unfold check_aperture. by destruct (truthy _). }
  split_and!.
  - unfold check_aperture. by destruct (truthy _).
  - unfold check_aperture. by destruct (truthy _).
  - exact Hed'.
  - unfold check_aperture. rewrite (Hfield s0 Hed).
    destruct (Aperture.area ap) as [q| | |]; try done. simpl.
    by case_bool_decide.
  - unfold onChange.
    assert (State.selected (check_aperture s0) = Some id) as ->
      by (unfold check_aperture; by destruct (truthy _)).
    assert (State.rooms (check_aperture s0) = State.rooms s) as ->
      by (unfold check_aperture; by destruct (truthy _)).
    assert (State.apertures (check_aperture s0) = State.apertures s) as Haps
      by (unfold check_aperture; by destruct (truthy _)).
    rewrite Hroom, Haps, Hap. rewrite (Hfield _ Hed').
    assert (∀ s2, State.apertures (check_aperture s2) = State.apertures s2)
      as Hca by (intros s2; unfold check_aperture; by destruct (truthy _)).
    destruct (Aperture.area ap) as [q| | |] eqn:Harea; simpl;
      rewrite ?Hca, ?Haps; try done.
    case_bool_decide; simpl; rewrite ?Hca, ?Haps; [done|].
    rewrite set_same; [done|].
    change (State.apertures s0) with (State.apertures s). rewrite Hap. f_equal.
    destruct ap. simpl in *. by subst.
  - unfold onChange.
    assert (State.selected (check_aperture s0) = Some id) as ->
      by (unfold check_aperture; by destruct (truthy _)).
    assert (State.rooms (check_aperture s0) = State.rooms s) as Hrs
      by (unfold check_aperture; by destruct (truthy _)).
    assert (State.apertures (check_aperture s0) = State.apertures s) as Haps
      by (unfold check_aperture; by destruct (truthy _)).
    rewrite Hrs, Hroom, Haps, Hap.
    assert (∀ s2, State.rooms (check_aperture s2) = State.rooms s2)
      as Hcr by (intros s2; unfold check_aperture; by destruct (truthy _)).
    destruct (truthy _); [destruct (Number_ _)|]; simpl;
      by rewrite ?Hcr, ?Hrs.
Qed.

Lemma linkRoom_frame `{rt : Runtime} (room : Room.t) (el : string)
    (s : State.t) :
  State.rooms (linkRoom room el s) = State.rooms s
  ∧ State.selected (linkRoom room el s) = State.selected s
  ∧ State.jsonEditor (State.ui (linkRoom room el s))
    = State.jsonEditor (State.ui s).
Proof.
  unfold linkRoom. destruct (negb _); [done|].
  destruct (array_has_property _ _); [done|].
  cbn [State.linkSelection State.with_link].
  by destruct (State.linkSelection s ++ [room]) as [|r0 [|r1 [|r2 rest]]].
Qed.

Lemma click_room_frame `{rt : Runtime} (room : Room.t) (s : State.t) :
  State.rooms (click_room room s) = State.rooms s
  ∧ State.selected (click_room room s) = Some (Room.id room).
Proof.
  unfold click_room.
  destruct (linkRoom_frame room (Room.id room)
              (showForRoom room (selectElement (Room.id room) s)))
    as (-> & -> & _).
  done.
Qed.

(** X18.  What is typed into the editor while a room is selected becomes
    the room's text as it is, valid JSON or not, and is what [save()]
    downloads for the room: after a click on the room and an input event
    with the text [txt], the downloads of [save()] - whether it goes on to
    the master file or throws - hold the file [room_<label>.json] with
    exactly [txt]. *)
Theorem typed_text_is_saved `{rt : Runtime} (s : State.t) (room : Room.t)
    (txt : string) :
  JsMap.get (Room.id room) (State.rooms s) = Some room →
  let s' := type_text txt (click_room room s) in
  State.selected s' = Some (Room.id room)
  ∧ JsMap.get (Room.id room) (State.rooms s') = Some (with_data txt room)
  ∧ (∀ k, k ≠ Room.id room →
       JsMap.get k (State.rooms s') = JsMap.get k (State.rooms s))
  ∧ mkFile (room_filename (Room.label room)) txt ∈ downloads_of (save s').
Proof.
  intros Hroom. cbv zeta.
  destruct (click_room_frame room s) as [Hr Hsel].
  revert Hr Hsel. generalize (click_room room s). intros s1 Hr Hsel.
  assert (type_text txt s1
          = State.with_rooms
              (JsMap.set (Room.id room) (with_data txt room))
              (State.with_jsonEditor txt s1)) as ->.
  { unfold type_text, onChange. simpl. by rewrite Hsel, Hr, Hroom. }
  cbn [State.selected State.rooms State.with_rooms State.with_jsonEditor
       State.with_ui].
  split_and!.
  - done.
  - apply get_set_eq.
  - intros k Hk. rewrite get_set_ne by done. by rewrite Hr.
  - rewrite save_downloads.
    assert (mkFile (room_filename (Room.label room)) txt
            ∈ saved_file <$> JsMap.values
                (JsMap.set (Room.id room) (with_data txt room)
                   (State.rooms s1))) as Hin.
    { apply list_elem_of_fmap. exists (with_data txt room). split; [done|].
      apply values_set_elem. }
    cbn [State.rooms State.with_rooms].
    destruct (save_master _); simpl; [apply elem_of_app; by left|done].
Qed.

(** X19.  [createRoom] never registers a room without a label: a label
    that is missing or empty becomes "Room " and the number of rooms
    registered so far, any other label is kept, so the fallback of the Room
    constructor is never used; the room is registered under the identifier
    it carries, after the rooms already there when the identifier is new. *)
Theorem createRoom_labels `{rt : Runtime} (init : RoomInit) (s : State.t) :
  let room := (createRoom init s).1 in
  let s' := (createRoom init s).2 in
  Room.label room ≠ ""
  ∧ Room.label room
    = (match init_label init with
       | Some label =>
           if bool_decide (label = "")
           then "Room " +:+ pretty (JsMap.size (State.rooms s))
           else label
       | None => "Room " +:+ pretty (JsMap.size (State.rooms s))
       end)
  ∧ Room.id room = randomUUID (State.uuid_calls s)
  ∧ JsMap.get (Room.id room) (State.rooms s') = Some room
  ∧ (JsMap.get (Room.id room) (State.rooms s) = None →
       State.rooms s' = State.rooms s ++ [(Room.id room, room)])
  ∧ State.apertures s' = State.apertures s.
Proof.
  cbv zeta. unfold createRoom, generateId. cbn [fst snd].
  set (fallback := "Room " +:+ pretty (JsMap.size (State.rooms s))).
  assert (fallback ≠ "") as Hfb by done.
  assert (string_or (init_label init) fallback ≠ "") as Hne.
  { unfold string_or. destruct (init_label init) as [l|]; [|done].
    by case_bool_decide. }
  unfold new_Room. cbn [Room.label Room.id State.rooms State.with_rooms
    State.apertures].
  rewrite (bool_decide_eq_false_2 _ Hne).
  split_and!; [done| |done|apply get_set_eq| |done].
  - unfold string_or. by destruct (init_label init).
  - intros Hfresh. by apply set_fresh.
Qed.

Lemma Toolbar_banner_snoc (events : list string) (event : string) :
  Toolbar_banner (events ++ [event])
  = if bool_decide (event = "ui:linkModeOn") then Some true
    else if bool_decide (event = "ui:linkModeOff") then Some false
    else Toolbar_banner events.
Proof. unfold Toolbar_banner. by rewrite fold_left_app. Qed.

Lemma banner_same (s s' : State.t) :
  State.linkMode s' = State.linkMode s →
  State.dispatched s' = State.dispatched s →
  banner_tells_link_mode s → banner_tells_link_mode s'.
Proof. unfold banner_tells_link_mode. by intros -> ->. Qed.

Lemma banner_session (s s' : State.t) :
  session s' = session s →
  banner_tells_link_mode s → banner_tells_link_mode s'.
Proof. unfold session. intros Hs. apply banner_same; congruence. Qed.

Lemma session_updateUIData (id : string) (left top : Qc) (s : State.t) :
  session (updateUIData id left top s) = session s.
Proof.
  unfold updateUIData.
  destruct (JsMap.get id (State.rooms s));
    cbn [State.apertures State.with_rooms];
    by destruct (JsMap.get id (State.apertures s)).
Qed.

Lemma session_call_throttledRender `{rt : Runtime} now m s :
  session (call_throttledRender now m s).1.2 = session s.
Proof. unfold call_throttledRender. by destruct (throttled _ _ _) as [t []]. Qed.

Lemma banner_enable (s : State.t) : banner_tells_link_mode (enableLinkMode s).
Proof.
  unfold banner_tells_link_mode, enableLinkMode. simpl.
  by rewrite Toolbar_banner_snoc.
Qed.

Lemma banner_disable (s : State.t) :
  banner_tells_link_mode (disableLinkMode s).
Proof.
  unfold banner_tells_link_mode, disableLinkMode. simpl.
  by rewrite Toolbar_banner_snoc.
Qed.

Lemma banner_step `{rt : Runtime} (s s' : State.t) :
  manager_step s s' → banner_tells_link_mode s → banner_tells_link_mode s'.
Proof.
  intros Hstep Hb.
  destruct Hstep as [| | | | | | | | | |room el s|side s| | | | | | | | |
                     fileList s s' Hload].
  all: try (by apply (banner_same s)).
  - apply banner_enable.
  - apply banner_disable.
  - unfold linkRoom. destruct (negb _); [done|].
    destruct (array_has_property _ _); [done|].
    cbn [State.linkSelection State.with_link].
    destruct (State.linkSelection s ++ [room]) as [|r0 [|r1 [|r2 rest]]];
      first [by apply (banner_same s)|apply banner_disable].
  - unfold linkClickBanner. destruct (negb _); [done|].
    destruct (State.linkSelection s) as [|r0 [|r1 rest]];
      first [by apply (banner_same s)|apply banner_disable].
  - unfold click_aperture.
    change (State.apertures (selectElement id s)) with (State.apertures s).
    destruct (JsMap.get id (State.apertures s)); [|by apply (banner_same s)].
    unfold showForAperture, check_aperture.
    destruct (truthy _); by apply (banner_same s).
  - unfold type_text, onChange.
    change (State.selected (State.with_jsonEditor txt s))
      with (State.selected s).
    destruct (State.selected s) as [id|]; [|by apply (banner_same s)].
    change (State.rooms (State.with_jsonEditor txt s)) with (State.rooms s).
    destruct (JsMap.get id (State.rooms s)); [by apply (banner_same s)|].
    change (State.apertures (State.with_jsonEditor txt s))
      with (State.apertures s).
    destruct (JsMap.get id (State.apertures s)); [|by apply (banner_same s)].
    unfold check_aperture.
    repeat destruct (truthy _); try destruct (Number_ _);
      by apply (banner_same s).
  - unfold label_blur.
    destruct (JsMap.get id (State.rooms s)); by apply (banner_same s).
  - apply (banner_session s); [|done].
    unfold onDrag. destruct (dragging m) as [el|]; [|done].
    by rewrite session_call_throttledRender, session_updateUIData.
  - apply (banner_session s); [|done].
    unfold onResize. destruct (resizing m) as [el|]; [|done].
    rewrite session_call_throttledRender.
    cbn [State.rooms State.with_canvas State.with_ui].
    by destruct (JsMap.get el (State.rooms s)).
  - apply load_rebuilt in Hload as (Hsess & _).
    by apply (banner_session s).
Qed.

(** X20.  The toolbar shows the link-mode banner exactly while link mode is
    on: [enableLinkMode] and [disableLinkMode] set mode and banner
    together from whatever state, and through any sequence of calls of the
    managers, the editor and the DOM helpers, loads included, the banner
    stays shown when link mode is on and hidden (or never touched) when it
    is off. *)
Theorem banner_follows_link_mode `{rt : Runtime} :
  banner_tells_link_mode State.initial
  ∧ (∀ s, State.linkMode (enableLinkMode s) = true
          ∧ Toolbar_banner (State.dispatched (enableLinkMode s)) = Some true)
  ∧ (∀ s, State.linkMode (disableLinkMode s) = false
          ∧ Toolbar_banner (State.dispatched (disableLinkMode s)) = Some false)
  ∧ (∀ s s', rtc manager_step s s' →
       banner_tells_link_mode s → banner_tells_link_mode s').
Proof.
  split_and!.
  - done.
  - intros s. split; [done|]. unfold enableLinkMode. simpl.
    by rewrite Toolbar_banner_snoc.
  - intros s. split; [done|]. unfold disableLinkMode. simpl.
    by rewrite Toolbar_banner_snoc.
  - induction 1 as [|s1 s2 s3 Hstep _ IH]; [done|].
    intros Hb. by apply IH, (banner_step s1).
Qed.

(** ** The page *)

Lemma one_mode_le (s s' : State.t) :
  (State.linkMode s' = true → State.linkMode s = true) →
  (State.transportPathMode s' = true → State.transportPathMode s = true) →
  (State.resultsViewMode s' = true → State.resultsViewMode s = true) →
  one_mode s → one_mode s'.
Proof.
  unfold one_mode.
  destruct (State.linkMode s), (State.transportPathMode s),
    (State.resultsViewMode s), (State.linkMode s'),
    (State.transportPathMode s'), (State.resultsViewMode s');
    intros H1 H2 H3 H; intuition congruence.
Qed.

Lemma one_mode_modes (s s' : State.t) :
  modes s' = modes s → one_mode s → one_mode s'.
Proof. unfold modes, one_mode. intros [= -> -> ->]. done. Qed.

Lemma modes_session (s s' : State.t) :
  session s' = session s → modes s' = modes s.
Proof. unfold session, modes. congruence. Qed.

(** What each call of a handler's body does to the flags, the registries,
    the rooms picked for a link and the list of paths. *)
Lemma clearSelection_fields (p : Page) :
  let q := with_state clearSelection p in
  modes (state q) = modes (state p)
  ∧ State.rooms (state q) = State.rooms (state p)
  ∧ State.apertures (state q) = State.apertures (state p)
  ∧ State.linkSelection (state q) = State.linkSelection (state p)
  ∧ tranportPathList_display q = tranportPathList_display p.
Proof. done. Qed.

Lemma disableLinkMode_fields (p : Page) :
  let q := with_state disableLinkMode p in
  modes (state q)
  = (false, State.transportPathMode (state p),
     State.resultsViewMode (state p))
  ∧ State.rooms (state q) = State.rooms (state p)
  ∧ State.apertures (state q) = State.apertures (state p)
  ∧ State.linkSelection (state q) = []
  ∧ tranportPathList_display q = tranportPathList_display p.
Proof. done. Qed.

Lemma enableLinkMode_fields (p : Page) :
  let q := with_state enableLinkMode p in
  modes (state q)
  = (true, State.transportPathMode (state p),
     State.resultsViewMode (state p))
  ∧ State.rooms (state q) = State.rooms (state p)
  ∧ State.apertures (state q) = State.apertures (state p)
  ∧ State.linkSelection (state q) = []
  ∧ tranportPathList_display q = tranportPathList_display p.
Proof. done. Qed.

Lemma TransportPathManager_end_fields (p : Page) :
  let q := TransportPathManager_end p in
  modes (state q)
  = (State.linkMode (state p), false, State.resultsViewMode (state p))
  ∧ State.rooms (state q) = State.rooms (state p)
  ∧ State.apertures (state q) = State.apertures (state p)
  ∧ State.linkSelection (state q) = State.linkSelection (state p)
  ∧ (list_follows_mode p → list_follows_mode q).
Proof.
  cbv zeta. unfold TransportPathManager_end, modes, list_follows_mode.
  destruct (State.transportPathMode (state p)) eqn:E; simpl; rewrite ?E.
  all: done.
Qed.

Lemma ResultsViewManager_end_fields (p : Page) :
  let q := ResultsViewManager_end p in
  modes (state q)
  = (State.linkMode (state p), State.transportPathMode (state p), false)
  ∧ State.rooms (state q) = State.rooms (state p)
  ∧ State.apertures (state q) = State.apertures (state p)
  ∧ State.linkSelection (state q) = State.linkSelection (state p)
  ∧ tranportPathList_display q = tranportPathList_display p.
Proof.
  cbv zeta. unfold ResultsViewManager_end, modes.
  destruct (State.resultsViewMode (state p)) eqn:E; simpl; rewrite ?E.
  all: done.
Qed.

Lemma ResultsViewManager_start_fields (p : Page) :
  let q := ResultsViewManager_start p in
  modes (state q)
  = (State.linkMode (state p), State.transportPathMode (state p), true)
  ∧ State.rooms (state q) = State.rooms (state p)
  ∧ State.apertures (state q) = State.apertures (state p)
  ∧ State.linkSelection (state q) = State.linkSelection (state p)
  ∧ tranportPathList_display q = tranportPathList_display p.
Proof. done. Qed.

Lemma getRoomLabel_rooms (rid : option string) (s s' : State.t) :
  State.rooms s' = State.rooms s → getRoomLabel rid s' = getRoomLabel rid s.
Proof. intros Hr. unfold getRoomLabel. by rewrite Hr. Qed.

Lemma path_input_layout (s s' : State.t) :
  State.rooms s' = State.rooms s → State.apertures s' = State.apertures s →
  path_input s' = path_input s.
Proof.
  intros Hr Ha. unfold path_input. rewrite Ha.
  generalize (@nil jsval).
  induction (JsMap.values (State.apertures s)) as [|ap aps IH]; [done|].
  intros acc. cbn [path_input_from].
  rewrite !(getRoomLabel_rooms _ s s') by done.
  destruct (Aperture.grounded ap).
  - destruct (getRoomLabel _ s); [apply IH|done].
  - case_bool_decide; [|apply IH].
    destruct (getRoomLabel _ s); [|done].
    destruct (getRoomLabel _ s); [apply IH|done].
Qed.

Lemma TransportPathManager_start_fields (p : Page) :
  let o := (TransportPathManager_start p).1 in
  let q := page_of o in
  modes (state q)
  = (State.linkMode (state p), true, State.resultsViewMode (state p))
  ∧ State.rooms (state q) = State.rooms (state p)
  ∧ State.apertures (state q) = State.apertures (state p)
  ∧ State.linkSelection (state q) = State.linkSelection (state p)
  ∧ (list_follows_mode p → list_follows_mode q)
  ∧ (is_Some (path_input (state p)) → ∃ q', o = Returned q').
Proof.
  cbv zeta. unfold TransportPathManager_start, modes, list_follows_mode.
  destruct (State.transportPathMode (state p)) eqn:E.
  - simpl. rewrite E. split_and!; try done. by eexists.
  - cbv zeta.
    rewrite (path_input_layout (state p)) by done.
    destruct (path_input (state p)); simpl; split_and!; try done.
    all: first [by eexists | by intros [? ?]].
Qed.

Lemma linkRoom_modes `{rt : Runtime} (room : Room.t) (el : string)
    (s : State.t) :
  (State.linkMode (linkRoom room el s) = true → State.linkMode s = true)
  ∧ State.transportPathMode (linkRoom room el s) = State.transportPathMode s
  ∧ State.resultsViewMode (linkRoom room el s) = State.resultsViewMode s.
Proof.
  unfold linkRoom. destruct (State.linkMode s) eqn:E; cbn [negb];
    [|by rewrite E].
  destruct (array_has_property _ _); [done|].
  cbn [State.linkSelection State.with_link].
  by destruct (State.linkSelection s ++ [room]) as [|r0 [|r1 [|r2 rest]]].
Qed.

Lemma linkClickBanner_modes `{rt : Runtime} (side : string) (s : State.t) :
  (State.linkMode (linkClickBanner side s) = true → State.linkMode s = true)
  ∧ State.transportPathMode (linkClickBanner side s)
    = State.transportPathMode s
  ∧ State.resultsViewMode (linkClickBanner side s) = State.resultsViewMode s.
Proof.
  unfold linkClickBanner. destruct (State.linkMode s) eqn:E; cbn [negb];
    [|by rewrite E].
  by destruct (State.linkSelection s) as [|r0 [|r1 rest]].
Qed.

Lemma onChange_modes `{rt : Runtime} (s : State.t) :
  modes (onChange s) = modes s.
Proof.
  unfold onChange. destruct (State.selected s) as [id|]; [|done].
  destruct (JsMap.get id (State.rooms s)); [done|].
  destruct (JsMap.get id (State.apertures s)); [|done].
  unfold check_aperture. repeat destruct (truthy _); try done.
  all: by destruct (Number_ _).
Qed.

Lemma click_aperture_fields `{rt : Runtime} (id : string) (s : State.t) :
  modes (click_aperture id s) = modes s
  ∧ State.linkSelection (click_aperture id s) = State.linkSelection s
  ∧ State.rooms (click_aperture id s) = State.rooms s
  ∧ State.apertures (click_aperture id s) = State.apertures s.
Proof.
  unfold click_aperture.
  change (State.apertures (selectElement id s)) with (State.apertures s).
  destruct (JsMap.get id (State.apertures s)); [|done].
  unfold showForAperture, check_aperture. by destruct (truthy _).
Qed.

(** What each of the two listeners keeps, both keep. *)
Lemma both_listeners_inv `{rt : Runtime} (I : State.t → Prop)
    (drag_first : bool) (e : MouseEvent) (now later : Qc)
    (m : DragResizeManager) (s : State.t) :
  (∀ e now m s, I s → I (onDrag e now m s).1.2) →
  (∀ e now m s, I s → I (onResize e now m s).1.2) →
  I s → I (both_listeners drag_first e now later m s).2.
Proof.
  intros Hdrag Hresize Hs. unfold both_listeners. destruct drag_first.
  - pose proof (Hdrag e now m s Hs) as H1.
    destruct (onDrag e now m s) as [[m1 s1] r1].
    pose proof (Hresize e later m1 s1 H1) as H2.
    by destruct (onResize e later m1 s1) as [[m2 s2] r2].
  - pose proof (Hresize e now m s Hs) as H1.
    destruct (onResize e now m s) as [[m1 s1] r1].
    pose proof (Hdrag e later m1 s1 H1) as H2.
    by destruct (onDrag e later m1 s1) as [[m2 s2] r2].
Qed.

Lemma mouse_move_session `{rt : Runtime} (e : MouseEvent) (now : Qc)
    (m : DragResizeManager) (s : State.t) :
  session (onDrag e now m s).1.2 = session s
  ∧ session (onResize e now m s).1.2 = session s.
Proof.
  split.
  - unfold onDrag. destruct (dragging m); [|done].
    by rewrite session_call_throttledRender, session_updateUIData.
  - unfold onResize. destruct (resizing m) as [el|]; [|done].
    rewrite session_call_throttledRender.
    cbn [State.rooms State.with_canvas State.with_ui].
    by destruct (JsMap.get el (State.rooms s)).
Qed.

Lemma load_not_found_state `{rt : Runtime} (files : list File)
    (s s' : State.t) (notice : string) :
  load files s = MasterNotFound notice s' → s' = s.
Proof.
  unfold load. destruct (findMaster files); [|by intros [= _ <-]].
  destruct (Object_entries _); [|done].
  destruct (load_rooms _ _ _ _ _) as [[t s1]| |]; [|done..].
  destruct (field "apertures" _); try done.
  by destruct (load_apertures _ _ _ _ _).
Qed.

Lemma relink_modes (s : State.t) : modes (relink s) = modes s.
Proof. done. Qed.



















Lemma ui_step_modes `{rt : Runtime} (event : UIEvent) (p : Page)
    (o : Outcome) :
  ui_step event p = Some o →
  one_mode (state p) →
  match o with
  | Returned p' => one_mode (state p')
  | Thrown p' =>
      match event with
      | DeducePathsClick =>
          modes (state p') = (false, true, State.resultsViewMode (state p))
      | _ => one_mode (state p')
      end
  end.
Proof.
  intros Hstep Hone. destruct event; cbn [ui_step] in Hstep.
  - (* add room *)
    cbv zeta in Hstep.
    pose proof (clearSelection_fields p) as (Hm0 & _).
    set (p0 := with_state clearSelection p) in *.
    pose proof (TransportPathManager_end_fields p0) as (Hm1 & _).
    set (p1 := TransportPathManager_end p0) in *.
    pose proof (ResultsViewManager_end_fields p1) as (Hm2 & _).
    set (p2 := ResultsViewManager_end p1) in *. clearbody p0 p1 p2.
    destruct (createRoom _ (state p2)) as [room s] eqn:Hc.
    injection Hstep as <-.
    assert (modes s = modes (state p2)) as Hm.
    { unfold createRoom in Hc. by injection Hc as <- <-. }
    unfold modes in *. simplify_eq. right. right. simpl. split; congruence.
  - (* add aperture *)
    cbv zeta in Hstep.
    pose proof (clearSelection_fields p) as (Hm0 & _).
    set (p0 := with_state clearSelection p) in *.
    pose proof (TransportPathManager_end_fields p0) as (Hm1 & _).
    set (p1 := TransportPathManager_end p0) in *.
    pose proof (ResultsViewManager_end_fields p1) as (Hm2 & _).
    set (p2 := ResultsViewManager_end p1) in *.
    pose proof (enableLinkMode_fields p2) as (Hm3 & _).
    clearbody p0 p1 p2. injection Hstep as <-.
    unfold modes in *. simplify_eq. right. right. split; congruence.
  - (* deduce *)
    cbv zeta in Hstep.
    pose proof (clearSelection_fields p) as (Hm0 & _).
    set (p0 := with_state clearSelection p) in *.
    pose proof (disableLinkMode_fields p0) as (Hm1 & _).
    set (p1 := with_state disableLinkMode p0) in *.
    pose proof (TransportPathManager_start_fields p1) as (Hm2 & _).
    clearbody p0 p1.
    destruct ((TransportPathManager_start p1).1) as [p2|p2]; simplify_eq.
    + pose proof (ResultsViewManager_end_fields p2) as (Hm3 & _).
      simpl in Hm2. unfold modes in *. simplify_eq.
      right. left. split; congruence.
    + simpl in Hm2.
      unfold modes in *. simplify_eq. congruence.
  - (* save *)
    destruct (save (state p)); by simplify_eq.
  - (* files *)
    pose proof (load_rebuilt files (state p)) as Hl.
    destruct (load files (state p)) as [s'|n s'|s'|] eqn:E; simplify_eq.
    + simpl. destruct (Hl s' (or_introl eq_refl)) as (Hs & _).
      apply (one_mode_modes (state p)); [|done]. by apply modes_session.
    + simpl. by apply load_not_found_state in E as ->.
    + simpl.
      destruct (Hl s' (or_intror eq_refl)) as (Hs & _).
      apply (one_mode_modes (state p)); [|done]. by apply modes_session.
  - (* results file *)
    cbv zeta in Hstep.
    pose proof (clearSelection_fields p) as (Hm0 & _).
    set (p0 := with_state clearSelection p) in *.
    pose proof (disableLinkMode_fields p0) as (Hm1 & _).
    set (p1 := with_state disableLinkMode p0) in *.
    pose proof (TransportPathManager_end_fields p1) as (Hm2 & _).
    set (p2 := TransportPathManager_end p1) in *.
    pose proof (ResultsViewManager_start_fields p2) as (Hm3 & _).
    clearbody p0 p1 p2. injection Hstep as <-.
    unfold modes in *. simplify_eq. left. split; congruence.
  - (* canvas *)
    cbv zeta in Hstep.
    pose proof (clearSelection_fields p) as (Hm0 & _).
    set (p0 := with_state clearSelection p) in *.
    pose proof (disableLinkMode_fields p0) as (Hm1 & _).
    set (p1 := with_state disableLinkMode p0) in *.
    pose proof (TransportPathManager_end_fields p1) as (Hm2 & _).
    clearbody p0 p1. injection Hstep as <-.
    unfold modes in *. simplify_eq. left. split; congruence.
  - (* key *)
    case_bool_decide; [|by simplify_eq]. cbv zeta in Hstep.
    pose proof (clearSelection_fields p) as (Hm0 & _).
    set (p0 := with_state clearSelection p) in *.
    pose proof (disableLinkMode_fields p0) as (Hm1 & _).
    set (p1 := with_state disableLinkMode p0) in *.
    pose proof (TransportPathManager_end_fields p1) as (Hm2 & _).
    set (p2 := TransportPathManager_end p1) in *.
    pose proof (ResultsViewManager_end_fields p2) as (Hm3 & _).
    clearbody p0 p1 p2. injection Hstep as <-.
    unfold modes in *. simplify_eq. left. split; congruence.
  - (* banner *)
    injection Hstep as <-. simpl.
    destruct (linkClickBanner_modes (side_name side) (state p)) as (? & ? & ?).
    apply (one_mode_le (state p)); [done|congruence|congruence|done].
  - (* room click *)
    destruct (element_on_canvas _ _ _); [|done].
    destruct (JsMap.get id _) as [room|]; [|done].
    case_bool_decide; [|done].
    destruct on_handle; injection Hstep as <-; [done|]. simpl.
    unfold click_room.
    destruct (linkRoom_modes room (Room.id room)
                (showForRoom room (selectElement (Room.id room) (state p))))
      as (H1 & H2 & H3).
    apply (one_mode_le (state p)); [exact H1|..|done].
    + by rewrite H2.
    + by rewrite H3.
  - (* aperture click *)
    destruct (element_on_canvas _ _ _); [|done].
    destruct (JsMap.get id _); [|done]. injection Hstep as <-. simpl.
    destruct (click_aperture_fields id (state p)) as (Hm & _).
    by apply (one_mode_modes (state p)).
  - (* mouse down *)
    destruct (_ || _); [|done]. by injection Hstep as <-.
  - (* mouse move *)
    destruct (mouse_move_session e now (dragResizeManager p) (state p))
      as [Hd Hr].
    pose proof (both_listeners_inv (λ s, session s = session (state p))
                  (drag_listens_first p) e now later (dragResizeManager p)
                  (state p)
                  (λ e now m s H,
                     eq_trans (proj1 (mouse_move_session e now m s)) H)
                  (λ e now m s H,
                     eq_trans (proj2 (mouse_move_session e now m s)) H)
                  eq_refl) as Hboth.
    destruct (dragging _), (resizing _); try done.
    + destruct (both_listeners _ _ _ _ _ _) as [m' s'].
      injection Hstep as <-.
      apply (one_mode_modes (state p)); [|done].
      exact (modes_session _ _ Hboth).
    + destruct (onDrag _ _ _ _) as [[m' s'] ran]. injection Hstep as <-.
      apply (one_mode_modes (state p)); [|done].
      exact (modes_session _ _ Hd).
    + destruct (onResize _ _ _ _) as [[m' s'] ran]. injection Hstep as <-.
      apply (one_mode_modes (state p)); [|done].
      exact (modes_session _ _ Hr).
    + by injection Hstep as <-.
  - (* mouse up *)
    by injection Hstep as <-.
  - (* label *)
    destruct (element_on_canvas _ _ _); [|done].
    destruct (JsMap.get id _) as [room|] eqn:Hroom; [|done].
    injection Hstep as <-. apply (one_mode_modes (state p)); [|done].
    cbn [state with_state]. rewrite relink_modes.
    unfold label_blur. simpl. by rewrite Hroom.
  - (* editor *)
    injection Hstep as <-. apply (one_mode_modes (state p)); [|done].
    cbn [state with_state]. rewrite relink_modes. unfold type_text.
    by rewrite onChange_modes.
  - (* paths *)
    by injection Hstep as <-.
Qed.

Lemma list_follows_frame (p q : Page) :
  tranportPathList_display q = tranportPathList_display p →
  modes (state q) = modes (state p) ∨
  State.transportPathMode (state q) = State.transportPathMode (state p) →
  list_follows_mode p → list_follows_mode q.
Proof.
  unfold list_follows_mode, modes. intros -> [[= _ -> _]| ->]; done.
Qed.

Lemma list_follows_with_state (f : State.t → State.t) (p : Page) :
  State.transportPathMode (f (state p)) = State.transportPathMode (state p) →
  list_follows_mode p → list_follows_mode (with_state f p).
Proof. intros Hf. apply list_follows_frame; [done|by right]. Qed.

(** The calls a handler of the toolbar starts with. *)
Lemma list_follows_clear_end (p : Page) :
  list_follows_mode p →
  list_follows_mode
    (ResultsViewManager_end
       (TransportPathManager_end (with_state clearSelection p))).
Proof.
  intros Hp.
  destruct (TransportPathManager_end_fields (with_state clearSelection p))
    as (_ & _ & _ & _ & H1).
  set (p1 := TransportPathManager_end _) in *.
  destruct (ResultsViewManager_end_fields p1) as (Hm & _ & _ & _ & Hs).
  apply (list_follows_frame p1); [done| |by apply H1].
  right. unfold modes in Hm. congruence.
Qed.

Lemma list_follows_clear_disable_end (p : Page) :
  list_follows_mode p →
  list_follows_mode
    (TransportPathManager_end
       (with_state disableLinkMode (with_state clearSelection p))).
Proof.
  intros Hp.
  destruct (TransportPathManager_end_fields
              (with_state disableLinkMode (with_state clearSelection p)))
    as (_ & _ & _ & _ & H1).
  by apply H1.
Qed.

Lemma ui_step_list_follows `{rt : Runtime} (event : UIEvent) (p : Page)
    (o : Outcome) :
  ui_step event p = Some o →
  list_follows_mode p → list_follows_mode (page_of o).
Proof.
  intros Hstep Hp. destruct event; cbn [ui_step] in Hstep.
  - (* add room *)
    cbv zeta in Hstep. pose proof (list_follows_clear_end p Hp) as H2.
    set (p2 := ResultsViewManager_end _) in *. clearbody p2.
    destruct (createRoom _ (state p2)) as [room s] eqn:Hc.
    injection Hstep as <-.
    apply (list_follows_frame p2); [done| |done].
    left. unfold createRoom in Hc. by injection Hc as <- <-.
  - (* add aperture *)
    injection Hstep as <-. cbn [page_of].
    pose proof (list_follows_clear_end p Hp) as H2.
    set (p2 := ResultsViewManager_end _) in *. clearbody p2.
    by apply list_follows_with_state.
  - (* deduce *)
    cbv zeta in Hstep.
    set (p1 := with_state disableLinkMode (with_state clearSelection p)) in *.
    assert (list_follows_mode p1) as H1 by done.
    pose proof (TransportPathManager_start_fields p1)
      as (_ & _ & _ & _ & Hs2 & _).
    clearbody p1.
    destruct ((TransportPathManager_start p1).1) as [p2|p2]; simplify_eq.
    + cbn [page_of] in *.
      destruct (ResultsViewManager_end_fields p2) as (Hm & _ & _ & _ & Hs).
      apply (list_follows_frame p2); [done| |by apply Hs2].
      right. unfold modes in Hm. congruence.
    + cbn [page_of] in *. by apply Hs2.
  - (* save *)
    destruct (save (state p)); by simplify_eq.
  - (* files *)
    pose proof (load_rebuilt files (state p)) as Hl.
    destruct (load files (state p)) as [s'|n s'|s'|] eqn:E; simplify_eq.
    + destruct (Hl s' (or_introl eq_refl)) as (Hs%modes_session & _).
      apply (list_follows_frame p); [done|by left|done].
    + by apply load_not_found_state in E as ->.
    + destruct (Hl s' (or_intror eq_refl)) as (Hs%modes_session & _).
      apply (list_follows_frame p); [done|by left|done].
  - (* results file *)
    injection Hstep as <-. cbn [page_of].
    pose proof (list_follows_clear_disable_end p Hp) as H2.
    set (p2 := TransportPathManager_end _) in *. clearbody p2.
    by apply (list_follows_frame p2); [|right|].
  - (* canvas *)
    injection Hstep as <-. cbn [page_of].
    by apply list_follows_clear_disable_end.
  - (* key *)
    case_bool_decide; [|by simplify_eq]. injection Hstep as <-.
    cbn [page_of].
    pose proof (list_follows_clear_disable_end p Hp) as H2.
    set (p2 := TransportPathManager_end _) in *. clearbody p2.
    destruct (ResultsViewManager_end_fields p2) as (Hm & _ & _ & _ & Hs).
    apply (list_follows_frame p2); [done| |done].
    right. unfold modes in Hm. congruence.
  - (* banner *)
    injection Hstep as <-. apply list_follows_with_state; [|done].
    by destruct (linkClickBanner_modes (side_name side) (state p))
      as (_ & -> & _).
  - (* room click *)
    destruct (element_on_canvas _ _ _); [|done].
    destruct (JsMap.get id _) as [room|]; [|done].
    case_bool_decide; [|done].
    destruct on_handle; injection Hstep as <-; [done|].
    apply list_follows_with_state; [|done]. unfold click_room.
    by destruct (linkRoom_modes room (Room.id room)
                (showForRoom room (selectElement (Room.id room) (state p))))
      as (_ & -> & _).
  - (* aperture click *)
    destruct (element_on_canvas _ _ _); [|done].
    destruct (JsMap.get id _); [|done]. injection Hstep as <-.
    apply list_follows_with_state; [|done].
    destruct (click_aperture_fields id (state p)) as (Hm & _).
    unfold modes in Hm. congruence.
  - (* mouse down *)
    destruct (_ || _); [|done]. by injection Hstep as <-.
  - (* mouse move *)
    destruct (mouse_move_session e now (dragResizeManager p) (state p))
      as [Hd%modes_session Hr%modes_session].
    pose proof (both_listeners_inv (λ s, session s = session (state p))
                  (drag_listens_first p) e now later (dragResizeManager p)
                  (state p)
                  (λ e now m s H,
                     eq_trans (proj1 (mouse_move_session e now m s)) H)
                  (λ e now m s H,
                     eq_trans (proj2 (mouse_move_session e now m s)) H)
                  eq_refl) as Hboth%modes_session.
    destruct (dragging _), (resizing _); try done.
    + destruct (both_listeners _ _ _ _ _ _) as [m' s'].
      injection Hstep as <-.
      apply (list_follows_frame p); [done|by left|done].
    + destruct (onDrag _ _ _ _) as [[m' s'] ran]. injection Hstep as <-.
      apply (list_follows_frame p); [done|by left|done].
    + destruct (onResize _ _ _ _) as [[m' s'] ran]. injection Hstep as <-.
      apply (list_follows_frame p); [done|by left|done].
    + by injection Hstep as <-.
  - (* mouse up *)
    by injection Hstep as <-.
  - (* label *)
    destruct (element_on_canvas _ _ _); [|done].
    destruct (JsMap.get id _) as [room|] eqn:Hroom; [|done].
    injection Hstep as <-. apply list_follows_with_state; [|done].
    change (State.transportPathMode (relink ?x))
      with (State.transportPathMode x).
    unfold label_blur. simpl. by rewrite Hroom.
  - (* editor *)
    injection Hstep as <-. apply list_follows_with_state; [|done].
    change (State.transportPathMode (relink ?x))
      with (State.transportPathMode x).
    unfold type_text.
    pose proof (onChange_modes (State.with_jsonEditor value (state p))) as Hm.
    unfold modes in Hm. simpl in Hm. congruence.
  - (* paths *)
    by injection Hstep as <-.
Qed.






Lemma ui_run_inv `{rt : Runtime} (may : UIEvent → Page → bool)
    (I : Page → Prop) (events : list UIEvent) (p p' : Page) :
  (∀ event q o,
     may event q = true → ui_step event q = Some o → I q → I (page_of o)) →
  ui_run may events p = Some p' → I p → I p'.
Proof.
  intros Hstep. revert p.
  induction events as [|event rest IH]; intros p; cbn [ui_run].
  { by intros [= <-]. }
  destruct (may event p) eqn:Hmay; [|done].
  destruct (ui_step event p) as [o|] eqn:Ho; [|done].
  intros Hrun Hp. apply (IH _ Hrun). by apply (Hstep event p).
Qed.

(** X21.  The handlers of main.js keep at most one of link mode, transport
    path mode and results view mode on, as long as they return.  "Transport
    Paths" is the one that can leave two on: when [path_input()] throws,
    the handler stops after transport path mode is set and its list shown,
    before the results view is ended. *)
Theorem handlers_keep_one_mode `{rt : Runtime} :
  (∀ event p p',
     ui_step event p = Some (Returned p') →
     one_mode (state p) → one_mode (state p'))
  ∧ (∀ event p p',
       ui_step event p = Some (Thrown p') →
       event ≠ DeducePathsClick →
       one_mode (state p) → one_mode (state p'))
  ∧ (∀ p p',
       ui_step DeducePathsClick p = Some (Thrown p') →
       path_input (state p) = None
       ∧ modes (state p') = (false, true, State.resultsViewMode (state p))
       ∧ tranportPathList_display p' = Some true).
Proof.
  split_and!.
  - intros event p p' Hstep Hone.
    apply (ui_step_modes event p (Returned p') Hstep Hone).
  - intros event p p' Hstep Hev Hone.
    pose proof (ui_step_modes event p (Thrown p') Hstep Hone) as H.
    by destruct event.
  - intros p p' Hstep. cbn [ui_step] in Hstep. cbv zeta in Hstep.
    set (p1 := with_state disableLinkMode (with_state clearSelection p)) in *.
    unfold TransportPathManager_start in Hstep.
    destruct (State.transportPathMode (state p1)) eqn:E; [done|].
    cbv zeta in Hstep. cbn [fst] in Hstep.
    rewrite (path_input_layout (state p)) in Hstep by done.
    destruct (path_input (state p)); [done|].
    cbn [fst] in Hstep. by injection Hstep as <-.
Qed.


(** X23.  The list of transport paths is shown while transport path mode
    is on and hidden - or, before the mode was first entered, as the
    stylesheet has it - while it is off: on every page the handlers of
    main.js lead to from the start, whatever the events and also where a
    handler throws; and from any page on which list and mode agree the
    handlers lead to such pages only. *)
Theorem path_list_follows_transport_mode `{rt : Runtime}
    (events : list UIEvent) :
  (∀ p, ui_run any_event events Page_initial = Some p →
        list_follows_mode p)
  ∧ (∀ p0 p, ui_run any_event events p0 = Some p →
             list_follows_mode p0 → list_follows_mode p).
Proof.
  assert (∀ p0 p, ui_run any_event events p0 = Some p →
                  list_follows_mode p0 → list_follows_mode p) as Hinv.
  { intros p0 p Hrun.
    apply (ui_run_inv any_event list_follows_mode events p0 p); [|done].
    intros event q o _. apply ui_step_list_follows. }
  split; [|done]. intros p Hrun. by apply (Hinv Page_initial).
Qed.

(** ** Elements and registries *)
















Section in_sync_facts.
Context `{rt : Runtime}.
Hypothesis uuid_inj : Inj (=) (=) randomUUID.













End in_sync_facts.















(** ** The model at work *)




(** C2 on scenario 9 of the specification: with the kitchen removed, the
    aperture that joined it to the hall lists the hall alone, and the
    registry holds the hall alone. *)
Lemma removeRoom_scenario :
  Aperture.rooms <$> JsMap.values (State.apertures Example.kitchen_removed)
    = [["uuid-1"]]
  ∧ JsMap.keys (State.rooms Example.kitchen_removed) = ["uuid-1"].
Proof. by vm_compute. Qed.



(** C10 fails for the name of a side: it is in neither registry, and
    [removeRoom] takes it out of the grounded aperture. *)
Lemma removeRoom_strips_a_side :
  JsMap.get "Front" (State.rooms Example.layout) = None
  ∧ JsMap.get "Front" (State.apertures Example.layout) = None
  ∧ Aperture.rooms <$> JsMap.get "uuid-3" (State.apertures Example.layout)
    = Some ["uuid-0"; "Front"]
  ∧ Aperture.rooms
      <$> JsMap.get "uuid-3" (State.apertures (removeRoom "Front" Example.layout))
    = Some ["uuid-0"]
  ∧ removeRoom "Front" Example.layout ≠ Example.layout.
Proof.
  split_and!; [by vm_compute..|]. intros Heq.
  apply (f_equal (λ s, Aperture.rooms <$> JsMap.get "uuid-3" (State.apertures s)))
    in Heq.
  vm_compute in Heq. discriminate Heq.
Qed.

(** C10 fails for the identifier of a room that is registered no more: it
    is in neither registry, and [removeRoom] takes it out of the aperture
    that still names it. *)
Lemma removeRoom_strips_a_stale_room :
  JsMap.get "uuid-0" (State.rooms Example.stale) = None
  ∧ JsMap.get "uuid-0" (State.apertures Example.stale) = None
  ∧ Aperture.rooms <$> JsMap.values (State.apertures Example.stale)
    = [["uuid-0"; "Front"]]
  ∧ Aperture.rooms
      <$> JsMap.values (State.apertures (removeRoom "uuid-0" Example.stale))
    = [["Front"]]
  ∧ removeRoom "uuid-0" Example.stale ≠ Example.stale.
Proof.
  split_and!; [by vm_compute..|]. intros Heq.
  apply (f_equal (λ s, Aperture.rooms <$> JsMap.values (State.apertures s)))
    in Heq.
  vm_compute in Heq. discriminate Heq.
Qed.

(** C10 on the example: an identifier that names nothing, and the
    identifier of a room, which is no key of the aperture registry. *)
Lemma remove_absent_is_noop_witness :
  removeAperture "uuid-0" Example.layout = Example.layout
  ∧ removeRoom "uuid-9" Example.layout = Example.layout.
Proof.
  split.
  - apply (proj1 (remove_absent_is_noop Example.layout "uuid-0")).
    by vm_compute.
  - apply (proj2 (remove_absent_is_noop Example.layout "uuid-9"));
      [by vm_compute|].
    apply (bool_decide_unpack _). by vm_compute.
Defined.

Lemma link_mode_completes_witness :
  let s := Example.kitchen_selected Example.two_rooms.2 in
  (∃ ap, State.apertures
           (linkRoom (rt := Example.bare) Example.hall "uuid-1" s)
         = [("uuid-2", ap)]
       ∧ Aperture.grounded ap = false
       ∧ Aperture.rooms ap = ["uuid-0"; "uuid-1"])
  ∧ (∃ ap, State.apertures (linkClickBanner (rt := Example.bare) "Left" s)
           = [("uuid-2", ap)]
         ∧ Aperture.grounded ap = true
         ∧ Aperture.rooms ap = ["uuid-0"; "Left"]).
Proof.
  intros s.
  destruct (link_mode_completes (rt := Example.bare) s Example.kitchen
              eq_refl eq_refl eq_refl) as [Hroom Hside].
  split.
  - destruct (Hroom Example.hall "uuid-1") as (ap & Haps & Hg & Hr & _).
    by exists ap.
  - destruct (Hside "Left") as (ap & Haps & Hg & Hr & _). by exists ap.
Defined.

(** C4 on the example: the kitchen clicked twice in link mode. *)
Lemma linkRoom_kitchen_twice :
  let s := linkRoom (rt := Example.bare) Example.kitchen "uuid-0"
             (Example.kitchen_selected Example.two_rooms.2) in
  Aperture.rooms <$> JsMap.values (State.apertures s) = [["uuid-0"; "uuid-0"]]
  ∧ State.linkMode s = false.
Proof. by vm_compute. Qed.



(** An area that is an object with a [toString] of its own: [Number] throws
    on it, the message is hidden and the area stays 1. *)
Lemma editor_keeps_area_when_Number_throws :
  let txt := JSON_stringify (Runtime := Example.rt) Example.area_object in
  let s' := type_text (rt := Example.rt) txt Example.aperture_clicked in
  safeParseJSON (rt := Example.rt) txt VNull = Example.area_object
  ∧ Number_ (rt := Example.rt) (field "area" Example.area_object) = None
  ∧ State.jsonError (State.ui s') = None
  ∧ Aperture.area <$> JsMap.get "uuid-2" (State.apertures s') = Some (Fin 1).
Proof. vm_compute. by split_and!. Qed.

(** Texts as [Number] reads them: rounded to binary64, an infinity beyond
    its range and zero below it. *)
Lemma StringToNumber_rounds :
  StringToNumber "1e400" = PosInf
  ∧ StringToNumber "-1e400" = NegInf
  ∧ StringToNumber "1e-400" = Fin 0
  ∧ StringToNumber "0.1" = Fin (Example.tenths 1)
  ∧ StringToNumber " 0x1F " = Fin (Qc_of_Z 31)
  ∧ StringToNumber "2.5" = Fin (Qc_of_Z 5 / 2)
  ∧ StringToNumber "wide" = NaN.
Proof.
  split_and!; try by vm_compute.
  all: unfold StringToNumber; vm_compute trim; cbv iota beta.
  all: match goal with
       | |- ?x = Fin ?q =>
           let e := eval vm_compute in x in
           match e with
           | Fin ?r =>
               transitivity (Fin r); [by vm_compute|];
               f_equal; apply Qc_is_canon; by vm_compute
           end
       end.
Qed.

(** C6 fails for an upload whose [apertures] is no list: [findMaster] takes
    it for the master document, the layout is cleared, and the loop over the
    descriptors throws. *)
Lemma load_resets_for_a_master_without_list :
  let upload :=
    [mkFile "upload.json"
            (JSON_stringify (Runtime := Example.rt) Example.no_apertures_list)] in
  Forall (λ f, spec_master (safeParseJSON (rt := Example.rt) (text f) VNull)
               = false) upload
  ∧ JsMap.keys (State.rooms Example.layout) = ["uuid-0"; "uuid-1"]
  ∧ ∃ s', load (rt := Example.rt) upload Example.layout = LoadThrew s'
        ∧ State.rooms s' = [] ∧ State.apertures s' = [].
Proof.
  split_and!; [apply (bool_decide_unpack _); by vm_compute | by vm_compute |].
  eexists. split; [vm_compute; reflexivity|]. done.
Qed.

Lemma load_without_master_witness :
  let upload := [mkFile "notes.txt" "to do"; mkFile "room_Hall.json" "{}"] in
  load (rt := Example.rt) upload Example.layout
  = MasterNotFound "Master file not found." Example.layout.
Proof.
  apply load_without_master. apply (bool_decide_unpack _). by vm_compute.
Defined.

(** C8 fails for a move that comes 5 ms after a redraw: the position is
    written, the renderer does not run, and after the release the lines are
    still those of the move before. *)
Lemma drag_leaves_stale_lines :
  let rt := Example.rt in
  let after := gesture Example.drag Example.press Example.layout in
  State.connectionLayer (State.ui Example.layout)
    = connection_lines Example.layout
  ∧ dragging Example.press = Some "uuid-0"
  ∧ after.2 = [Qc_of_Z 100]
  ∧ dragging after.1.1 = None
  ∧ (RoomUI.position ∘ Room.ui) <$> JsMap.get "uuid-0" (State.rooms after.1.2)
    = Some (Position.mk (Qc_of_Z 70) (Qc_of_Z 70))
  ∧ State.connectionLayer (State.ui after.1.2) ≠ connection_lines after.1.2.
Proof.
  intros rt after. split_and!.
  - apply (bool_decide_unpack _). by vm_compute.
  - apply (bool_decide_unpack _). by vm_compute.
  - apply (bool_decide_unpack _). by vm_compute.
  - apply (bool_decide_unpack _). by vm_compute.
  - apply (bool_decide_unpack _). by vm_compute.
  - apply (bool_decide_eq_false_1 _). by vm_compute.
Qed.

Lemma throttled_render_contract_witness :
  let rt := Example.rt in
  spaced (Qc_of_Z 16) 0 (gesture Example.drag Example.press Example.layout).2.
Proof.
  intros rt.
  destruct (throttled_render_contract (rt := rt)) as [Hspaced _].
  apply (Hspaced Example.drag Example.press Example.layout).
Defined.

Lemma save_orphan_breaks_alignment_witness :
  ∃ descriptors positions,
    field "apertures" (default VNull (save_master Example.kitchen_removed))
    = VArr descriptors
    ∧ field "apertures"
        (field "ui" (default VNull (save_master Example.kitchen_removed)))
      = VArr positions
    ∧ length positions = 1%nat
    ∧ (length descriptors < length positions)%nat.
Proof.
  destruct (save_orphan_breaks_alignment Example.kitchen_removed
              (default VNull (save_master Example.kitchen_removed))
              (strip_room "uuid-0"
                 (Aperture.mk "uuid-2" (Fin 1) false ["uuid-0"; "uuid-1"]
                    (ApertureUI.mk Example.between))))
    as (descriptors & positions & Hd & Hp & Hlen & Hlt).
  - vm_compute. reflexivity.
  - apply (bool_decide_unpack _). vm_compute. exact I.
  - vm_compute. reflexivity.
  - exists descriptors, positions. split_and!; [exact Hd|exact Hp| |exact Hlt].
    rewrite Hlen. vm_compute. reflexivity.
Defined.

(** ** The further properties at work *)

Lemma save_outcome_witness :
  ∃ master,
    save_master Example.layout = Some master
    ∧ save (rt := Example.rt) Example.layout
      = Saved ((saved_file <$> JsMap.values (State.rooms Example.layout))
               ++ [mkFile "layout_master.json"
                     (JSON_stringify (Runtime := Example.rt) master)]).
Proof.
  apply (proj1 (save_outcome (rt := Example.rt) Example.layout)).
  apply (bool_decide_unpack _); by vm_compute.
Defined.

Lemma path_input_matches_save_witness :
  ∃ descriptors,
    field "apertures" (default VNull (save_master Example.layout))
    = VArr descriptors
    ∧ Forall2 same_ends (default [] (path_input Example.layout)) descriptors
    ∧ field "id" <$> default [] (path_input Example.layout)
      = (λ ap, VStr (Aperture.id ap))
          <$> filter (λ ap, described ap = true)
                (JsMap.values (State.apertures Example.layout)).
Proof.
  apply (proj2 (path_input_matches_save Example.layout)); by vm_compute.
Defined.

Lemma save_master_rooms_witness :
  ∃ roomFiles,
    field "rooms" (default VNull (save_master Example.layout)) = VObj roomFiles
    ∧ NoDup (JsMap.keys roomFiles)
    ∧ (length roomFiles ≤ JsMap.size (State.rooms Example.layout))%nat
    ∧ ∀ l,
        JsMap.get l roomFiles
        = if bool_decide
               (l ∈ Room.label <$> JsMap.values (State.rooms Example.layout)
                ∧ l ≠ "__proto__")
          then Some (VStr (room_filename l))
          else None.
Proof.
  apply (save_master_rooms Example.layout). by vm_compute.
Defined.

Lemma file_name_only_cuts_directory_witness :
  file_name_only ("layouts/saved" +:+ "/" +:+ "room_Hall.json")
  = "room_Hall.json".
Proof.
  apply (proj1 file_name_only_cuts_directory).
  by apply after_last_slash_None.
Defined.

Lemma findMaster_first_witness :
  findMaster (rt := Example.rt)
    ([mkFile "room_Kitchen.json" "kitchen notes"]
     ++ mkFile "anything.txt"
          (JSON_stringify (Runtime := Example.rt)
             (default VNull (save_master Example.layout)))
        :: [mkFile "room_Hall.json" "hall notes"])
  = Some (json_norm (default VNull (save_master Example.layout))).
Proof.
  apply (findMaster_first (rt := Example.rt)).
  - apply (bool_decide_unpack _); by vm_compute.
  - by vm_compute.
  - by vm_compute.
Defined.


Lemma link_from_unregistered_room_witness :
  let s' :=
    linkClickBanner (rt := Example.rt) "Front"
      (reset (Example.kitchen_selected Example.two_rooms.2)) in
  save_master s' = None ∧ path_input s' = None
  ∧ save (rt := Example.rt) s'
    = SaveThrew
        (saved_file
           <$> JsMap.values
                 (State.rooms
                    (reset (Example.kitchen_selected Example.two_rooms.2)))).
Proof.
  assert (State.linkMode (reset (Example.kitchen_selected Example.two_rooms.2))
          = true) as Hmode by by vm_compute.
  assert (State.linkSelection
            (reset (Example.kitchen_selected Example.two_rooms.2))
          = [Example.kitchen]) as Hsel by by vm_compute.
  assert (¬ registered (Room.id Example.kitchen)
              (reset (Example.kitchen_selected Example.two_rooms.2))) as Hun
    by by intros [? ?].
  exact (proj1 (proj1 (link_from_unregistered_room (rt := Example.rt)
                         _ Example.kitchen Hmode Hsel) Hun) "Front").
Defined.

Lemma removeRoom_then_save_witness :
  save_master (removeRoom (Room.id Example.kitchen) Example.layout) = None
  ↔ Exists (λ ap, Aperture.grounded ap = true
                  ∧ Aperture.rooms ap !! 0%nat = Some (Room.id Example.kitchen))
           (JsMap.values (State.apertures Example.layout)).
Proof.
  apply removeRoom_then_save. apply (bool_decide_unpack _); by vm_compute.
Defined.

Lemma registries_stay_keyed_witness :
  keyed (removeRoom "uuid-0"
           (createRoom (rt := Example.bare) (mkRoomInit None None None)
              State.initial).2)
  ∧ keyed (createAperture (rt := Example.bare)
             (mkApertureInit "uuid-0" None None None None) State.initial).2
  ∧ ¬ keyed (createAperture (rt := Example.bare)
               (mkApertureInit "door" None None None None) State.initial).2.
Proof.
  destruct (registries_stay_keyed (rt := Example.bare))
    as (Hcalls & _ & Hcreate).
  assert (keyed State.initial) as Hk by by split; constructor.
  split_and!.
  - apply (Hcalls State.initial); [|done].
    eapply rtc_l; [apply step_createRoom|].
    eapply rtc_l; [apply step_removeRoom|]. apply rtc_refl.
  - by apply Hcreate.
  - intros H. apply Hcreate in H; [|done]. discriminate H.
Defined.


(** What [parseInt] reads of an inline position: the whole pixels of 50px,
    12.7px and -0.5px, and the first digit of 1e-7px, 9.5e-7px, 1e+21px
    and -3.1e+25px. *)
Lemma parseInt_px_reads_the_text :
  parseInt_px (Qc_of_Z 50) = Qc_of_Z 50
  ∧ parseInt_px (Qc_of_Z 127 / Qc_of_Z 10) = Qc_of_Z 12
  ∧ parseInt_px (- (1 / 2)) = 0
  ∧ parseInt_px (pow10 (-7)) = 1
  ∧ parseInt_px (Qc_of_Z 95 * pow10 (-8)) = Qc_of_Z 9
  ∧ parseInt_px (pow10 21) = 1
  ∧ parseInt_px (Qc_of_Z (-31) * pow10 24) = Qc_of_Z (-3)
  ∧ parseInt_px (round64 (pow10 (-6))) = 0.
Proof. split_and!; apply Qc_is_canon; by vm_compute. Qed.


Lemma editor_shows_what_it_reads_witness :
  let ap :=
    default (new_Aperture "" None None None None)
      (JsMap.get "uuid-2" (State.apertures Example.layout)) in
  let s1 := click_aperture (rt := Example.rt) "uuid-2" Example.layout in
  State.selected s1 = Some "uuid-2"
  ∧ State.jsonEditorContainer (State.ui s1) = true
  ∧ State.jsonEditor (State.ui s1)
    = JSON_stringify (Runtime := Example.rt)
        (VObj [("area", VNum (Aperture.area ap))])
  ∧ State.jsonError (State.ui s1)
    = (match Aperture.area ap with
       | Fin q => if bool_decide (q = 0) then Some "Area of aperture not defined"
                  else None
       | _ => Some "Area of aperture not defined"
       end)
  ∧ State.apertures (onChange (rt := Example.rt) s1)
    = State.apertures Example.layout
  ∧ State.rooms (onChange (rt := Example.rt) s1) = State.rooms Example.layout.
Proof.
  assert (JsMap.get "uuid-2" (State.rooms Example.layout) = None) as Hroom
    by by vm_compute.
  assert (JsMap.get "uuid-2" (State.apertures Example.layout)
          = Some (default (new_Aperture "" None None None None)
                    (JsMap.get "uuid-2" (State.apertures Example.layout))))
    as Hap by by vm_compute.
  assert (let shown :=
            VObj [("area",
                   VNum (Aperture.area
                           (default (new_Aperture "" None None None None)
                              (JsMap.get "uuid-2"
                                 (State.apertures Example.layout)))))] in
          JSON_parse (Runtime := Example.rt)
            (JSON_stringify (Runtime := Example.rt) shown)
          = Some (json_norm shown)) as Hjson by by vm_compute.
  exact (editor_shows_what_it_reads (rt := Example.rt) Example.layout "uuid-2"
           _ Hroom Hap Hjson).
Defined.

Lemma typed_text_is_saved_witness :
  let s' :=
    type_text (rt := Example.rt) "to do"
      (click_room (rt := Example.rt) Example.kitchen Example.layout) in
  State.selected s' = Some (Room.id Example.kitchen)
  ∧ JsMap.get (Room.id Example.kitchen) (State.rooms s')
    = Some (with_data "to do" Example.kitchen)
  ∧ (∀ k, k ≠ Room.id Example.kitchen →
       JsMap.get k (State.rooms s') = JsMap.get k (State.rooms Example.layout))
  ∧ mkFile (room_filename (Room.label Example.kitchen)) "to do"
    ∈ downloads_of (save (rt := Example.rt) s').
Proof.
  assert (JsMap.get (Room.id Example.kitchen) (State.rooms Example.layout)
          = Some Example.kitchen) as Hroom by by vm_compute.
  exact (typed_text_is_saved (rt := Example.rt) Example.layout Example.kitchen
           "to do" Hroom).
Defined.

Lemma banner_follows_link_mode_witness :
  banner_tells_link_mode (enableLinkMode State.initial).
Proof.
  apply (proj2 (proj2 (proj2 (banner_follows_link_mode (rt := Example.rt))))
           State.initial).
  - apply rtc_once, step_enableLinkMode.
  - done.
Defined.

Lemma createRoom_labels_witness :
  State.rooms
    (createRoom (rt := Example.bare) (mkRoomInit (Some "") None None)
       State.initial).2
  = State.rooms State.initial
    ++ [("uuid-0",
         (createRoom (rt := Example.bare) (mkRoomInit (Some "") None None)
            State.initial).1)].
Proof.
  exact (proj1 (proj2 (proj2 (proj2 (proj2
           (createRoom_labels (rt := Example.bare)
              (mkRoomInit (Some "") None None) State.initial)))))
           eq_refl).
Defined.

Lemma handlers_keep_one_mode_witness :
  match ui_step (rt := Example.bare) AddApertureClick Visit.built with
  | Some (Returned p') => one_mode (state p')
  | _ => False
  end
  ∧ match ui_run (rt := Visit.rt) any_event Visit.stranded Page_initial with
    | Some p =>
        match ui_step (rt := Visit.rt) DeducePathsClick p with
        | Some (Thrown p') =>
            path_input (state p) = None
            ∧ modes (state p') = (false, true, true)
            ∧ tranportPathList_display p' = Some true
        | _ => False
        end
    | None => False
    end.
Proof.
  split.
  - destruct (ui_step (rt := Example.bare) AddApertureClick Visit.built)
      as [[p'|p']|] eqn:E.
    + apply (proj1 (handlers_keep_one_mode (rt := Example.bare))
               AddApertureClick Visit.built p' E).
      vm_compute. left. split; reflexivity.
    + vm_compute in E. discriminate E.
    + vm_compute in E. discriminate E.
  - destruct (ui_run (rt := Visit.rt) any_event Visit.stranded Page_initial)
      as [p|] eqn:Ep; [|vm_compute in Ep; discriminate Ep].
    assert (State.resultsViewMode (state p) = true) as Hr.
    { vm_compute in Ep. injection Ep as <-. reflexivity. }
    destruct (ui_step (rt := Visit.rt) DeducePathsClick p)
      as [[p'|p']|] eqn:E.
    + vm_compute in Ep. injection Ep as <-. vm_compute in E. discriminate E.
    + pose proof (proj2 (proj2 (handlers_keep_one_mode (rt := Visit.rt)))
                    p p' E) as H.
      rewrite Hr in H. exact H.
    + vm_compute in Ep. injection Ep as <-. vm_compute in E. discriminate E.
Defined.


Lemma path_list_follows_transport_mode_witness :
  match ui_run (rt := Visit.rt) any_event
          (Visit.stranded ++ [DeducePathsClick]) Page_initial with
  | Some p =>
      tranportPathList_display p = Some true
      ∧ State.transportPathMode (state p) = true
      ∧ list_follows_mode p
  | None => False
  end.
Proof.
  destruct (ui_run (rt := Visit.rt) any_event
              (Visit.stranded ++ [DeducePathsClick]) Page_initial)
    as [p|] eqn:E.
  - pose proof (proj1 (path_list_follows_transport_mode (rt := Visit.rt) _)
                  p E) as H.
    vm_compute in E. injection E as <-. split_and!; [done|done|exact H].
  - vm_compute in E. discriminate E.
Defined.

